(** * Knowledge tree and content panel: a shallow embedding

    The browser side of the site has two modules.  [TreeVisualization]
    (docs/js/tree.js) keeps the expand / collapse / select state of a d3
    hierarchy; [ContentDisplay] (the content display module) loads a record and
    writes it into the panel.  Both are embedded here as pure functions over
    explicit state records, and the behaviour the specification promises is
    stated and proved about those functions. *)

From Stdlib Require Import Strings.String Strings.Ascii Lists.List Arith.PeanoNat Lia.
From stdpp Require Import base option list strings gmap.
Local Open Scope string_scope.
Local Open Scope list_scope.

(** * Preliminaries *)

(** Apply [f] to every element, from the left; fail when [f] fails. *)
Definition traverse {A B : Type} (f : A -> option B) : list A -> option (list B) :=
  fix go (l : list A) : option (list B) :=
    match l with
    | [] => Some []
    | x :: r =>
      match f x, go r with
      | Some y, Some ys => Some (y :: ys)
      | _, _ => None
      end
    end.

(** * Part I: the tree state engine (docs/js/tree.js) *)

Module Tree.

(** ** Data *)

(** The [slug] of a tree datum: the property may be missing, [null], or a
    string (possibly the empty string). *)
Inductive Slug : Type :=
| SlugUndefined
| SlugNull
| SlugStr (s : string).

(** The fields of a datum that the module reads through [d.data]. A missing
    [name] is [None]. *)
Record NodeData : Type := { name : option string; slug : Slug }.

(** The JSON tree handed to [loadData]. A datum is an object or [null];
    [children] is missing / [null] ([None]) or an array. *)
Local Unset Elimination Schemes.

Inductive Datum : Type :=
| DNull
| DObj (dname : option string) (dslug : Slug) (dchildren : option (list Datum)).

(** A d3 hierarchy node.  [children] holds the visible children, [_children]
    the hidden ones; each is [None] when the property is [null] or was never
    set.  [id] is [None] until [loadData] numbers the nodes.  The [parent]
    link is the position of the node in the hierarchy (see [Loc]). *)
Inductive Node : Type :=
| mkNode (data : NodeData) (id : option nat)
         (children : option (list Node)) (_children : option (list Node)).

Definition data (n : Node) : NodeData := let 'mkNode d _ _ _ := n in d.
Definition id (n : Node) : option nat := let 'mkNode _ i _ _ := n in i.
Definition children (n : Node) : option (list Node) := let 'mkNode _ _ c _ := n in c.
Definition _children (n : Node) : option (list Node) := let 'mkNode _ _ _ h := n in h.

(** Induction over a node and, through either child list, over its subtrees. *)
Section NodeInd.
Variable P : Node -> Prop.
Hypothesis step : forall d i c h,
  (forall l, c = Some l -> Forall P l) ->
  (forall l, h = Some l -> Forall P l) ->
  P (mkNode d i c h).

Fixpoint Node_ind (n : Node) : P n :=
  match n with
  | mkNode d i c h =>
    let all := fix all (l : list Node) : Forall P l :=
      match l with
      | [] => @List.Forall_nil _ P
      | x :: r => @List.Forall_cons _ P x r (Node_ind x) (all r)
      end in
    step d i c h
      (fun l e => match c as c0 return c0 = Some l -> Forall P l with
                  | Some l0 => fun e0 =>
                      eq_ind l0 (Forall P) (all l0) l (Some_inj _ _ e0)
                  | None => fun e0 => match None_ne_Some _ e0 with end
                  end e)
      (fun l e => match h as h0 return h0 = Some l -> Forall P l with
                  | Some l0 => fun e0 =>
                      eq_ind l0 (Forall P) (all l0) l (Some_inj _ _ e0)
                  | None => fun e0 => match None_ne_Some _ e0 with end
                  end e)
  end.
End NodeInd.

(** ** Expanding and collapsing *)

(** [expandAll(d)]: move hidden children into view, then recurse into the
    visible children. *)
Fixpoint expandAll (d : Node) : Node :=
  match d with
  | mkNode dt i _ (Some h) => mkNode dt i (Some (expandAll <$> h)) None
  | mkNode dt i (Some c) None => mkNode dt i (Some (expandAll <$> c)) None
  | mkNode _ _ None None => d
  end.

(** [collapse(d)]: hide the visible children and collapse each of them. *)
Fixpoint collapse (d : Node) : Node :=
  match d with
  | mkNode dt i (Some c) _ => mkNode dt i None (Some (collapse <$> c))
  | mkNode _ _ None _ => d
  end.

(** [toggle(d)]: swap the two references, hiding when something is visible. *)
Definition toggle (d : Node) : Node :=
  match d with
  | mkNode dt i (Some c) _ => mkNode dt i None (Some c)
  | mkNode dt i None (Some h) => mkNode dt i (Some h) None
  | mkNode _ _ None None => d
  end.

(** The test [c.data.name === targetName] of [expandPath] and
    [findNodeByPath]. *)
Definition named (targetName : string) (c : Node) : Prop :=
  name (data c) = Some targetName.

Global Instance named_dec targetName c : Decision (named targetName c) :=
  decide (name (data c) = Some targetName).

(** The first step of [expandPath]: reveal hidden children. *)
Definition reveal (node : Node) : Node :=
  match node with
  | mkNode dt i _ (Some h) => mkNode dt i (Some h) None
  | mkNode _ _ _ None => node
  end.

(** [expandPath(node, pathArray, index)].  The pair [pathArray], [index] is
    represented by the segments still to be matched, [pathArray.slice(index)];
    [index >= pathArray.length] is the empty list.  The child found by
    [Array.prototype.find] is updated in place. *)
Fixpoint expandPath (node : Node) (pathArray : list string) : Node :=
  match pathArray with
  | [] => node
  | targetName :: rest =>
    match reveal node with
    | mkNode dt i (Some c) h =>
      match list_find (named targetName) c with
      | Some (k, _) =>
        mkNode dt i (Some (alter (fun child => expandPath child rest) k c)) h
      | None => mkNode dt i (Some c) h
      end
    | mkNode dt i None h => mkNode dt i None h
    end
  end.

(** ** The two-reference invariant *)

(** No node of the subtree has both [children] and [_children] set. *)
Inductive exclusive : Node -> Prop :=
| exclusive_leaf dt i : exclusive (mkNode dt i None None)
| exclusive_open dt i c :
    Forall exclusive c -> exclusive (mkNode dt i (Some c) None)
| exclusive_closed dt i h :
    Forall exclusive h -> exclusive (mkNode dt i None (Some h)).

Local Set Elimination Schemes.

(** [isLeaf(d)] *)
Definition isLeaf (d : Node) : bool :=
  match children d, _children d with
  | None, None => true
  | _, _ => false
  end.

(** ** Node references *)

(** A reference to a node object is its position in the hierarchy: the child
    indices on the way down from the root.  [d3.hierarchy] fixes the position
    of every node and no operation of the module moves a node, so the position
    identifies the object; [d.parent] is the position without its last index
    and the root is the empty position. *)
Definition Loc : Type := list nat.

(** [node.children || node._children] *)
Definition kids (n : Node) : option (list Node) :=
  match children n with
  | Some c => Some c
  | None => _children n
  end.

(** Dereference a position below [n]. *)
Fixpoint nodeAt (n : Node) (p : Loc) : option Node :=
  match p with
  | [] => Some n
  | k :: p' =>
    match kids n with
    | Some l => match l !! k with Some c => nodeAt c p' | None => None end
    | None => None
    end
  end.

(** In-place update of the object at position [p]. *)
Fixpoint alterAt (f : Node -> Node) (p : Loc) (n : Node) : Node :=
  match p with
  | [] => f n
  | k :: p' =>
    match n with
    | mkNode dt i (Some c) h => mkNode dt i (Some (alter (alterAt f p') k c)) h
    | mkNode dt i None (Some h) => mkNode dt i None (Some (alter (alterAt f p') k h))
    | mkNode _ _ None None => n
    end
  end.

(** [isRoot(d)]: [!d.parent] *)
Definition isRoot (d : Loc) : bool :=
  match d with [] => true | _ => false end.

(** [d.parent] *)
Definition parent (d : Loc) : option Loc :=
  match d with [] => None | _ => Some (removelast d) end.

(** The positions on the way from the root down to [d], root first. *)
Fixpoint inits (d : Loc) : list Loc :=
  [] :: match d with
        | [] => []
        | k :: d' => cons k <$> inits d'
        end.

(** [node.ancestors()]: the node, its parent, and so on up to the root. *)
Definition ancestors (d : Loc) : list Loc := reverse (inits d).

(** ** d3.hierarchy and traversal *)

(** [d3.hierarchy(data, d => d.children)].  Reading [children] of a [null]
    datum raises a TypeError ([None]).  An empty array gives a node without
    [children], like a missing or [null] property. *)
Fixpoint hierarchy (d : Datum) : option Node :=
  match d with
  | DNull => None
  | DObj nm sl ch =>
    let dt := {| name := nm; slug := sl |} in
    match ch with
    | Some (c :: cs) =>
      match traverse hierarchy (c :: cs) with
      | Some ns => Some (mkNode dt None (Some ns) None)
      | None => None
      end
    | _ => Some (mkNode dt None None None)
    end
  end.

(** Positions below a node, from the positions listed for each of its
    children: those of child [j] get [j] in front. *)
Definition under (pss : list (list Loc)) : list Loc :=
  mjoin (imap (fun j ps => cons j <$> ps) pss).

(** The positions at depth [k] that are reachable through [children], from
    left to right. *)
Fixpoint level (k : nat) (n : Node) : list Loc :=
  match k with
  | 0 => [[]]
  | S k' =>
    match children n with
    | Some c => under (level k' <$> c)
    | None => []
    end
  end.

(** Height of the visible part of the tree. *)
Fixpoint height (n : Node) : nat :=
  match n with
  | mkNode _ _ (Some c) _ => foldr (fun ch acc => Nat.max (S (height ch)) acc) 0 c
  | mkNode _ _ None _ => 0
  end.

(** [node.descendants()]: the node and everything reachable through
    [children], breadth first (level after level, each from left to right). *)
Definition descendants (n : Node) : list Loc :=
  mjoin ((fun k => level k n) <$> seq 0 (S (height n))).

(** [q] is reached from [n] through [children] only: the node at [q] is
    part of the visible tree. *)
Fixpoint visibleAt (n : Node) (q : Loc) : Prop :=
  match q with
  | [] => True
  | k :: q' =>
    match children n with
    | Some c => match c !! k with Some ch => visibleAt ch q' | None => False end
    | None => False
    end
  end.

(** Every position of the hierarchy, hidden or not. *)
Fixpoint positions (n : Node) : list Loc :=
  [] :: match n with
        | mkNode _ _ (Some c) _ => under (positions <$> c)
        | mkNode _ _ None (Some h) => under (positions <$> h)
        | mkNode _ _ None None => []
        end.

(** ** Module state *)

(** The [config] fields that steer the landing state. *)
Record Config : Type := {
  duration : nat;
  defaultLanding : string;
  defaultPath : list string
}.

(** The module variables after [loadData], together with what the module has
    done to its surroundings: the elements it keeps in the SVG group [g], the
    calls it made to [onNodeSelect] and the timeouts it has scheduled. *)
Record State : Type := {
  root : Node;
  selectedNode : option Loc;
  (** whether [init] was given a selection callback *)
  onNodeSelect : bool;
  isTreeExpanded : bool;
  (** the [.node] groups, each with the node it is bound to and its classes *)
  domNodes : list (Loc * list string);
  (** the [.link] paths, each with its node and whether it has [link--active] *)
  domLinks : list (Loc * bool);
  (** arguments of the calls [onNodeSelect(slug, name)], oldest first *)
  calls : list (string * option string);
  (** pending [setTimeout(() => selectNode(target), delay)] *)
  timers : list (nat * Loc)
}.

Definition with_root (st : State) (r : Node) : State :=
  {| root := r; selectedNode := selectedNode st; onNodeSelect := onNodeSelect st;
     isTreeExpanded := isTreeExpanded st; domNodes := domNodes st;
     domLinks := domLinks st; calls := calls st; timers := timers st |}.

Definition with_selectedNode (st : State) (s : option Loc) : State :=
  {| root := root st; selectedNode := s; onNodeSelect := onNodeSelect st;
     isTreeExpanded := isTreeExpanded st; domNodes := domNodes st;
     domLinks := domLinks st; calls := calls st; timers := timers st |}.

Definition with_isTreeExpanded (st : State) (b : bool) : State :=
  {| root := root st; selectedNode := selectedNode st; onNodeSelect := onNodeSelect st;
     isTreeExpanded := b; domNodes := domNodes st;
     domLinks := domLinks st; calls := calls st; timers := timers st |}.

Definition with_dom (st : State) (ns : list (Loc * list string))
    (ls : list (Loc * bool)) : State :=
  {| root := root st; selectedNode := selectedNode st; onNodeSelect := onNodeSelect st;
     isTreeExpanded := isTreeExpanded st; domNodes := ns;
     domLinks := ls; calls := calls st; timers := timers st |}.

Definition with_calls (st : State) (cs : list (string * option string)) : State :=
  {| root := root st; selectedNode := selectedNode st; onNodeSelect := onNodeSelect st;
     isTreeExpanded := isTreeExpanded st; domNodes := domNodes st;
     domLinks := domLinks st; calls := cs; timers := timers st |}.

Definition with_timers (st : State) (ts : list (nat * Loc)) : State :=
  {| root := root st; selectedNode := selectedNode st; onNodeSelect := onNodeSelect st;
     isTreeExpanded := isTreeExpanded st; domNodes := domNodes st;
     domLinks := domLinks st; calls := calls st; timers := ts |}.

(** ** Predicates on nodes *)

(** Truthiness of a reference that is an array or [null] / [undefined]. *)
Definition truthy {A : Type} (o : option A) : bool :=
  match o with Some _ => true | None => false end.

(** [isCollapsed()]: [!root.children || root.children.length === 0] *)
Definition isCollapsed (r : Node) : bool :=
  match children r with
  | None => true
  | Some c => Nat.eqb (length c) 0
  end.

(** [hasContent(d)]: the slug is neither [null] nor [undefined]. *)
Definition hasContent (d : Node) : bool :=
  match slug (data d) with
  | SlugUndefined | SlugNull => false
  | SlugStr _ => true
  end.

(** Truthiness of [d.data.slug], with the string when it is truthy: the empty
    string is falsy. *)
Definition truthySlug (d : Node) : option string :=
  match slug (data d) with
  | SlugStr s => if String.eqb s "" then None else Some s
  | _ => None
  end.

(** The [id] of the object at a position. *)
Definition idAt (r : Node) (p : Loc) : option nat := nodeAt r p ≫= id.

(** The nodes of the hierarchy carry pairwise different ids. *)
Definition distinctIds (r : Node) : Prop := NoDup (idAt r <$> positions r).

(** [isOnActivePath(d)]: some ancestor of the selected node has the id of [d]. *)
Definition isOnActivePath (r : Node) (sel : option Loc) (d : Loc) : bool :=
  match sel with
  | None => false
  | Some s => existsb (fun a => bool_decide (idAt r a = idAt r d)) (ancestors s)
  end.

(** The [link--active] test used by [update] and [updateActivePath]:
    [ancestorIds.has(d.id) && d.parent && ancestorIds.has(d.parent.id)]. *)
Definition linkActive (r : Node) (sel : option Loc) (d : Loc) : bool :=
  match sel with
  | None => false
  | Some s =>
    let ancestorIds := idAt r <$> ancestors s in
    bool_decide (idAt r d ∈ ancestorIds) &&
    match parent d with
    | Some q => bool_decide (idAt r q ∈ ancestorIds)
    | None => false
    end
  end.

(** [getNodeClass(d)], as the list that is joined with spaces. *)
Definition getNodeClass (r : Node) (sel : option Loc) (d : Loc) : list string :=
  match nodeAt r d with
  | None => []
  | Some n =>
    ["node"]
    ++ (if isRoot d then
          ["node--root"]
          ++ (if truthy (children n) then ["expanded"] else [])
          ++ (if isCollapsed r then ["node--collapsed"] else [])
        else if isLeaf n then ["node--leaf"]
        else ["node--parent"])
    ++ (if truthy (_children n) then ["node--has-children"] else [])
    ++ (if isOnActivePath r sel d then ["node--active"] else [])
  end.

(** ** Rendering *)

(** [update(source)].  Nodes and links are joined by id to
    [treeData.descendants()] and its [slice(1)]; entering elements are added,
    exiting ones removed, and every element gets its classes afresh.  An
    entering [.node] group is appended before the group of the node that
    follows it in the data, so the groups stand in the order of the data.  An
    entering [.link] path is inserted before the first group
    ([insert('path', 'g')]), that is after the paths that are there: the
    paths that stay keep their places and the entering ones follow them, in
    the order of the data.  The ids of a loaded tree are distinct, so an
    element is joined to the node it was bound to.  The layout and the
    transitions are not modelled, so [source] plays no role. *)
Definition update (st : State) : State :=
  let nodes := descendants (root st) in
  let links := tail nodes in
  let staying := (filter (fun e : Loc * bool => e.1 ∈ links) (domLinks st)).*1 in
  let entering := filter (fun d => d ∉ (domLinks st).*1) links in
  with_dom st
    ((fun d => (d, getNodeClass (root st) (selectedNode st) d)) <$> nodes)
    ((fun d => (d, linkActive (root st) (selectedNode st) d))
       <$> (staying ++ entering)).

(** [g.selectAll('.node').attr('class', n => getNodeClass(n))] *)
Definition refreshNodeClasses (st : State) : State :=
  with_dom st
    ((fun e => (e.1, getNodeClass (root st) (selectedNode st) e.1)) <$> domNodes st)
    (domLinks st).

(** [updateActivePath()] *)
Definition updateActivePath (st : State) : State :=
  match selectedNode st with
  | None => with_dom st (domNodes st) ((fun e => (e.1, false)) <$> domLinks st)
  | Some _ =>
    with_dom st (domNodes st)
      ((fun e => (e.1, linkActive (root st) (selectedNode st) e.1)) <$> domLinks st)
  end.

(** ** Selection *)

(** [selectNode(d)] *)
Definition selectNode (st : State) (d : Loc) : State :=
  let st1 := with_selectedNode st (Some d) in
  let st2 := refreshNodeClasses st1 in
  let st3 := updateActivePath st2 in
  match nodeAt (root st3) d with
  | Some n =>
    match onNodeSelect st3, truthySlug n with
    | true, Some s => with_calls st3 (calls st3 ++ [(s, name (data n))])
    | _, _ => st3
    end
  | None => st3
  end.

(** [clearSelection()] *)
Definition clearSelection (st : State) : State :=
  let st1 := with_selectedNode st None in
  let st2 := refreshNodeClasses st1 in
  with_dom st2 (domNodes st2) ((fun e => (e.1, false)) <$> domLinks st2).

(** [handleNodeClick(event, d)] *)
Definition handleNodeClick (st : State) (d : Loc) : State :=
  match nodeAt (root st) d with
  | None => st
  | Some n =>
    if isRoot d && isCollapsed (root st) then
      let st1 := with_isTreeExpanded st true in
      let st2 := with_root st1 (alterAt toggle d (root st1)) in
      update st2
    else
      let st1 := if hasContent n then selectNode st d else st in
      match kids n with
      | Some _ =>
        let st2 := with_root st1 (alterAt toggle d (root st1)) in
        update st2
      | None => st1
      end
  end.

(** All pending timeouts fire, in the order they were scheduled. *)
Definition settle (st : State) : State :=
  foldl (fun s t => selectNode s t.2) (with_timers st []) (timers st).

(** ** Loading *)

(** [findNodeByPath(node, pathArray, index)]; the result is the reference to
    the node found, as a position below [node]. *)
Fixpoint findNodeByPath (node : Node) (pathArray : list string) : option Loc :=
  match pathArray with
  | [] => Some []
  | targetName :: rest =>
    match kids node with
    | None => None
    | Some c =>
      match list_find (named targetName) c with
      | Some (k, child) => cons k <$> findNodeByPath child rest
      | None => None
      end
    end
  end.

Definition setId (i : nat) (d : Node) : Node :=
  let 'mkNode dt _ c h := d in mkNode dt (Some i) c h.

(** [let i = 0; root.descendants().forEach(d => { d.id = i++; })] *)
Definition assignIds (r : Node) : Node :=
  (foldl (fun acc d => (alterAt (setId acc.2) d acc.1, S acc.2)) (r, 0)
         (descendants r)).1.

Section Landing.
Variable config : Config.

(** [applyDefaultLandingState()], on [root] and [isTreeExpanded]. *)
Definition applyDefaultLandingState (r : Node) (expanded : bool) : Node * bool :=
  if String.eqb (defaultLanding config) "collapsed" then
    (match r with
     | mkNode dt i (Some c) _ => mkNode dt i None (Some (collapse <$> c))
     | mkNode _ _ None _ => r
     end, false)
  else if String.eqb (defaultLanding config) "expanded" then
    (expandAll r, true)
  else if String.eqb (defaultLanding config) "path"
          && Nat.ltb 0 (length (defaultPath config)) then
    (expandPath
       match r with
       | mkNode dt i (Some c) h => mkNode dt i (Some (collapse <$> c)) h
       | mkNode _ _ None _ => r
       end
       (defaultPath config), true)
  else (r, expanded).

(** [applyDefaultSelection()] *)
Definition applyDefaultSelection (st : State) : State :=
  if String.eqb (defaultLanding config) "expanded" then
    if hasContent (root st)
    then with_timers st (timers st ++ [(duration config + 50, [])])
    else st
  else if String.eqb (defaultLanding config) "path"
          && Nat.ltb 0 (length (defaultPath config)) then
    match findNodeByPath (root st) (defaultPath config) with
    | Some targetNode =>
      match nodeAt (root st) targetNode with
      | Some n =>
        if hasContent n
        then with_timers st (timers st ++ [(duration config + 50, targetNode)])
        else st
      | None => st
      end
    | None => st
    end
  else st.

(** [loadData(data)] on a freshly loaded page, where [init] has stored
    [onSelect] in [onNodeSelect] and nothing is selected or rendered yet.
    [None] is the TypeError of [d3.hierarchy] on a [null] datum. *)
Definition loadData (onSelect : bool) (data : Datum) : option State :=
  match hierarchy data with
  | None => None
  | Some r0 =>
    let r1 := assignIds r0 in
    let '(r2, expanded) := applyDefaultLandingState r1 false in
    let st := {| root := r2; selectedNode := None; onNodeSelect := onSelect;
                 isTreeExpanded := expanded; domNodes := []; domLinks := [];
                 calls := []; timers := [] |} in
    Some (applyDefaultSelection (update st))
  end.
End Landing.

(** ** Shapes *)

(** The hierarchy as [d3.hierarchy] built it, whatever is expanded now: each
    node with its data, its children ([children || _children]) all visible,
    and its id when [keep] is set. *)
Fixpoint outline (keep : bool) (n : Node) : Node :=
  match n with
  | mkNode dt i (Some c) _ =>
    mkNode dt (if keep then i else None) (Some (outline keep <$> c)) None
  | mkNode dt i None (Some h) =>
    mkNode dt (if keep then i else None) (Some (outline keep <$> h)) None
  | mkNode dt i None None => mkNode dt (if keep then i else None) None None
  end.

Local Unset Elimination Schemes.

(** Nothing is hidden: no node has [_children]. *)
Inductive fresh : Node -> Prop :=
| fresh_leaf dt i : fresh (mkNode dt i None None)
| fresh_open dt i c : Forall fresh c -> fresh (mkNode dt i (Some c) None).

(** Nothing is expanded: no node has [children]. *)
Inductive closed : Node -> Prop :=
| closed_leaf dt i : closed (mkNode dt i None None)
| closed_shut dt i h : Forall closed h -> closed (mkNode dt i None (Some h)).

Local Set Elimination Schemes.

(** Induction over a datum and the data below it. *)
Section DatumInd.
Variable P : Datum -> Prop.
Hypothesis null : P DNull.
Hypothesis obj : forall nm sl ch,
  (forall l, ch = Some l -> Forall P l) -> P (DObj nm sl ch).

Fixpoint Datum_ind (d : Datum) : P d :=
  match d with
  | DNull => null
  | DObj nm sl ch =>
    let all := fix all (l : list Datum) : Forall P l :=
      match l with
      | [] => @List.Forall_nil _ P
      | x :: r => @List.Forall_cons _ P x r (Datum_ind x) (all r)
      end in
    obj nm sl ch
      (fun l e => match ch as c0 return c0 = Some l -> Forall P l with
                  | Some l0 => fun e0 =>
                      eq_ind l0 (Forall P) (all l0) l (Some_inj _ _ e0)
                  | None => fun e0 => match None_ne_Some _ e0 with end
                  end e)
  end.
End DatumInd.

(** ** Path resolution in the words of the specification *)

(** "Matching each successive name against current children starting at
    root": the position reached by following the names as far as they match,
    each name taking the first child that bears it. *)
Fixpoint matchedPrefix (n : Node) (names : list string) : Loc :=
  match names with
  | [] => []
  | nm :: rest =>
    match kids n with
    | Some c =>
      match list_find (named nm) c with
      | Some (k, ch) => k :: matchedPrefix ch rest
      | None => []
      end
    | None => []
    end
  end.

(** No datum of the tree is [null]. *)
Fixpoint allObjects (d : Datum) : bool :=
  match d with
  | DNull => false
  | DObj _ _ (Some l) => forallb allObjects l
  | DObj _ _ None => true
  end.

(** The node with its [data.name] replaced. *)
Definition withName (nm : option string) (n : Node) : Node :=
  let 'mkNode dt i c h := n in mkNode {| name := nm; slug := slug dt |} i c h.

(** ** Loading malformed data in the words of the specification *)

(** "Fails silently with an empty render", "degrade to an empty/minimal
    render": the call returns and at most the root is drawn. *)
Definition emptyOrMinimalRender (result : option State) : Prop :=
  exists st, result = Some st /\ length (domNodes st) <= 1 /\ domLinks st = [].

(** ** The click rule in the words of the specification *)

(** "The root node's very first click, when the tree is in the fully
    collapsed landing state": the root is clicked, it shows no children, and
    the tree has not been expanded since it landed collapsed. *)
Definition firstClickOnCollapsedLanding (st : State) (d : Loc) : bool :=
  isRoot d && isCollapsed (root st) && negb (isTreeExpanded st).

(** "Clicking a node toggles its expand state if it has children, and/or
    triggers selection if it carries content", the first click on the
    collapsed landing root being the one exception that does not select. *)
Definition clickAsSpecified (st : State) (d : Loc) (n : Node) : Prop :=
  nodeAt (root (handleNodeClick st d)) d = Some (toggle n) /\
  if firstClickOnCollapsedLanding st d
  then selectedNode (handleNodeClick st d) = selectedNode st
  else hasContent n = true -> selectedNode (handleNodeClick st d) = Some d.

(** ** Sample data *)

Definition leaf (nm : string) (sl : Slug) : Datum := DObj (Some nm) sl None.

(** [Root -> Interests -> {Minerals, Bicycles}] *)
Definition interestsTree : Datum :=
  DObj (Some "Root") (SlugStr "about")
    (Some [DObj (Some "Interests") SlugNull
             (Some [leaf "Minerals" (SlugStr "minerals");
                    leaf "Bicycles" (SlugStr "bicycles")])]).

(** A root without [name] over two named leaves. *)
Definition namelessTree : Datum :=
  DObj None SlugNull
    (Some [leaf "Notes" (SlugStr "notes"); leaf "Links" (SlugStr "links")]).

Definition pathConfig (p : list string) : Config :=
  {| duration := 400; defaultLanding := "path"; defaultPath := p |}.

Definition collapsedConfig : Config :=
  {| duration := 400; defaultLanding := "collapsed"; defaultPath := [] |}.

(** The configuration as shipped. *)
Definition expandedConfig : Config :=
  {| duration := 400; defaultLanding := "expanded"; defaultPath := [] |}.

(** The module before any tree is loaded; stands in where [loadData] threw. *)
Definition unloaded : State :=
  {| root := mkNode {| name := None; slug := SlugUndefined |} None None None;
     selectedNode := None; onNodeSelect := false; isTreeExpanded := false;
     domNodes := []; domLinks := []; calls := []; timers := [] |}.

(** A tree whose only leaf has the empty string as slug. *)
Definition draftTree : Datum :=
  DObj (Some "Root") SlugNull (Some [leaf "Draft" (SlugStr EmptyString)]).

(** The sample trees as shipped: landed expanded, with a selection callback. *)
Definition landedExpanded : State :=
  default unloaded (loadData expandedConfig true interestsTree).

Definition landedDraft : State :=
  default unloaded (loadData expandedConfig true draftTree).

(** The sample tree landed collapsed, with a selection callback. *)
Definition landedCollapsed : State :=
  default unloaded (loadData collapsedConfig true interestsTree).



(** The root is clicked open, clicked shut (which selects it), and the
    selection is cleared, as the page does on a click outside the panel. *)
Definition reopenedAndCleared : State :=
  clearSelection (handleNodeClick (handleNodeClick landedCollapsed []) []).

End Tree.

(** * Part II: the content panel (the ContentDisplay module) *)

Module Panel.

(** ** Markup *)

(** The double quote and the line feed, for the markup the module writes. *)
Definition dq : string := String (ascii_of_nat 34) EmptyString.
Definition nl : string := String (ascii_of_nat 10) EmptyString.

Local Unset Elimination Schemes.

(** The nodes an HTML string of a record is parsed to.  The [content] of a
    record is kept in this form: assigning it to [innerHTML] and reading
    [innerHTML] back are then the identity. *)
Inductive Html : Type :=
| Text (s : string)
| Element (tag : string) (childNodes : list Html).

Local Set Elimination Schemes.

(** [node.textContent] *)
Fixpoint textContent (h : Html) : string :=
  match h with
  | Text s => s
  | Element _ ks => foldr (fun k acc => textContent k +:+ acc) EmptyString ks
  end.

(** [firstP = el.querySelector('p')] followed by [firstP.remove()]: the first
    [p] element below [el] in document order, and [el] without it. *)
Fixpoint detachFirstP (el : Html) : option (Html * Html) :=
  match el with
  | Text _ => None
  | Element tag ks =>
    let scan := fix scan (l : list Html) : option (Html * list Html) :=
      match l with
      | [] => None
      | x :: r =>
        match x with
        | Element t _ =>
          if String.eqb t "p" then Some (x, r)
          else match detachFirstP x with
               | Some (found, x') => Some (found, x' :: r)
               | None =>
                 match scan r with
                 | Some (found, r') => Some (found, x :: r')
                 | None => None
                 end
               end
        | Text _ =>
          match scan r with
          | Some (found, r') => Some (found, x :: r')
          | None => None
          end
        end
      end in
    match scan ks with
    | Some (found, ks') => Some (found, Element tag ks')
    | None => None
    end
  end.

Definition childNodes (h : Html) : list Html :=
  match h with Text _ => [] | Element _ ks => ks end.

Definition isText (h : Html) : Prop :=
  match h with Text _ => True | Element _ _ => False end.

(** ** Records *)

(** [collaborators] is a string or an array of strings. *)
Inductive Collaborators : Type :=
| CollabString (s : string)
| CollabArray (l : list string).

(** A content record; a missing field is [None]. *)
Record ContentRecord : Type := {
  title : option string;
  date : option string;
  collaborators : option Collaborators;
  description : option string;
  image : option string;
  content : option (list Html);
  references : option (list string);
  resources : option (list string)
}.

Definition with_content (d : ContentRecord) (c : option (list Html)) : ContentRecord :=
  {| title := title d; date := date d; collaborators := collaborators d;
     description := description d; image := image d; content := c;
     references := references d; resources := resources d |}.

(** ** The panel *)

Inductive Display : Type := DisplayUnset | DisplayBlock | DisplayNone | DisplayFlex.

(** What the image container holds: nothing, the [img] written by
    [renderContent], or the placeholder drawing written by [renderError]. *)
Inductive ImageBox : Type :=
| NoImage
| Img (src alt : string)
| Placeholder.

(** The elements [init] looked up, each [None] when the page lacks it, with
    the part of their state the module writes, and [currentSlug]. *)
Record Panel : Type := {
  (** whether the class list has [visible] *)
  contentSection : option bool;
  (** whether the class list has [has-content] *)
  treeSection : option bool;
  (** [textContent] *)
  contentTitle : option string;
  (** [innerHTML] *)
  contentMeta : option string;
  (** [textContent] and [style.display] *)
  contentDescription : option (string * Display);
  contentImageContainer : option (ImageBox * Display);
  (** [innerHTML], parsed *)
  contentBody : option (list Html);
  (** [innerHTML] *)
  contentFooter : option string;
  currentSlug : option string
}.

(** The result of a call that may raise: the state it left behind either
    way. *)
Inductive Outcome (A : Type) : Type :=
| Returned (a : A)
| Thrown (a : A).
Arguments Returned {A} a.
Arguments Thrown {A} a.

Definition after {A : Type} (o : Outcome A) : A :=
  match o with Returned a | Thrown a => a end.

(** [try { body } catch { handler }] *)
Definition tryCatch {A : Type} (body : Outcome A) (handler : A -> Outcome A) : Outcome A :=
  match body with
  | Returned a => Returned a
  | Thrown a => handler a
  end.

(** ** Strings *)

(** A string that is truthy: present and not empty. *)
Definition truthyString (o : option string) : option string :=
  match o with
  | Some s => if String.eqb s EmptyString then None else Some s
  | None => None
  end.

(** What assigning a possibly missing string to [textContent] stores. *)
Definition asText (o : option string) : string := default EmptyString o.

(** What a template literal prints for a possibly missing string. *)
Definition interpolate (o : option string) : string := default "undefined" o.

(** [s.replace(pattern, replacement)] with a string pattern: the first
    occurrence only. *)
Fixpoint replaceFirst (pattern replacement s : string) : string :=
  if String.prefix pattern s
  then replacement +:+ String.substring (String.length pattern)
                         (String.length s - String.length pattern) s
  else match s with
       | EmptyString => EmptyString
       | String c s' => String c (replaceFirst pattern replacement s')
       end.

(** [items.join(separator)] *)
Definition join (separator : string) (items : list string) : string :=
  String.concat separator items.

(** [data.content || '']: a missing body is the empty markup. *)
Definition orEmpty (o : option (list Html)) : list Html :=
  match o with Some c => c | None => [] end.

Section Rendering.
(** [formatDate], which rests on the browser's [Date]. *)
Variable formatDate : string -> string.
(** [new URL(res).hostname]; [None] when the constructor throws. *)
Variable hostname : string -> option string.

Definition metaItem (text : string) : string :=
  "<span class=" +:+ dq +:+ "content-meta-item" +:+ dq +:+ ">" +:+ text +:+ "</span>".

Definition listItem (text : string) : string := "<li>" +:+ text +:+ "</li>".

Definition linkItem (href text : string) : string :=
  "<li><a href=" +:+ dq +:+ href +:+ dq +:+ " target=" +:+ dq +:+ "_blank" +:+ dq
  +:+ ">" +:+ text +:+ "</a></li>".

(** One labelled list of the footer, with the white space of the template. *)
Definition footerBlock (class label items : string) : string :=
  nl +:+ "          <div class=" +:+ dq +:+ class +:+ dq +:+ ">"
  +:+ nl +:+ "            <span class=" +:+ dq +:+ "content-references-label" +:+ dq
  +:+ ">" +:+ label +:+ "</span>"
  +:+ nl +:+ "            <ul class=" +:+ dq +:+ "content-references-list" +:+ dq
  +:+ ">" +:+ items +:+ "</ul>"
  +:+ nl +:+ "          </div>"
  +:+ nl +:+ "        ".

(** The callback mapped over [data.resources]; [None] when [new URL] throws. *)
Definition resourceItem (res : string) : option string :=
  if String.prefix "http" res then
    match hostname res with
    | Some h => Some (linkItem res (replaceFirst "www." EmptyString h))
    | None => None
    end
  else Some (listItem res).

(** The title step of [renderContent]. *)
Definition renderTitle (p : Panel) (data : ContentRecord)
    (fallbackName : option string) : Panel :=
  match contentTitle p with
  | None => p
  | Some _ =>
    let text := match truthyString (title data) with
                | Some t => t
                | None => asText fallbackName
                end in
    {| contentSection := contentSection p; treeSection := treeSection p;
       contentTitle := Some text; contentMeta := contentMeta p;
       contentDescription := contentDescription p;
       contentImageContainer := contentImageContainer p;
       contentBody := contentBody p; contentFooter := contentFooter p;
       currentSlug := currentSlug p |}
  end.

(** The meta step. *)
Definition renderMeta (p : Panel) (data : ContentRecord) : Panel :=
  match contentMeta p with
  | None => p
  | Some _ =>
    let dateItems := match truthyString (date data) with
                     | Some d => [metaItem (formatDate d)]
                     | None => []
                     end in
    let collabItems := match collaborators data with
                       | Some (CollabArray (c :: cs)) => [metaItem (join ", " (c :: cs))]
                       | Some (CollabString s) =>
                         if String.eqb s EmptyString then [] else [metaItem s]
                       | _ => []
                       end in
    {| contentSection := contentSection p; treeSection := treeSection p;
       contentTitle := contentTitle p;
       contentMeta := Some (join EmptyString (dateItems ++ collabItems));
       contentDescription := contentDescription p;
       contentImageContainer := contentImageContainer p;
       contentBody := contentBody p; contentFooter := contentFooter p;
       currentSlug := currentSlug p |}
  end.

Definition with_description (p : Panel) (text : string) (d : Display) : Panel :=
  {| contentSection := contentSection p; treeSection := treeSection p;
     contentTitle := contentTitle p; contentMeta := contentMeta p;
     contentDescription := Some (text, d);
     contentImageContainer := contentImageContainer p;
     contentBody := contentBody p; contentFooter := contentFooter p;
     currentSlug := currentSlug p |}.

(** The description step; it rewrites [data.content] when it takes the
    first paragraph out. *)
Definition renderDescription (p : Panel) (data : ContentRecord)
    : Panel * ContentRecord :=
  match contentDescription p with
  | None => (p, data)
  | Some _ =>
    match truthyString (description data) with
    | Some text => (with_description p text DisplayBlock, data)
    | None =>
      let tempDiv := Element "div" (orEmpty (content data)) in
      match detachFirstP tempDiv with
      | Some (firstP, tempDiv') =>
        (with_description p (textContent firstP) DisplayBlock,
         with_content data (Some (childNodes tempDiv')))
      | None => (with_description p EmptyString DisplayNone, data)
      end
    end
  end.

(** The image step. *)
Definition renderImage (p : Panel) (data : ContentRecord) : Panel :=
  match contentImageContainer p with
  | None => p
  | Some _ =>
    let box :=
      match truthyString (image data) with
      | Some src =>
        if String.eqb src "null" then (NoImage, DisplayNone)
        else (Img src (interpolate (title data)), DisplayFlex)
      | None => (NoImage, DisplayNone)
      end in
    {| contentSection := contentSection p; treeSection := treeSection p;
       contentTitle := contentTitle p; contentMeta := contentMeta p;
       contentDescription := contentDescription p;
       contentImageContainer := Some box;
       contentBody := contentBody p; contentFooter := contentFooter p;
       currentSlug := currentSlug p |}
  end.

Definition with_body (p : Panel) (b : list Html) : Panel :=
  {| contentSection := contentSection p; treeSection := treeSection p;
     contentTitle := contentTitle p; contentMeta := contentMeta p;
     contentDescription := contentDescription p;
     contentImageContainer := contentImageContainer p;
     contentBody := Some b; contentFooter := contentFooter p;
     currentSlug := currentSlug p |}.

(** The body step: [contentBody.innerHTML = data.content || '']. *)
Definition renderBody (p : Panel) (data : ContentRecord) : Panel :=
  match contentBody p with
  | None => p
  | Some _ => with_body p (orEmpty (content data))
  end.

Definition with_footer (p : Panel) (html : string) : Panel :=
  {| contentSection := contentSection p; treeSection := treeSection p;
     contentTitle := contentTitle p; contentMeta := contentMeta p;
     contentDescription := contentDescription p;
     contentImageContainer := contentImageContainer p;
     contentBody := contentBody p; contentFooter := Some html;
     currentSlug := currentSlug p |}.

(** The markup of the resources list; [None] when an item throws. *)
Definition resourcesHtml (data : ContentRecord) : option string :=
  match resources data with
  | Some (r :: rs) =>
    match traverse resourceItem (r :: rs) with
    | Some items =>
      Some (footerBlock "content-resources" "resources" (join EmptyString items))
    | None => None
    end
  | _ => Some EmptyString
  end.

Definition referencesHtml (data : ContentRecord) : string :=
  match references data with
  | Some (r :: rs) =>
    footerBlock "content-references" "references"
      (join EmptyString (listItem <$> r :: rs))
  | _ => EmptyString
  end.

(** The footer step; an exception leaves the footer as it was. *)
Definition renderFooter (p : Panel) (data : ContentRecord) : Outcome Panel :=
  match contentFooter p with
  | None => Returned p
  | Some _ =>
    match resourcesHtml data with
    | Some res => Returned (with_footer p (referencesHtml data +:+ res))
    | None => Thrown p
    end
  end.

(** [renderContent(data, fallbackName)], with the record as it leaves it. *)
Definition renderContent (p : Panel) (data : ContentRecord)
    (fallbackName : option string) : Outcome (Panel * ContentRecord) :=
  let p1 := renderTitle p data fallbackName in
  let p2 := renderMeta p1 data in
  let '(p3, data') := renderDescription p2 data in
  let p4 := renderImage p3 data' in
  let p5 := renderBody p4 data' in
  match renderFooter p5 data' with
  | Returned p6 => Returned (p6, data')
  | Thrown p6 => Thrown (p6, data')
  end.

(** [renderError(name)] *)
Definition renderError (p : Panel) (name : option string) : Panel :=
  {| contentSection := contentSection p; treeSection := treeSection p;
     contentTitle :=
       match contentTitle p with
       | Some _ => Some (default "Not Found" (truthyString name))
       | None => None
       end;
     contentMeta :=
       match contentMeta p with Some _ => Some EmptyString | None => None end;
     contentDescription :=
       match contentDescription p with
       | Some _ => Some ("Content could not be loaded.", DisplayBlock)
       | None => None
       end;
     contentImageContainer :=
       match contentImageContainer p with
       | Some (_, d) => Some (Placeholder, d)
       | None => None
       end;
     contentBody := match contentBody p with Some _ => Some [] | None => None end;
     contentFooter :=
       match contentFooter p with Some _ => Some EmptyString | None => None end;
     currentSlug := currentSlug p |}.

(** [show()] *)
Definition show (p : Panel) : Panel :=
  {| contentSection :=
       match contentSection p with Some _ => Some true | None => None end;
     treeSection :=
       match treeSection p with Some _ => Some true | None => None end;
     contentTitle := contentTitle p; contentMeta := contentMeta p;
     contentDescription := contentDescription p;
     contentImageContainer := contentImageContainer p;
     contentBody := contentBody p; contentFooter := contentFooter p;
     currentSlug := currentSlug p |}.

(** [hide()] *)
Definition hide (p : Panel) : Panel :=
  {| contentSection :=
       match contentSection p with Some _ => Some false | None => None end;
     treeSection :=
       match treeSection p with Some _ => Some false | None => None end;
     contentTitle := contentTitle p; contentMeta := contentMeta p;
     contentDescription := contentDescription p;
     contentImageContainer := contentImageContainer p;
     contentBody := contentBody p; contentFooter := contentFooter p;
     currentSlug := None |}.

(** [isVisible()]: [contentSection && contentSection.classList.contains('visible')];
    [None] is the falsy [null] / [undefined] of a missing section. *)
Definition isVisible (p : Panel) : option bool := contentSection p.

Definition with_currentSlug (p : Panel) (s : string) : Panel :=
  {| contentSection := contentSection p; treeSection := treeSection p;
     contentTitle := contentTitle p; contentMeta := contentMeta p;
     contentDescription := contentDescription p;
     contentImageContainer := contentImageContainer p;
     contentBody := contentBody p; contentFooter := contentFooter p;
     currentSlug := Some s |}.

(** ** Fetching *)

(** What [response.json()] settles to. *)
Inductive Body : Type :=
| BadJson
| Json (data : ContentRecord).

(** What [fetch(url)] settles to: a rejection, or a response. *)
Inductive FetchResult : Type :=
| NetworkError
| Response (ok : bool) (status : nat) (body : Body).

(** The server and the network, as seen through [fetch]. *)
Variable fetch : string -> FetchResult.

(** The [try] block of [loadContent]. *)
Definition loadContentBody (p : Panel) (slug : string) (name : option string)
    : Outcome Panel :=
  let url := "/api/content/" +:+ slug in
  match fetch url with
  | NetworkError => Thrown p
  | Response false _ _ => Thrown p
  | Response true _ BadJson => Thrown p
  | Response true _ (Json data) =>
    match renderContent p data name with
    | Returned (p', _) => Returned (with_currentSlug (show p') slug)
    | Thrown (p', _) => Thrown p'
    end
  end.

(** [loadContent(slug, name)]: how the promise it returns settles,
    [Returned] for fulfilled and [Thrown] for rejected, with the panel as
    it then is. *)
Definition loadContent (p : Panel) (slug : string) (name : option string)
    : Outcome Panel :=
  tryCatch (loadContentBody p slug name)
           (fun p' => Returned (show (renderError p' name))).
End Rendering.

(** ** The rules in the words of the specification *)












(** The failure rule as the specification words it: the call returns, the
    panel is visible and the title shown is the fallback name. *)
Definition failureAsSpecified (result : Outcome Panel) (fallbackName : option string)
    : Prop :=
  exists p', result = Returned p' /\ isVisible p' = Some true /\
    contentTitle p' = Some (asText fallbackName).

(** ** Sample data *)

(** A page with every element of the panel, nothing rendered yet. *)
Definition blankPanel : Panel :=
  {| contentSection := Some false; treeSection := Some false;
     contentTitle := Some EmptyString; contentMeta := Some EmptyString;
     contentDescription := Some (EmptyString, DisplayUnset);
     contentImageContainer := Some (NoImage, DisplayUnset);
     contentBody := Some []; contentFooter := Some EmptyString;
     currentSlug := None |}.

(** A stand-in for the host parser of [URL], enough for URLs of the form
    [http://host/...] or [https://host/...] with a plain host: the text
    between the two slashes and the next slash. *)
Fixpoint upToSlash (s : string) : string :=
  match s with
  | EmptyString => EmptyString
  | String c s' => if Ascii.eqb c "/" then EmptyString else String c (upToSlash s')
  end.

Definition plainHostname (url : string) : option string :=
  let host :=
    if String.prefix "https://" url
    then upToSlash (String.substring 8 (String.length url - 8) url)
    else if String.prefix "http://" url
    then upToSlash (String.substring 7 (String.length url - 7) url)
    else EmptyString in
  if String.eqb host EmptyString then None else Some host.

Definition monthYear (d : string) : string := d.

(** A record without [description] whose body starts with the paragraph
    "Hello world.". *)
Definition helloRecord : ContentRecord :=
  {| title := Some "Hello"; date := None; collaborators := None;
     description := None; image := None;
     content := Some [Element "p" [Text "Hello world."];
                      Element "p" [Text "More to read."]];
     references := None;
     resources := Some ["https://example.com/page"; "Just a note"] |}.

End Panel.

(** * Part II, continued: layout state, the static loader and the page script *)

(** ** The rest of the tree module (docs/js/tree.js) *)

Module Layout.
Import Tree.

Inductive Breakpoint : Type := Desktop | Tablet | Mobile.

Record Margin : Type := { top : nat; right : nat; bottom : nat; left : nat }.

(** The breakpoints and margins of [config]. *)
Record LayoutConfig : Type := {
  tabletBreakpoint : nat;
  mobileBreakpoint : nat;
  margin : Margin;
  marginTablet : Margin;
  marginMobile : Margin;
  marginMobileCollapsed : Margin
}.

(** The values in the source. *)
Definition shippedLayout : LayoutConfig :=
  {| tabletBreakpoint := 1024;
     mobileBreakpoint := 480;
     margin := {| top := 20; right := 150; bottom := 20; left := 120 |};
     marginTablet := {| top := 15; right := 120; bottom := 15; left := 100 |};
     marginMobile := {| top := 10; right := 100; bottom := 10; left := 10 |};
     marginMobileCollapsed := {| top := 10; right := 100; bottom := 10; left := 100 |} |}.

(** [getBreakpoint()], on [window.innerWidth]. *)
Definition getBreakpoint (config : LayoutConfig) (innerWidth : nat) : Breakpoint :=
  if Nat.ltb (tabletBreakpoint config) innerWidth then Desktop
  else if Nat.ltb (mobileBreakpoint config) innerWidth then Tablet
  else Mobile.

(** The inner [traverse(node, depth)] of [getMaxVisibleDepth], with the
    variable [maxDepth] it updates passed in and handed back. *)
Fixpoint traverseDepth (node : Node) (depth maxDepth : nat) : nat :=
  let maxDepth1 := if Nat.ltb maxDepth depth then depth else maxDepth in
  match node with
  | mkNode _ _ (Some c) _ =>
    foldl (fun m child => traverseDepth child (S depth) m) maxDepth1 c
  | mkNode _ _ None _ => maxDepth1
  end.

(** [getMaxVisibleDepth()]; [root] is [None] before any tree is loaded. *)
Definition getMaxVisibleDepth (root : option Node) : nat :=
  match root with
  | None => 0
  | Some r => traverseDepth r 0 0
  end.

(** [getCurrentMargin()] *)
Definition getCurrentMargin (config : LayoutConfig) (innerWidth : nat)
    (root : option Node) : Margin :=
  match getBreakpoint config innerWidth with
  | Desktop => margin config
  | Tablet => marginTablet config
  | Mobile =>
    if Nat.leb (getMaxVisibleDepth root) 1 then marginMobileCollapsed config
    else marginMobile config
  end.

(** [updateRootLabelVisibility()]: the opacity it gives to the text and the
    label background of the root node. *)
Definition rootLabelOpacity (config : LayoutConfig) (innerWidth : nat)
    (root : option Node) : nat :=
  match getBreakpoint config innerWidth with
  | Mobile => if Nat.ltb 1 (getMaxVisibleDepth root) then 0 else 1
  | _ => 1
  end.

(** [selection.classed(name, value)] on the class list of one element. *)
Definition classed (name : string) (value : bool) (classes : list string)
    : list string :=
  if value then
    if bool_decide (name ∈ classes) then classes else classes ++ [name]
  else filter (fun c => c <> name) classes.

(** [updateCollapsedState()]: the elements matching [.node.node--root] get
    or lose [node--collapsed]. *)
Definition updateCollapsedState (st : State) : State :=
  let collapsed := isCollapsed (root st) in
  with_dom st
    ((fun e : Loc * list string =>
        if bool_decide ("node" ∈ e.2) && bool_decide ("node--root" ∈ e.2)
        then (e.1, classed "node--collapsed" collapsed e.2)
        else e) <$> domNodes st)
    (domLinks st).


(** What can happen to the module once a tree is loaded: a click on a node,
    a call of [selectNode] or [clearSelection] from outside, and the pending
    timeouts coming due. *)
Inductive Event : Type :=
| Click (d : Loc)
| Select (d : Loc)
| Clear
| Timeout.

Definition step (st : State) (e : Event) : State :=
  match e with
  | Click d => handleNodeClick st d
  | Select d => selectNode st d
  | Clear => clearSelection st
  | Timeout => settle st
  end.

Definition run (st : State) (events : list Event) : State := foldl step st events.

End Layout.

(** ** The rest of the content module *)

Module Static.
Import Panel.

Section Loading.
(** [formatDate] and [new URL(res).hostname], as in [Panel]. *)
Variable formatDate : string -> string.
Variable hostname : string -> option string.

(** The names every plain object answers to through [Object.prototype]:
    its methods, [constructor] and the accessor [__proto__]. *)
Definition objectPrototypeNames : list string :=
  ["constructor"; "__defineGetter__"; "__defineSetter__"; "hasOwnProperty";
   "__lookupGetter__"; "__lookupSetter__"; "isPrototypeOf"; "propertyIsEnumerable";
   "toString"; "valueOf"; "__proto__"; "toLocaleString"].

(** What such a name gives, read as a record: a function or
    [Object.prototype] itself, which is truthy and has none of the fields. *)
Definition inheritedValue : ContentRecord :=
  {| title := None; date := None; collaborators := None; description := None;
     image := None; content := None; references := None; resources := None |}.

(** [loadContentStatic(slug, name)].  [store] is [window.__CONTENT_DATA__],
    [None] when the page does not define it; it is the object literal the
    build writes, and the map holds its own properties, one record per slug
    (a literal with the key [__proto__] is not covered).  The test
    [window.__CONTENT_DATA__[slug]] also finds what the object inherits, so a
    slug that is one of [objectPrototypeNames] and has no record takes the
    content path with the inherited value.  [renderContent] works on the
    record held by the store, so what it does to the record stays in the
    store; the inherited value has no [content] for it to change.  There is
    no [try]: an exception of [renderContent] leaves the call. *)
Definition loadContentStatic (store : option (gmap string ContentRecord))
    (p : Panel) (slug : string) (name : option string)
    : Outcome (Panel * option (gmap string ContentRecord)) :=
  match store with
  | Some records =>
    match records !! slug with
    | Some data =>
      match renderContent formatDate hostname p data name with
      | Returned (p', data') =>
        Returned (with_currentSlug (show p') slug, Some (<[slug := data']> records))
      | Thrown (p', data') => Thrown (p', Some (<[slug := data']> records))
      end
    | None =>
      if bool_decide (slug ∈ objectPrototypeNames) then
        match renderContent formatDate hostname p inheritedValue name with
        | Returned (p', _) => Returned (with_currentSlug (show p') slug, store)
        | Thrown (p', _) => Thrown (p', store)
        end
      else Returned (show (renderError p name), store)
    end
  | None => Returned (show (renderError p name), store)
  end.

(** [renderContentDirect(data, name)] *)
Definition renderContentDirect (p : Panel) (data : ContentRecord)
    (name : option string) : Outcome (Panel * ContentRecord) :=
  match renderContent formatDate hostname p data name with
  | Returned (p', data') => Returned (show p', data')
  | Thrown s => Thrown s
  end.

(** [renderErrorDirect(name)] *)
Definition renderErrorDirect (p : Panel) (name : option string) : Panel :=
  show (renderError p name).

(** The network, as seen through [fetch]. *)
Variable fetch : string -> FetchResult.

(** [loadStaticContent(slug, name)] of the page script that reads one JSON
    file per record: how its promise settles. *)
Definition loadStaticContent (p : Panel) (slug : string) (name : option string)
    : Outcome Panel :=
  tryCatch
    match fetch ("./data/content/" +:+ slug +:+ ".json") with
    | NetworkError => Thrown p
    | Response false _ _ => Thrown p
    | Response true _ BadJson => Thrown p
    | Response true _ (Json data) =>
      match renderContentDirect p data name with
      | Returned (p', _) => Returned p'
      | Thrown (p', _) => Thrown p'
      end
    end
    (fun p' => Returned (renderErrorDirect p' name)).
End Loading.

End Static.

(** ** The page script *)

Module App.
Import Tree Panel.

(** The two modules of the page. *)
Record Page : Type := { tree : State; panel : Panel }.

Section Script.
Variable formatDate : string -> string.
Variable hostname : string -> option string.
Variable fetch : string -> FetchResult.

(** [hide()] followed by [clearSelection()] *)
Definition close (pg : Page) : Page :=
  {| tree := clearSelection (tree pg); panel := hide (panel pg) |}.

(** The [click] listener on [document].  [inContent] and [inTree] tell
    whether the content section and the tree section contain the target;
    asking a missing tree section raises a TypeError. *)
Definition documentClick (pg : Page) (inContent inTree : bool) : Outcome Page :=
  match isVisible (panel pg) with
  | Some true =>
    match treeSection (panel pg) with
    | None => Thrown pg
    | Some _ =>
      if negb inContent && negb inTree then Returned (close pg) else Returned pg
    end
  | _ => Returned pg
  end.

(** The [keydown] listener on [document]. *)
Definition keydown (pg : Page) (key : string) : Page :=
  if String.eqb key "Escape" then
    match isVisible (panel pg) with
    | Some true => close pg
    | _ => pg
    end
  else pg.

(** [handleNodeSelect(slug, name)] for each call the tree made since
    [before], the promise of [loadContent] taken as settled at once. *)
Definition deliver (before : State) (t : State) (p : Panel) : Panel :=
  foldl (fun q call => after (loadContent formatDate hostname fetch q call.1 call.2))
        p (drop (length (calls before)) (calls t)).

(** A click on the node [d] of the tree.  The handler stops the event, so
    the listener on [document] does not see it. *)
Definition nodeClick (pg : Page) (d : Loc) : Page :=
  let t := handleNodeClick (tree pg) d in
  {| tree := t; panel := deliver (tree pg) t (panel pg) |}.
End Script.

End App.

(** * Part III: properties of the tree state engine *)

Module TreeFacts.
Import Tree.

(** ** The two-reference invariant *)

Lemma Forall_exclusive_fmap (f : Node -> Node) (l : list Node) :
  Forall (fun n => exclusive n -> exclusive (f n)) l ->
  Forall exclusive l -> Forall exclusive (f <$> l).
Proof.
  intros IH Hl. apply Forall_fmap.
  induction IH as [|x r Hx _ IHr]; inversion_clear Hl; constructor; auto.
Qed.

Lemma exclusive_collapse (n : Node) : exclusive n -> exclusive (collapse n).
Proof.
  induction n as [dt i c h IHc IHh] using Node_ind.
  intros Hx. inversion Hx; subst; simpl; try assumption.
  apply exclusive_closed, Forall_exclusive_fmap; auto.
Qed.

Lemma exclusive_expandAll (n : Node) : exclusive n -> exclusive (expandAll n).
Proof.
  induction n as [dt i c h IHc IHh] using Node_ind.
  intros Hx. inversion Hx; subst; simpl; try assumption.
  - apply exclusive_open, Forall_exclusive_fmap; auto.
  - apply exclusive_open, Forall_exclusive_fmap; auto.
Qed.

Lemma exclusive_toggle (n : Node) : exclusive n -> exclusive (toggle n).
Proof.
  intros Hx. inversion Hx; subst; simpl; try assumption.
  - now apply exclusive_closed.
  - now apply exclusive_open.
Qed.

Lemma exclusive_reveal (n : Node) : exclusive n -> exclusive (reveal n).
Proof.
  intros Hx. inversion Hx; subst; simpl; try assumption.
  now apply exclusive_open.
Qed.

Lemma Forall_exclusive_alter (f : Node -> Node) (k : nat) (l : list Node) :
  (forall n, exclusive n -> exclusive (f n)) ->
  Forall exclusive l -> Forall exclusive (alter f k l).
Proof.
  intros Hf Hl. revert k.
  induction Hl as [|x r Hx Hr IHr]; intros [|k]; simpl; constructor; auto.
  apply IHr.
Qed.

Lemma exclusive_expandPath (pathArray : list string) (n : Node) :
  exclusive n -> exclusive (expandPath n pathArray).
Proof.
  revert n. induction pathArray as [|targetName rest IH]; intros n Hx; [exact Hx|].
  simpl. apply exclusive_reveal in Hx.
  destruct (reveal n) as [dt i [c|] h]; [|exact Hx].
  destruct (list_find (named targetName) c) as [[k ?]|]; [|exact Hx].
  inversion Hx; subst. apply exclusive_open, Forall_exclusive_alter; auto.
Qed.

Lemma toggle_leaf (n : Node) : isLeaf n = true -> toggle n = n.
Proof.
  destruct n as [dt i [c|] [h|]]; cbv [isLeaf children _children toggle];
    intros; congruence.
Qed.

(** C9.  Each of [collapse], [expandAll], [toggle] and [expandPath] maps a
    tree in which no node has both [children] and [_children] set to a tree
    with the same property, and [toggle] leaves a leaf (neither reference
    set) as it is. *)
Theorem tree_operations_keep_references_exclusive (n : Node) :
  exclusive n ->
  exclusive (collapse n) /\
  exclusive (expandAll n) /\
  exclusive (toggle n) /\
  (forall pathArray, exclusive (expandPath n pathArray)) /\
  (isLeaf n = true -> toggle n = n).
Proof.
  intros Hx. repeat split.
  - now apply exclusive_collapse.
  - now apply exclusive_expandAll.
  - now apply exclusive_toggle.
  - intros p. now apply exclusive_expandPath.
  - apply toggle_leaf.
Qed.

(** ** Dereferencing after an in-place update *)

Lemma kids_Some_children (n : Node) (c : list Node) :
  children n = Some c -> kids n = Some c.
Proof. unfold kids. now intros ->. Qed.

Lemma nodeAt_app (r : Node) (p q : Loc) :
  nodeAt r (p ++ q) = nodeAt r p ≫= (fun n => nodeAt n q).
Proof.
  revert r. induction p as [|k p IH]; intros r; simpl; [reflexivity|].
  destruct (kids r) as [l|]; [|reflexivity].
  destruct (l !! k) as [c|]; [apply IH|reflexivity].
Qed.

Lemma nodeAt_alterAt (f : Node -> Node) (d : Loc) (r n : Node) :
  nodeAt r d = Some n -> nodeAt (alterAt f d r) d = Some (f n).
Proof.
  revert r. induction d as [|k d IH]; intros r; simpl.
  - congruence.
  - destruct r as [dt i [c|] [h|]]; cbn [kids children _children];
      try discriminate.
    all: rewrite list_lookup_alter_eq.
    all: match goal with |- context [?l !! ?j] => destruct (l !! j) as [x|] end.
    all: simpl; try discriminate; apply IH.
Qed.

Lemma root_selectNode (st : State) (d : Loc) : root (selectNode st d) = root st.
Proof.
  unfold selectNode. simpl.
  destruct (nodeAt _ d) as [n|]; [|now destruct (selectedNode st)].
  destruct (onNodeSelect _), (truthySlug n); reflexivity.
Qed.

Lemma selectedNode_selectNode (st : State) (d : Loc) :
  selectedNode (selectNode st d) = Some d.
Proof.
  unfold selectNode. simpl.
  destruct (nodeAt _ d) as [n|]; [|reflexivity].
  destruct (onNodeSelect _), (truthySlug n); reflexivity.
Qed.

(** ** Selection and its callback *)

(** C10.  [selectNode(d)] makes [d] the selected node in every case.  The
    callback is called, with the slug and the name of [d], exactly when a
    callback is installed and the slug is a non-empty string; with no
    callback, or a slug that is missing, [null] or the empty string, no call
    is made.  A node whose slug is the empty string has content for
    [hasContent], is selected, and causes no call. *)
Theorem selectNode_selects_and_calls_back_on_truthy_slug
    (st : State) (d : Loc) (n : Node) :
  nodeAt (root st) d = Some n ->
  selectedNode (selectNode st d) = Some d /\
  (forall s, onNodeSelect st = true -> slug (data n) = SlugStr s -> s <> "" ->
     calls (selectNode st d) = calls st ++ [(s, name (data n))]) /\
  (onNodeSelect st = false \/ slug (data n) = SlugUndefined \/
   slug (data n) = SlugNull \/ slug (data n) = SlugStr "" ->
     calls (selectNode st d) = calls st) /\
  (slug (data n) = SlugStr "" ->
     hasContent n = true /\
     selectedNode (selectNode st d) = Some d /\
     calls (selectNode st d) = calls st).
Proof.
  intros Hn.
  assert (Hcalls : calls (selectNode st d) =
            match onNodeSelect st, truthySlug n with
            | true, Some s => calls st ++ [(s, name (data n))]
            | _, _ => calls st
            end).
  { unfold selectNode. cbn [root with_selectedNode refreshNodeClasses
      updateActivePath with_dom selectedNode]. rewrite Hn. simpl.
    destruct (onNodeSelect st), (truthySlug n); reflexivity. }
  split; [apply selectedNode_selectNode|].
  split; [|split].
  - intros s Hcb Hs Hne. rewrite Hcalls, Hcb. unfold truthySlug. rewrite Hs.
    destruct (String.eqb_spec s ""); [contradiction|reflexivity].
  - intros H. rewrite Hcalls. unfold truthySlug.
    destruct H as [->|[->|[->| ->]]]; [reflexivity|..];
      now destruct (onNodeSelect st).
  - intros Hs. split; [|split].
    + unfold hasContent. now rewrite Hs.
    + apply selectedNode_selectNode.
    + rewrite Hcalls. unfold truthySlug. rewrite Hs.
      now destruct (onNodeSelect st).
Qed.

(** ** The visible set *)

Lemma elem_of_under (pss : list (list Loc)) (q : Loc) :
  q ∈ under pss <-> exists k q' ps, q = k :: q' /\ pss !! k = Some ps /\ q' ∈ ps.
Proof.
  unfold under. rewrite list_elem_of_join. split.
  - intros (l & Hq & Hl). apply elem_of_lookup_imap_1 in Hl as (k & ps & -> & Hk).
    apply list_elem_of_fmap in Hq as (q' & -> & Hq'). eauto 6.
  - intros (k & q' & ps & -> & Hk & Hq'). exists (cons k <$> ps). split.
    + now apply list_elem_of_fmap_2.
    + now apply (elem_of_lookup_imap_2 (fun j ps => cons j <$> ps)).
Qed.

Lemma elem_of_level (k : nat) (n : Node) (q : Loc) :
  q ∈ level k n <-> length q = k /\ visibleAt n q.
Proof.
  revert n q. induction k as [|k IH]; intros n q; simpl.
  - rewrite list_elem_of_singleton. split.
    + intros ->. now split.
    + intros [Hl _]. now destruct q.
  - destruct (children n) as [c|] eqn:Hc.
    + rewrite elem_of_under. split.
      * intros (j & q' & ps & -> & Hj & Hq'). rewrite list_lookup_fmap in Hj.
        simpl. rewrite Hc. destruct (c !! j) as [ch|]; [|discriminate].
        injection Hj as <-. apply IH in Hq' as [<- Hv]. now split.
      * intros [Hl Hv]. destruct q as [|j q']; [discriminate|].
        simpl in Hv. rewrite Hc in Hv. destruct (c !! j) as [ch|] eqn:Hj; [|contradiction].
        exists j, q', (level k ch). rewrite list_lookup_fmap, Hj.
        repeat split. apply IH. split; [|assumption]. simpl in Hl. lia.
    + split; [intros H; inversion H|].
      intros [Hl Hv]. destruct q as [|j q']; [discriminate|].
      simpl in Hv. now rewrite Hc in Hv.
Qed.

Lemma height_child (dt : NodeData) (i : option nat) (c : list Node)
    (h : option (list Node)) (k : nat) (ch : Node) :
  c !! k = Some ch -> S (height ch) <= height (mkNode dt i (Some c) h).
Proof.
  simpl. revert k. induction c as [|x c IH]; intros [|k]; simpl; try discriminate.
  - intros [= ->]. lia.
  - intros Hk. specialize (IH _ Hk). lia.
Qed.

Lemma visibleAt_height (n : Node) (q : Loc) : visibleAt n q -> length q <= height n.
Proof.
  revert n. induction q as [|k q IH]; intros n; simpl; [lia|].
  destruct n as [dt i [c|] h]; simpl; [|contradiction].
  destruct (c !! k) as [ch|] eqn:Hk; [|contradiction].
  intros Hv. apply IH in Hv.
  pose proof (height_child dt i c h k ch Hk) as Hh. simpl in Hh. lia.
Qed.

(** [descendants] lists exactly the positions reached through [children]. *)
Lemma elem_of_descendants (n : Node) (q : Loc) : q ∈ descendants n <-> visibleAt n q.
Proof.
  unfold descendants. rewrite list_elem_of_join. split.
  - intros (l & Hq & Hl). apply list_elem_of_fmap in Hl as (k & -> & _).
    now apply elem_of_level in Hq as [_ Hv].
  - intros Hv. exists (level (length q) n). split.
    + now apply elem_of_level.
    + apply (list_elem_of_fmap_2' _ _ (length q)); [|reflexivity].
      apply elem_of_seq. apply visibleAt_height in Hv. lia.
Qed.

(** A visible position strictly below [d] passes through the [children] of
    the node at [d]. *)
Lemma visibleAt_below (r : Node) (d : Loc) (k : nat) (q : Loc) :
  visibleAt r (d ++ k :: q) ->
  exists n c, nodeAt r d = Some n /\ children n = Some c.
Proof.
  revert r. induction d as [|j d IH]; intros r; simpl.
  - destruct (children r) as [c|] eqn:Hc; [eauto|contradiction].
  - destruct (children r) as [c|] eqn:Hc; [|contradiction].
    rewrite (kids_Some_children _ _ Hc).
    destruct (c !! j) as [ch|]; [apply IH|contradiction].
Qed.

(** An update in place that keeps the [children] reference of the node it
    touches does not change which positions are visible. *)
Lemma visibleAt_alterAt (f : Node -> Node) (d : Loc) (r : Node) (q : Loc) :
  (forall n, children (f n) = children n) ->
  visibleAt (alterAt f d r) q <-> visibleAt r q.
Proof.
  intros Hf. revert r q. induction d as [|k d IH]; intros r q.
  - simpl. destruct q as [|j q]; simpl; [reflexivity|]. now rewrite Hf.
  - destruct q as [|j q]; [reflexivity|].
    destruct r as [dt i [c|] [h|]]; simpl; try reflexivity.
    all: rewrite list_lookup_alter; destruct (decide (k = j)) as [->|Hne];
      try reflexivity.
    all: destruct (c !! j) as [ch|]; simpl; [apply IH|reflexivity].
Qed.

(** ** Shapes are kept *)

Lemma kids_outline (keep : bool) (n : Node) :
  kids (outline keep n) = (fun l : list Node => outline keep <$> l) <$> kids n.
Proof. now destruct n as [dt i [c|] [h|]]. Qed.

Lemma data_outline (keep : bool) (n : Node) : data (outline keep n) = data n.
Proof. now destruct n as [dt i [c|] [h|]]. Qed.

Lemma id_outline (n : Node) : id (outline true n) = id n.
Proof. now destruct n as [dt i [c|] [h|]]. Qed.

Lemma nodeAt_outline (keep : bool) (n : Node) (q : Loc) :
  nodeAt (outline keep n) q = outline keep <$> nodeAt n q.
Proof.
  revert n. induction q as [|k q IH]; intros n; [reflexivity|].
  cbn [nodeAt]. rewrite kids_outline. destruct (kids n) as [c|]; [|reflexivity].
  simpl. rewrite list_lookup_fmap. destruct (c !! k) as [ch|]; [apply IH|reflexivity].
Qed.

Lemma idAt_outline (n : Node) (q : Loc) : idAt (outline true n) q = idAt n q.
Proof.
  unfold idAt. rewrite nodeAt_outline. destruct (nodeAt n q) as [m|]; [|reflexivity].
  apply id_outline.
Qed.

Lemma Forall_mp {A : Type} (P Q : A -> Prop) (l : list A) :
  Forall P l -> Forall (fun x => P x -> Q x) l -> Forall Q l.
Proof. induction 1; inversion_clear 1; constructor; auto. Qed.

Lemma fmap_ext_Forall {A B : Type} (f g : A -> B) (l : list A) :
  Forall (fun x => f x = g x) l -> f <$> l = g <$> l.
Proof.
  induction 1 as [|x l Hx _ IH]; [reflexivity|]. rewrite !fmap_cons. congruence.
Qed.

Lemma positions_outline (keep : bool) (n : Node) :
  positions (outline keep n) = positions n.
Proof.
  induction n as [dt i c h IHc IHh] using Node_ind.
  destruct c as [c|]; [|destruct h as [h|]]; simpl; try reflexivity.
  all: rewrite <- list_fmap_compose; do 2 f_equal; apply fmap_ext_Forall; auto.
Qed.

Lemma distinctIds_outline (r r' : Node) :
  outline true r' = outline true r -> distinctIds r -> distinctIds r'.
Proof.
  unfold distinctIds. intros He.
  rewrite <- (positions_outline true r), <- (positions_outline true r'), He.
  intros H. erewrite list_fmap_ext; [exact H|].
  intros j q _. now rewrite <- (idAt_outline r'), He, idAt_outline.
Qed.

Lemma outline_toggle (keep : bool) (n : Node) :
  outline keep (toggle n) = outline keep n.
Proof. now destruct n as [dt i [c|] [h|]]. Qed.

Lemma outline_setId (i : nat) (n : Node) :
  outline false (setId i n) = outline false n.
Proof. now destruct n as [dt j [c|] [h|]]. Qed.

Lemma outline_collapse (keep : bool) (n : Node) :
  outline keep (collapse n) = outline keep n.
Proof.
  induction n as [dt i c h IHc IHh] using Node_ind.
  destruct c as [c|]; [|reflexivity]. simpl.
  rewrite <- list_fmap_compose. do 2 f_equal. apply fmap_ext_Forall. auto.
Qed.

Lemma outline_alter (keep : bool) (f : Node -> Node) (k : nat) (l : list Node) :
  (forall x, l !! k = Some x -> outline keep (f x) = outline keep x) ->
  outline keep <$> alter f k l = outline keep <$> l.
Proof.
  revert k. induction l as [|y l IH]; intros [|k] Hf; simpl; try reflexivity.
  - f_equal. now apply Hf.
  - f_equal. apply IH. intros x Hx. now apply Hf.
Qed.

Lemma outline_alterAt (keep : bool) (f : Node -> Node) (d : Loc) (r : Node) :
  (forall n, outline keep (f n) = outline keep n) ->
  outline keep (alterAt f d r) = outline keep r.
Proof.
  intros Hf. revert r. induction d as [|k d IH]; intros r; [apply Hf|].
  destruct r as [dt i [c|] [h|]]; simpl; try reflexivity.
  all: rewrite outline_alter; [reflexivity|intros; apply IH].
Qed.

Lemma outline_reveal (keep : bool) (n : Node) :
  exclusive n -> outline keep (reveal n) = outline keep n.
Proof. intros Hx. now inversion Hx. Qed.

Lemma outline_expandPath (keep : bool) (pathArray : list string) (n : Node) :
  exclusive n -> outline keep (expandPath n pathArray) = outline keep n.
Proof.
  revert n. induction pathArray as [|targetName rest IH]; intros n Hx; [reflexivity|].
  rewrite <- (outline_reveal keep n Hx). apply exclusive_reveal in Hx.
  simpl. destruct (reveal n) as [dt i [c|] h]; [|reflexivity].
  destruct (list_find (named targetName) c) as [[k x]|] eqn:Hf; [|reflexivity].
  inversion Hx as [| ? ? ? Hc |]; subst. simpl. do 2 f_equal.
  apply outline_alter. intros y Hy. apply IH.
  rewrite Forall_lookup in Hc. eauto.
Qed.

Lemma outline_expandAll (keep : bool) (n : Node) :
  exclusive n -> outline keep (expandAll n) = outline keep n.
Proof.
  induction n as [dt i c h IHc IHh] using Node_ind.
  intros Hx. inversion Hx as [| ? ? ? Hc | ? ? ? Hh]; subst; simpl; try reflexivity.
  all: rewrite <- list_fmap_compose; do 2 f_equal; apply fmap_ext_Forall.
  - exact (Forall_mp _ _ _ Hc (IHc _ eq_refl)).
  - exact (Forall_mp _ _ _ Hh (IHh _ eq_refl)).
Qed.

(** ** A freshly built hierarchy *)

Lemma traverse_Forall {A B : Type} (f : A -> option B) (Q : B -> Prop)
    (l : list A) (ys : list B) :
  Forall (fun x => forall y, f x = Some y -> Q y) l ->
  traverse f l = Some ys -> Forall Q ys.
Proof.
  intros Hl. revert ys. induction Hl as [|x l Hx _ IH]; intros ys; simpl.
  - intros [= <-]. constructor.
  - destruct (f x) as [y|]; [|discriminate].
    destruct (traverse f l) as [ys'|]; [|discriminate].
    intros [= <-]. constructor; auto.
Qed.

Lemma hierarchy_fresh (d : Datum) (r : Node) : hierarchy d = Some r -> fresh r.
Proof.
  revert r. induction d as [|nm sl ch IH] using Datum_ind; intros r; [discriminate|].
  cbn [hierarchy]. destruct ch as [[|c cs]|]; try (intros [= <-]; constructor).
  destruct (traverse hierarchy (c :: cs)) as [ns|] eqn:Hns; [|discriminate].
  intros [= <-]. constructor. eapply traverse_Forall; [|exact Hns]. now apply IH.
Qed.

Lemma fresh_exclusive (n : Node) : fresh n -> exclusive n.
Proof.
  induction n as [dt i c h IHc IHh] using Node_ind.
  intros Hf. inversion Hf as [|? ? ? Hc]; subst; constructor.
  exact (Forall_mp _ _ _ Hc (IHc _ eq_refl)).
Qed.

Lemma fresh_visibleAt (n : Node) (q : Loc) :
  fresh n -> visibleAt n q <-> is_Some (nodeAt n q).
Proof.
  revert n. induction q as [|k q IH]; intros n Hf; simpl; [split; eauto|].
  inversion Hf as [|? ? ? Hc]; subst; cbn [kids children _children].
  - split; [contradiction|now intros [? ?]].
  - destruct (c !! k) as [ch|] eqn:Hk; [|split; [contradiction|now intros [? ?]]].
    apply IH. rewrite Forall_lookup in Hc. eauto.
Qed.

Lemma fresh_alterAt (f : Node -> Node) (d : Loc) (r : Node) :
  (forall n, fresh n -> fresh (f n)) -> fresh r -> fresh (alterAt f d r).
Proof.
  intros Hf. revert r. induction d as [|k d IH]; intros r Hr; [now apply Hf|].
  inversion Hr as [|? ? ? Hc]; subst; simpl; constructor.
  revert k. induction Hc as [|x l Hx Hl IHl]; intros [|k]; simpl;
    constructor; auto. apply IHl. now constructor.
Qed.

Lemma fresh_setId (i : nat) (n : Node) : fresh n -> fresh (setId i n).
Proof. intros Hf. inversion Hf; subst; now constructor. Qed.

(** ** Clicks *)

Lemma toggle_without_kids (n : Node) : kids n = None -> toggle n = n.
Proof. destruct n as [dt i [c|] [h|]]; cbv; congruence. Qed.

(** C4, as the code has it.  A click on the root while the root shows no
    children toggles the root and selects nothing, whether or not it is the
    first such click.  Any other click selects the node if it has content and
    leaves the selection alone if it has none; in both cases the node is
    toggled (which changes nothing when it has no children at all). *)
Theorem click_selects_unless_root_is_collapsed (st : State) (d : Loc) (n : Node) :
  nodeAt (root st) d = Some n ->
  nodeAt (root (handleNodeClick st d)) d = Some (toggle n) /\
  (isRoot d = true /\ isCollapsed (root st) = true ->
     selectedNode (handleNodeClick st d) = selectedNode st /\
     calls (handleNodeClick st d) = calls st) /\
  (isRoot d = false \/ isCollapsed (root st) = false ->
     (hasContent n = true -> selectedNode (handleNodeClick st d) = Some d) /\
     (hasContent n = false ->
        selectedNode (handleNodeClick st d) = selectedNode st /\
        calls (handleNodeClick st d) = calls st)).
Proof.
  intros Hn. unfold handleNodeClick. rewrite Hn.
  destruct (isRoot d && isCollapsed (root st)) eqn:Hgate.
  - split; [|split].
    + simpl. now apply nodeAt_alterAt.
    + intros _. simpl. split; reflexivity.
    + apply andb_true_iff in Hgate. intros [H|H]; destruct Hgate; congruence.
  - assert (Hsel : forall st1, root st1 = root st ->
              nodeAt (root match kids n with
                           | Some _ => update (with_root st1 (alterAt toggle d (root st1)))
                           | None => st1
                           end) d = Some (toggle n)).
    { intros st1 Hr. destruct (kids n) eqn:Hk; simpl.
      - rewrite Hr. now apply nodeAt_alterAt.
      - rewrite Hr, toggle_without_kids; assumption. }
    split; [|split].
    + destruct (hasContent n); apply Hsel; [apply root_selectNode|reflexivity].
    + intros [Hr Hc]. rewrite Hr, Hc in Hgate. discriminate.
    + intros _. split.
      * intros ->. destruct (kids n); simpl; apply selectedNode_selectNode.
      * intros Hc. rewrite Hc. destruct (kids n); simpl; split; reflexivity.
Qed.

(** ** Toggling twice *)

Lemma kids_toggle (n : Node) : kids (toggle n) = kids n.
Proof. now destruct n as [dt i [c|] [h|]]. Qed.

Lemma children_toggle_toggle (n : Node) : children (toggle (toggle n)) = children n.
Proof. now destruct n as [dt i [c|] [h|]]. Qed.

Lemma alterAt_alterAt (f g : Node -> Node) (d : Loc) (r : Node) :
  alterAt f d (alterAt g d r) = alterAt (fun n => f (g n)) d r.
Proof.
  revert r. induction d as [|k d IH]; intros r; [reflexivity|].
  destruct r as [dt i [c|] [h|]]; simpl; try reflexivity.
  all: rewrite list_alter_alter_eq; do 2 f_equal.
  all: apply list_alter_ext; [intros x _; apply IH|reflexivity..].
Qed.

Lemma root_handleNodeClick (st : State) (d : Loc) (n : Node) (c : list Node) :
  nodeAt (root st) d = Some n -> kids n = Some c ->
  root (handleNodeClick st d) = alterAt toggle d (root st) /\
  (domNodes (handleNodeClick st d)).*1 = descendants (root (handleNodeClick st d)).
Proof.
  intros Hn Hk. unfold handleNodeClick. rewrite Hn, Hk.
  assert (Hdom : forall s, (domNodes (update s)).*1 = descendants (root (update s))).
  { intros s. unfold update. cbn [domNodes with_dom root].
    induction (descendants (root s)) as [|q l IH]; [reflexivity|].
    rewrite !fmap_cons. now f_equal. }
  destruct (isRoot d && isCollapsed (root st)).
  - split; [reflexivity|apply Hdom].
  - split; [|apply Hdom]. simpl.
    destruct (hasContent n); [now rewrite root_selectNode|reflexivity].
Qed.

(** C2.  Let [d] have visible children.  One click on [d] leaves no
    position below [d] in the visible set, and leaves every node below [d]
    as it was, its own [children] and [_children] included.  A second click
    on [d] gives back a visible set with exactly the positions it had before
    the first.  After either click the [.node] elements are those of the
    visible set. *)
Theorem toggling_twice_restores_visible_set
    (st : State) (d : Loc) (n : Node) (c : list Node) :
  nodeAt (root st) d = Some n ->
  children n = Some c ->
  (forall k q, d ++ k :: q ∉ descendants (root (handleNodeClick st d))) /\
  (forall k q, nodeAt (root (handleNodeClick st d)) (d ++ k :: q)
               = nodeAt (root st) (d ++ k :: q)) /\
  (forall q, q ∈ descendants (root (handleNodeClick (handleNodeClick st d) d))
             <-> q ∈ descendants (root st)) /\
  (domNodes (handleNodeClick st d)).*1 = descendants (root (handleNodeClick st d)) /\
  (domNodes (handleNodeClick (handleNodeClick st d) d)).*1
    = descendants (root (handleNodeClick (handleNodeClick st d) d)).
Proof.
  intros Hn Hc. pose proof (kids_Some_children _ _ Hc) as Hk.
  destruct (root_handleNodeClick st d n c Hn Hk) as [Hr1 Hd1].
  assert (Hn1 : nodeAt (root (handleNodeClick st d)) d = Some (toggle n)).
  { rewrite Hr1. now apply nodeAt_alterAt. }
  assert (Hk1 : kids (toggle n) = Some c) by now rewrite kids_toggle.
  destruct (root_handleNodeClick _ d _ c Hn1 Hk1) as [Hr2 Hd2].
  repeat split; try assumption.
  - intros k q Hin. apply elem_of_descendants, visibleAt_below in Hin
      as (n' & c' & Hn' & Hc').
    rewrite Hn1 in Hn'. injection Hn' as <-.
    destruct n as [dt i [c0|] h]; simpl in Hc, Hc'; congruence.
  - intros k q. rewrite !nodeAt_app, Hn1, Hn. simpl. now rewrite kids_toggle.
  - rewrite Hr2, Hr1, alterAt_alterAt, !elem_of_descendants.
    apply visibleAt_alterAt, children_toggle_toggle.
  - rewrite Hr2, Hr1, alterAt_alterAt, !elem_of_descendants.
    apply visibleAt_alterAt, children_toggle_toggle.
Qed.

(** ** The active path *)

Lemma elem_of_positions (n : Node) (q : Loc) :
  q ∈ positions n <-> is_Some (nodeAt n q).
Proof.
  revert n. induction q as [|k q IH]; intros n.
  - destruct n as [dt i c h]. simpl. split; [eauto|intros _; left].
  - assert (Hu : forall c, k :: q ∈ under (positions <$> c) <->
                   is_Some (match c !! k with Some ch => nodeAt ch q | None => None end)).
    { intros c. rewrite elem_of_under. split.
      - intros (j & q' & ps & [= <- <-] & Hj & Hq). rewrite list_lookup_fmap in Hj.
        destruct (c !! k) as [ch|]; [|discriminate]. injection Hj as <-.
        now apply IH.
      - destruct (c !! k) as [ch|] eqn:Hk; [|now intros [? ?]].
        intros Hq. exists k, q, (positions ch).
        rewrite list_lookup_fmap, Hk. repeat split. now apply IH. }
    destruct n as [dt i [c|] [h|]]; cbn [positions nodeAt kids children _children].
    1-3: rewrite elem_of_cons, Hu; split; [intros [?|?]|]; eauto; discriminate.
    split; [intros H%list_elem_of_singleton|intros [? ?]]; discriminate.
Qed.

Lemma elem_of_inits (d a : Loc) : a ∈ inits d <-> a `prefix_of` d.
Proof.
  revert a. induction d as [|k d IH]; intros a; simpl.
  - rewrite list_elem_of_singleton. split; [intros ->; apply prefix_nil|apply prefix_nil_inv].
  - rewrite elem_of_cons, list_elem_of_fmap. split.
    + intros [->|(a' & -> & Ha)]; [apply prefix_nil|]. now apply prefix_cons, IH.
    + destruct a as [|j a]; [now left|]. intros Hp. right.
      pose proof (prefix_cons_inv_1 _ _ _ _ Hp) as ->.
      apply prefix_cons_inv_2, IH in Hp. eauto.
Qed.

Lemma elem_of_ancestors (d a : Loc) : a ∈ ancestors d <-> a `prefix_of` d.
Proof. unfold ancestors. now rewrite elem_of_reverse, elem_of_inits. Qed.

Lemma nodeAt_prefix (r : Node) (a d : Loc) :
  a `prefix_of` d -> is_Some (nodeAt r d) -> is_Some (nodeAt r a).
Proof.
  intros [q ->]. rewrite nodeAt_app. destruct (nodeAt r a); [eauto|].
  now intros [? ?].
Qed.

Lemma distinctIds_inj (r : Node) (p q : Loc) :
  distinctIds r -> is_Some (nodeAt r p) -> is_Some (nodeAt r q) ->
  idAt r p = idAt r q -> p = q.
Proof.
  unfold distinctIds. intros Hnd Hp%elem_of_positions Hq%elem_of_positions.
  induction (positions r) as [|x l IH]; [inversion Hp|].
  rewrite fmap_cons in Hnd. apply NoDup_cons in Hnd as [Hx Hl].
  apply elem_of_cons in Hp as [->|Hp], Hq as [->|Hq]; auto.
  - intros He. destruct Hx. rewrite He. now apply list_elem_of_fmap_2.
  - intros He. destruct Hx. rewrite <- He. now apply list_elem_of_fmap_2.
Qed.

Lemma isOnActivePath_prefix (r : Node) (d q : Loc) :
  distinctIds r -> is_Some (nodeAt r d) -> is_Some (nodeAt r q) ->
  isOnActivePath r (Some d) q = true <-> q `prefix_of` d.
Proof.
  intros Hnd Hd Hq. unfold isOnActivePath. rewrite existsb_exists. split.
  - intros (a & Ha & He). apply list_elem_of_In, elem_of_ancestors in Ha.
    apply bool_decide_eq_true in He.
    apply distinctIds_inj in He as ->; eauto using nodeAt_prefix.
  - intros Hp. exists q. split.
    + now apply list_elem_of_In, elem_of_ancestors.
    + now apply bool_decide_eq_true.
Qed.

Lemma parent_prefix (q d : Loc) :
  q `prefix_of` d -> q <> [] -> exists p, parent q = Some p /\ p `prefix_of` d.
Proof.
  intros Hp Hne. destruct q as [|k q]; [contradiction|].
  exists (removelast (k :: q)). split; [reflexivity|].
  etrans; [|exact Hp]. exists [List.last (k :: q) 0].
  now apply app_removelast_last.
Qed.

Lemma linkActive_prefix (r : Node) (d q : Loc) :
  distinctIds r -> is_Some (nodeAt r d) -> is_Some (nodeAt r q) ->
  linkActive r (Some d) q = true <-> q `prefix_of` d /\ q <> [].
Proof.
  intros Hnd Hd Hq. unfold linkActive.
  rewrite andb_true_iff, bool_decide_eq_true, list_elem_of_fmap. split.
  - intros [(a & He & Ha) Hpar]. apply elem_of_ancestors in Ha.
    apply distinctIds_inj in He as ->; eauto using nodeAt_prefix.
    split; [assumption|]. intros ->. discriminate.
  - intros [Hp Hne]. split; [exists q; split; [reflexivity|now apply elem_of_ancestors]|].
    destruct (parent_prefix q d Hp Hne) as (p & -> & Hpd).
    apply bool_decide_eq_true, list_elem_of_fmap.
    exists p. split; [reflexivity|now apply elem_of_ancestors].
Qed.

Lemma active_class (r : Node) (sel : option Loc) (q : Loc) :
  "node--active" ∈ getNodeClass r sel q <->
  is_Some (nodeAt r q) /\ isOnActivePath r sel q = true.
Proof.
  unfold getNodeClass. destruct (nodeAt r q) as [n|].
  - rewrite !elem_of_app. destruct (isOnActivePath r sel q).
    + split; [eauto|]. intros _. do 3 right. left.
    + split; [|intros [_ ?]; discriminate].
      intros [H|[H|[H|H]]]; exfalso.
      all: repeat match type of H with
                  | context [if ?b then _ else _] => destruct b
                  end; simpl in H.
      all: repeat (apply elem_of_cons in H as [H|H]; [discriminate H|]).
      all: inversion H.
  - split; [intros H; inversion H|intros [[? ?] _]; discriminate].
Qed.

Lemma dom_selectNode (st : State) (d : Loc) :
  domNodes (selectNode st d)
    = (fun e => (e.1, getNodeClass (root st) (Some d) e.1)) <$> domNodes st /\
  domLinks (selectNode st d)
    = (fun e => (e.1, linkActive (root st) (Some d) e.1)) <$> domLinks st.
Proof.
  unfold selectNode. simpl.
  destruct (nodeAt _ d) as [n|]; [|now split].
  destruct (onNodeSelect _), (truthySlug n); now split.
Qed.

(** C5.  Let the nodes carry pairwise different ids, as they do once
    [loadData] has numbered them.  After [selectNode(d)], a node of the tree
    is classified by [isOnActivePath] exactly when its position is a prefix
    of that of [d], that is when it is [d] or one of its ancestors; the
    [.node] elements carrying [node--active] are exactly those, and the
    [.link] elements carrying [link--active] are exactly those of [d] and its
    ancestors below the root.  After [clearSelection()] no node is on the
    active path and no [.node] or [.link] element carries the active class. *)
Theorem active_path_is_selected_node_and_ancestors (st : State) (d : Loc) (n : Node) :
  distinctIds (root st) ->
  nodeAt (root st) d = Some n ->
  (forall q, is_Some (nodeAt (root st) q) ->
     (isOnActivePath (root (selectNode st d)) (selectedNode (selectNode st d)) q = true
      <-> q `prefix_of` d)) /\
  (forall q cls, (q, cls) ∈ domNodes (selectNode st d) ->
     is_Some (nodeAt (root st) q) ->
     ("node--active" ∈ cls <-> q `prefix_of` d)) /\
  (forall q b, (q, b) ∈ domLinks (selectNode st d) ->
     is_Some (nodeAt (root st) q) ->
     (b = true <-> q `prefix_of` d /\ q <> [])) /\
  (forall q,
     isOnActivePath (root (clearSelection st)) (selectedNode (clearSelection st)) q
     = false) /\
  (forall q cls, (q, cls) ∈ domNodes (clearSelection st) -> "node--active" ∉ cls) /\
  (forall q b, (q, b) ∈ domLinks (clearSelection st) -> b = false).
Proof.
  intros Hnd Hd. assert (Hd' : is_Some (nodeAt (root st) d)) by eauto.
  destruct (dom_selectNode st d) as [Hdn Hdl].
  split; [|split; [|split; [|split; [|split]]]].
  - intros q Hq. rewrite root_selectNode, selectedNode_selectNode.
    now apply isOnActivePath_prefix.
  - intros q cls H Hq. rewrite Hdn in H.
    apply list_elem_of_fmap in H as (e & [= -> ->] & _).
    rewrite active_class, <- (isOnActivePath_prefix (root st) d e.1) by assumption.
    tauto.
  - intros q b H Hq. rewrite Hdl in H.
    apply list_elem_of_fmap in H as (e & [= -> ->] & _).
    now apply linkActive_prefix.
  - reflexivity.
  - intros q cls H. simpl in H. apply list_elem_of_fmap in H as (e & [= -> ->] & _).
    intros [_ Ha]%active_class. discriminate.
  - intros q b H. simpl in H. apply list_elem_of_fmap in H as (e & [= -> ->] & _).
    reflexivity.
Qed.

(** ** Numbering *)

Lemma NoDup_under_from (g : nat -> nat) (pss : list (list Loc)) :
  (forall a b, g a = g b -> a = b) ->
  Forall NoDup pss ->
  NoDup (mjoin (imap (fun j ps => cons (g j) <$> ps) pss)).
Proof.
  intros Hg Hall. revert g Hg.
  induction Hall as [|ps pss Hps _ IH]; intros g Hg; [constructor|].
  rewrite imap_cons. cbn [mjoin list_join]. apply NoDup_app. split; [|split].
  - apply NoDup_fmap_2_strong; [|assumption]. now intros x y _ _ [= ->].
  - intros x (q & -> & _)%list_elem_of_fmap (l & Hx & Hl)%list_elem_of_join.
    apply elem_of_lookup_imap_1 in Hl as (j & ps' & -> & _).
    apply list_elem_of_fmap in Hx as (q' & [= He _] & _).
    apply Hg in He. discriminate.
  - apply (IH (fun j => g (S j))). intros a b [= ->]%Hg. reflexivity.
Qed.

Lemma NoDup_under (pss : list (list Loc)) : Forall NoDup pss -> NoDup (under pss).
Proof. intros H. now apply (NoDup_under_from (fun j => j)). Qed.

Lemma NoDup_level (k : nat) (n : Node) : NoDup (level k n).
Proof.
  revert n. induction k as [|k IH]; intros n; simpl; [apply NoDup_singleton|].
  destruct (children n) as [c|]; [|constructor].
  apply NoDup_under, Forall_fmap, Forall_forall. intros x _. apply IH.
Qed.

Lemma NoDup_join_fmap {A : Type} (f : nat -> list A) (ks : list nat) :
  NoDup ks -> (forall k, NoDup (f k)) ->
  (forall k k' x, x ∈ f k -> x ∈ f k' -> k = k') ->
  NoDup (mjoin (f <$> ks)).
Proof.
  intros Hks Hf Hdis. induction Hks as [|k ks Hk _ IH]; [constructor|].
  rewrite fmap_cons. cbn [mjoin list_join]. apply NoDup_app. split; [|split]; auto.
  intros x Hx (l & Hxl & Hl)%list_elem_of_join.
  apply list_elem_of_fmap in Hl as (k' & -> & Hk').
  now rewrite (Hdis _ _ _ Hx Hxl) in Hk.
Qed.

Lemma NoDup_descendants (n : Node) : NoDup (descendants n).
Proof.
  apply NoDup_join_fmap; [apply NoDup_seq|intros; apply NoDup_level|].
  intros k k' x [<- _]%elem_of_level [<- _]%elem_of_level. reflexivity.
Qed.

Lemma NoDup_positions (n : Node) : NoDup (positions n).
Proof.
  induction n as [dt i c h IHc IHh] using Node_ind.
  assert (Hu : forall l, Forall (fun x => NoDup (positions x)) l ->
                 NoDup ([] :: under (positions <$> l))).
  { intros l Hl. apply NoDup_cons. split.
    - intros (k & q & ps & [=] & _)%elem_of_under.
    - now apply NoDup_under, Forall_fmap. }
  destruct c as [c|]; [|destruct h as [h|]]; simpl; auto.
  apply NoDup_singleton.
Qed.

Lemma is_Some_nodeAt_outline (keep : bool) (r r' : Node) (q : Loc) :
  outline keep r' = outline keep r ->
  is_Some (nodeAt r' q) <-> is_Some (nodeAt r q).
Proof.
  intros He. rewrite <- (fmap_is_Some (outline keep) (nodeAt r' q)).
  rewrite <- (fmap_is_Some (outline keep) (nodeAt r q)).
  now rewrite <- !nodeAt_outline, He.
Qed.

Lemma kids_setId (i : nat) (n : Node) : kids (setId i n) = kids n.
Proof. now destruct n as [dt j [c|] [h|]]. Qed.

Lemma idAt_alterAt_ne (f : Node -> Node) (d : Loc) (r : Node) (q : Loc) :
  (forall n, kids (f n) = kids n) -> q <> d ->
  idAt (alterAt f d r) q = idAt r q.
Proof.
  intros Hf. unfold idAt. revert r q. induction d as [|j d IH]; intros r q Hne.
  - destruct q as [|k q]; [contradiction|]. cbn [alterAt nodeAt]. now rewrite Hf.
  - destruct q as [|k q]; [now destruct r as [dt i [c|] [h|]]|].
    destruct r as [dt i [c|] [h|]]; cbn [alterAt nodeAt kids children _children];
      try reflexivity.
    all: rewrite list_lookup_alter; destruct (decide (j = k)) as [->|]; [|reflexivity].
    all: match goal with |- context [?l !! ?a] => destruct (l !! a) as [x|] end;
      [|reflexivity].
    all: apply IH; congruence.
Qed.

Lemma idAt_alterAt_setId (i : nat) (d : Loc) (r : Node) :
  is_Some (nodeAt r d) -> idAt (alterAt (setId i) d r) d = Some i.
Proof.
  intros [n Hn]. unfold idAt. rewrite (nodeAt_alterAt _ _ _ _ Hn).
  now destruct n.
Qed.

Lemma numbering (L : list Loc) (r : Node) (i : nat) :
  NoDup L -> (forall q, q ∈ L -> is_Some (nodeAt r q)) ->
  let r' := (foldl (fun acc d => (alterAt (setId acc.2) d acc.1, S acc.2)) (r, i) L).1 in
  outline false r' = outline false r /\
  (forall j q, L !! j = Some q -> idAt r' q = Some (i + j)) /\
  (forall q, q ∉ L -> idAt r' q = idAt r q) /\
  (fresh r -> fresh r').
Proof.
  revert r i. induction L as [|d L IH]; intros r i Hnd Hval; cbn zeta.
  - repeat split; auto. intros j q H. inversion H.
  - apply NoDup_cons in Hnd as [Hd HL]. cbn [foldl fst snd].
    assert (Ho : outline false (alterAt (setId i) d r) = outline false r)
      by apply outline_alterAt, outline_setId.
    destruct (IH (alterAt (setId i) d r) (S i) HL) as (Ho' & Hnum & Hrest & Hfr).
    { intros q Hq. apply (is_Some_nodeAt_outline false _ _ _ Ho), Hval. now right. }
    split; [congruence|]. split; [|split].
    + intros [|j] q; simpl.
      * intros [= <-]. rewrite (Hrest _ Hd), Nat.add_0_r.
        apply idAt_alterAt_setId, Hval. left.
      * intros Hq. rewrite (Hnum _ _ Hq). f_equal. lia.
    + intros q Hq. apply not_elem_of_cons in Hq as [Hne Hq].
      rewrite (Hrest _ Hq). apply idAt_alterAt_ne; [apply kids_setId|assumption].
    + intros Hf. apply Hfr, fresh_alterAt; [apply fresh_setId|assumption].
Qed.

Lemma assignIds_spec (r : Node) :
  fresh r ->
  outline false (assignIds r) = outline false r /\
  fresh (assignIds r) /\
  distinctIds (assignIds r).
Proof.
  intros Hf. unfold assignIds.
  destruct (numbering (descendants r) r 0 (NoDup_descendants r)) as (Ho & Hnum & _ & Hfr).
  { intros q Hq. now apply fresh_visibleAt, elem_of_descendants. }
  split; [assumption|]. split; [auto|].
  unfold distinctIds. rewrite <- (positions_outline false), Ho, positions_outline.
  apply NoDup_fmap_2_strong; [|apply NoDup_positions].
  intros x y Hx Hy.
  assert (Hin : forall q, q ∈ positions r -> exists j, descendants r !! j = Some q).
  { intros q Hq. apply list_elem_of_lookup, elem_of_descendants, fresh_visibleAt; auto.
    now apply elem_of_positions. }
  destruct (Hin x Hx) as [jx Hjx], (Hin y Hy) as [jy Hjy].
  rewrite (Hnum _ _ Hjx), (Hnum _ _ Hjy). intros [= ->]. congruence.
Qed.

(** ** Landing on a path *)

Lemma closed_visibleAt (n : Node) (q : Loc) : closed n -> visibleAt n q <-> q = [].
Proof.
  intros Hc. destruct q as [|k q]; [now split|].
  inversion Hc; subst; simpl; split; (contradiction || discriminate).
Qed.

Lemma closed_collapse (n : Node) : fresh n -> closed (collapse n).
Proof.
  induction n as [dt i c h IHc IHh] using Node_ind.
  intros Hf. inversion Hf as [|? ? ? Hc]; subst; simpl; constructor.
  apply Forall_fmap. exact (Forall_mp _ _ _ Hc (IHc _ eq_refl)).
Qed.

Lemma named_outline (keep : bool) (nm : string) (x : Node) :
  named nm (outline keep x) <-> named nm x.
Proof. unfold named. now rewrite data_outline. Qed.

Lemma list_find_outline (keep : bool) (nm : string) (c : list Node) :
  list_find (named nm) (outline keep <$> c)
  = prod_map (fun k => k) (outline keep) <$> list_find (named nm) c.
Proof.
  rewrite list_find_fmap. f_equal. apply list_find_ext.
  intros x. apply named_outline.
Qed.

Lemma matchedPrefix_outline (keep : bool) (names : list string) (n : Node) :
  matchedPrefix (outline keep n) names = matchedPrefix n names.
Proof.
  revert n. induction names as [|nm rest IH]; intros n; [reflexivity|].
  simpl. rewrite kids_outline. destruct (kids n) as [c|]; [|reflexivity].
  simpl. rewrite list_find_outline.
  destruct (list_find (named nm) c) as [[k x]|]; [|reflexivity].
  simpl. f_equal. apply IH.
Qed.

Lemma matchedPrefix_length (names : list string) (n : Node) :
  length (matchedPrefix n names) <= length names.
Proof.
  revert n. induction names as [|nm rest IH]; intros n; simpl; [lia|].
  destruct (kids n) as [c|]; simpl; [|lia].
  destruct (list_find (named nm) c) as [[k x]|]; simpl; [|lia].
  specialize (IH x). lia.
Qed.

Lemma matchedPrefix_valid (names : list string) (n : Node) :
  is_Some (nodeAt n (matchedPrefix n names)).
Proof.
  revert n. induction names as [|nm rest IH]; intros n; simpl; [eauto|].
  destruct (kids n) as [c|] eqn:Hk; simpl; [|eauto].
  destruct (list_find (named nm) c) as [[k x]|] eqn:Hf; simpl; [|eauto].
  apply list_find_Some in Hf as (Hx & _). rewrite Hk, Hx. apply IH.
Qed.

(** [findNodeByPath] succeeds exactly when every name is matched, and then
    returns the matched position. *)
Lemma findNodeByPath_matched (names : list string) (n : Node) :
  findNodeByPath n names =
  if decide (length (matchedPrefix n names) = length names)
  then Some (matchedPrefix n names) else None.
Proof.
  revert n. induction names as [|nm rest IH]; intros n; simpl; [reflexivity|].
  destruct (kids n) as [c|]; [|reflexivity].
  destruct (list_find (named nm) c) as [[k x]|]; [|reflexivity].
  rewrite IH. simpl. repeat case_decide; (reflexivity || lia).
Qed.

Lemma parent_cons (k : nat) (q : Loc) :
  parent (k :: q) = Some match q with [] => [] | _ => k :: removelast q end.
Proof. now destruct q. Qed.

(** After [expandPath] on a tree with nothing expanded, the visible nodes
    are the root and the children of the nodes on the matched path that were
    reached while names were left. *)
Lemma visibleAt_expandPath (names : list string) (n : Node) (q : Loc) :
  closed n ->
  visibleAt (expandPath n names) q <->
  is_Some (nodeAt n q) /\
  forall a, parent q = Some a ->
    a `prefix_of` matchedPrefix n names /\ length a < length names.
Proof.
  revert n q. induction names as [|nm rest IH]; intros n q Hc.
  - simpl. rewrite closed_visibleAt by assumption. split.
    + intros ->. split; [simpl; eauto|discriminate].
    + intros [_ H]. destruct q as [|k q]; [reflexivity|].
      destruct (H _ eq_refl) as [_ Hl]. simpl in Hl. lia.
  - destruct q as [|k q].
    { simpl. split; [intros _; split; [eauto|discriminate]|reflexivity]. }
    rewrite parent_cons.
    inversion Hc as [|dt i h Hh]; subst; cbn [expandPath reveal].
    { simpl. split; [contradiction|now intros [[? ?] _]]. }
    cbn [matchedPrefix nodeAt kids children _children].
    destruct (list_find (named nm) h) as [[j x]|] eqn:Hf.
    + apply list_find_Some in Hf as (Hj & _). cbn [visibleAt children].
      rewrite list_lookup_alter. destruct (decide (j = k)) as [->|Hne].
      * rewrite Hj. simpl. rewrite IH by (rewrite Forall_lookup in Hh; eauto).
        destruct q as [|k' q].
        -- split; intros [Hs _]; (split; [exact Hs|]).
           ++ intros a [= <-]. split; [apply prefix_nil|simpl; lia].
           ++ discriminate.
        -- rewrite parent_cons. split; intros [Hs H]; (split; [exact Hs|]).
           ++ intros a [= <-]. destruct (H _ eq_refl) as [Hp Hl].
              split; [now apply prefix_cons|simpl in *; lia].
           ++ intros a [= <-]. destruct (H _ eq_refl) as [Hp Hl].
              split; [now apply prefix_cons_inv_2 in Hp|simpl in *; lia].
      * destruct (h !! k) as [ch|] eqn:Hk; simpl;
          [|split; [contradiction|now intros [[? ?] _]]].
        rewrite closed_visibleAt by (rewrite Forall_lookup in Hh; eauto).
        split.
        -- intros ->. split; [simpl; eauto|].
           intros a [= <-]. split; [apply prefix_nil|simpl; lia].
        -- intros [_ H]. destruct q as [|k' q]; [reflexivity|].
           destruct (H _ eq_refl) as [Hp _].
           apply prefix_cons_inv_1 in Hp. congruence.
    + cbn [visibleAt children].
      destruct (h !! k) as [ch|] eqn:Hk; simpl;
        [|split; [contradiction|now intros [[? ?] _]]].
      rewrite closed_visibleAt by (rewrite Forall_lookup in Hh; eauto).
      split.
      * intros ->. split; [simpl; eauto|].
        intros a [= <-]. split; [apply prefix_nil|simpl; lia].
      * intros [_ H]. destruct q as [|k' q]; [reflexivity|].
        destruct (H _ eq_refl) as [Hp _]. now apply prefix_nil_inv in Hp.
Qed.

Lemma landing_path (config : Config) (nm : string) (rest : list string)
    (r : Node) (b : bool) :
  defaultLanding config = "path" -> defaultPath config = nm :: rest -> fresh r ->
  applyDefaultLandingState config r b = (expandPath (collapse r) (nm :: rest), true).
Proof.
  intros Hl Hp Hf. unfold applyDefaultLandingState. rewrite Hl, Hp.
  cbn [String.eqb Ascii.eqb Bool.eqb andb length Nat.ltb Nat.leb].
  now inversion Hf.
Qed.

Lemma landing_outline (config : Config) (keep : bool) (r : Node) (b : bool) :
  fresh r ->
  outline keep (applyDefaultLandingState config r b).1 = outline keep r /\
  exclusive (applyDefaultLandingState config r b).1.
Proof.
  intros Hf. pose proof (fresh_exclusive _ Hf) as Hx.
  unfold applyDefaultLandingState.
  destruct (String.eqb (defaultLanding config) "collapsed").
  { replace (match r with
             | mkNode dt i (Some c) _ => mkNode dt i None (Some (collapse <$> c))
             | mkNode _ _ None _ => r
             end) with (collapse r) by now destruct r as [dt i [c|] h].
    split; [apply outline_collapse|now apply exclusive_collapse]. }
  destruct (String.eqb (defaultLanding config) "expanded").
  { split; [now apply outline_expandAll|now apply exclusive_expandAll]. }
  destruct (String.eqb (defaultLanding config) "path"); [|now split].
  destruct (defaultPath config) as [|nm rest]; [now split|].
  cbn [andb length Nat.ltb Nat.leb fst].
  replace (expandPath _ (nm :: rest)) with (expandPath (collapse r) (nm :: rest))
    by now inversion Hf.
  apply exclusive_collapse in Hx. split; [|now apply exclusive_expandPath].
  rewrite outline_expandPath by assumption. apply outline_collapse.
Qed.

Lemma applyDefaultSelection_frame (config : Config) (st : State) :
  root (applyDefaultSelection config st) = root st /\
  selectedNode (applyDefaultSelection config st) = selectedNode st /\
  domNodes (applyDefaultSelection config st) = domNodes st /\
  calls (applyDefaultSelection config st) = calls st.
Proof.
  unfold applyDefaultSelection.
  repeat match goal with
         | |- context [if ?b then _ else _] => destruct b
         | |- context [match ?o with Some _ => _ | None => _ end] => destruct o
         end; repeat split.
Qed.

Lemma domNodes_update (st : State) : (domNodes (update st)).*1 = descendants (root st).
Proof.
  unfold update. cbn [domNodes with_dom].
  induction (descendants (root st)) as [|q l IH]; [reflexivity|].
  rewrite !fmap_cons. now f_equal.
Qed.

(** What [loadData] leaves behind, for any configuration: the hierarchy of
    the data with distinct ids and exclusive references, rendered, with
    nothing selected yet. *)
Lemma loadData_loads (config : Config) (onSelect : bool) (data : Datum) (r0 : Node) :
  hierarchy data = Some r0 ->
  exists st, loadData config onSelect data = Some st /\
    root st = (applyDefaultLandingState config (assignIds r0) false).1 /\
    outline false (root st) = outline false r0 /\
    exclusive (root st) /\ distinctIds (root st) /\
    (domNodes st).*1 = descendants (root st) /\
    selectedNode st = None /\ calls st = [].
Proof.
  intros Hh. unfold loadData. rewrite Hh.
  destruct (assignIds_spec r0 (hierarchy_fresh _ _ Hh)) as (Ho & Hf & Hd).
  destruct (landing_outline config false (assignIds r0) false Hf) as [Ho2 Hx].
  destruct (landing_outline config true (assignIds r0) false Hf) as [Ho3 _].
  destruct (applyDefaultLandingState config (assignIds r0) false) as [r2 e].
  eexists. split; [reflexivity|].
  destruct (applyDefaultSelection_frame config
    (update {| root := r2; selectedNode := None; onNodeSelect := onSelect;
               isTreeExpanded := e; domNodes := []; domLinks := [];
               calls := []; timers := [] |})) as (-> & -> & -> & ->).
  rewrite domNodes_update. simpl in *.
  repeat split; try assumption; try congruence.
  now apply (distinctIds_outline (assignIds r0)).
Qed.

(** Clicks keep the ids distinct and the references exclusive. *)
Lemma handleNodeClick_keeps_invariants (st : State) (d : Loc) :
  (distinctIds (root st) -> distinctIds (root (handleNodeClick st d))) /\
  (exclusive (root st) -> exclusive (root (handleNodeClick st d))).
Proof.
  assert (Ht : (distinctIds (root st) -> distinctIds (alterAt toggle d (root st))) /\
               (exclusive (root st) -> exclusive (alterAt toggle d (root st)))).
  { split.
    - apply distinctIds_outline, outline_alterAt, outline_toggle.
    - revert d. generalize (root st). intros r d. revert r.
      induction d as [|k d IH]; intros r Hx; [now apply exclusive_toggle|].
      inversion Hx; subst; simpl; constructor; try assumption.
      all: now apply Forall_exclusive_alter. }
  unfold handleNodeClick. destruct (nodeAt (root st) d) as [n|]; [|tauto].
  destruct (isRoot d && isCollapsed (root st)); [exact Ht|].
  destruct (hasContent n), (kids n); simpl; rewrite ?root_selectNode; tauto.
Qed.

Lemma data_nodeAt_outline (keep : bool) (r r' : Node) (q : Loc) (n n' : Node) :
  outline keep r' = outline keep r ->
  nodeAt r' q = Some n' -> nodeAt r q = Some n -> data n' = data n.
Proof.
  intros He Hn' Hn.
  pose proof (nodeAt_outline keep r' q) as H1. rewrite He, nodeAt_outline in H1.
  rewrite Hn, Hn' in H1. injection H1 as H1.
  now rewrite <- (data_outline keep n), <- (data_outline keep n'), H1.
Qed.

Lemma settle_no_timers (st : State) :
  timers st = [] -> selectedNode (settle st) = selectedNode st.
Proof. unfold settle. now intros ->. Qed.

Lemma settle_one_timer (st : State) (delay : nat) (d : Loc) :
  timers st = [(delay, d)] -> selectedNode (settle st) = Some d.
Proof. unfold settle. intros ->. apply selectedNode_selectNode. Qed.

(** C1.  Let the landing policy be ['path'] with a non-empty sequence of
    names, and let [m] be the position reached in the hierarchy of the data by
    matching the names one after the other against the children, from the
    root, as far as they match.  Then [loadData] returns, and afterwards:
    the visible nodes, which are the rendered ones, are the root and the
    children of those nodes on the way to [m] that were reached while names
    were left, so everything else is collapsed and expansion stops at the
    last matched node; nothing is selected before the timeout; if all names
    matched, then once the timeout has fired the node at [m] is selected if
    it has content and nothing is selected if it has none; if the names did
    not all match, nothing is selected. *)
Theorem path_landing_expands_and_selects
    (config : Config) (onSelect : bool) (input : Datum) (r0 : Node) :
  defaultLanding config = "path" ->
  defaultPath config <> [] ->
  hierarchy input = Some r0 ->
  exists st, loadData config onSelect input = Some st /\
    (forall q, q ∈ descendants (root st) <->
       is_Some (nodeAt r0 q) /\
       forall a, parent q = Some a ->
         a `prefix_of` matchedPrefix r0 (defaultPath config) /\
         length a < length (defaultPath config)) /\
    (domNodes st).*1 = descendants (root st) /\
    selectedNode st = None /\
    (forall n,
       length (matchedPrefix r0 (defaultPath config)) = length (defaultPath config) ->
       nodeAt r0 (matchedPrefix r0 (defaultPath config)) = Some n ->
       selectedNode (settle st)
       = if hasContent n then Some (matchedPrefix r0 (defaultPath config)) else None) /\
    (length (matchedPrefix r0 (defaultPath config)) < length (defaultPath config) ->
       selectedNode (settle st) = None).
Proof.
  intros Hl Hp Hh. destruct (defaultPath config) as [|nm rest] eqn:Hpath; [contradiction|].
  clear Hp. set (p := nm :: rest).
  destruct (assignIds_spec r0 (hierarchy_fresh _ _ Hh)) as (Ho & Hf & _).
  set (r3 := expandPath (collapse (assignIds r0)) p).
  assert (Ho3 : outline false r3 = outline false r0).
  { unfold r3. rewrite outline_expandPath, outline_collapse; [assumption|].
    now apply exclusive_collapse, fresh_exclusive. }
  assert (Hm : matchedPrefix r3 p = matchedPrefix r0 p).
  { now rewrite <- (matchedPrefix_outline false p r3), Ho3, matchedPrefix_outline. }
  unfold loadData. rewrite Hh, (landing_path config nm rest _ false Hl Hpath Hf).
  fold p. fold r3. eexists. split; [reflexivity|].
  match goal with |- context [applyDefaultSelection config ?s] => set (st0 := s) end.
  destruct (applyDefaultSelection_frame config st0) as (Hr & Hs & Hd & _).
  rewrite Hr, Hs, Hd. unfold st0 at 1 2 3 4. rewrite domNodes_update.
  cbn [root update with_dom selectedNode].
  split; [|split; [reflexivity|split; [reflexivity|]]].
  - intros q. rewrite elem_of_descendants. unfold r3.
    rewrite visibleAt_expandPath by now apply closed_collapse.
    rewrite <- (matchedPrefix_outline false p (collapse _)), outline_collapse, Ho,
      matchedPrefix_outline.
    rewrite (is_Some_nodeAt_outline false r0 (collapse (assignIds r0)) q)
      by now rewrite outline_collapse.
    reflexivity.
  - assert (Htm : timers (applyDefaultSelection config st0) =
              match findNodeByPath r3 p with
              | Some t =>
                match nodeAt r3 t with
                | Some n => if hasContent n then [(duration config + 50, t)] else []
                | None => []
                end
              | None => []
              end).
    { unfold applyDefaultSelection. rewrite Hl, Hpath. fold p.
      cbn [String.eqb Ascii.eqb Bool.eqb andb length Nat.ltb Nat.leb].
      change (root st0) with r3.
      destruct (findNodeByPath r3 p) as [t|]; [|reflexivity].
      destruct (nodeAt r3 t) as [n|]; [|reflexivity].
      now destruct (hasContent n). }
    rewrite findNodeByPath_matched, Hm in Htm.
    split.
    + intros n Hlen Hn. rewrite decide_True in Htm by assumption.
      destruct (proj2 (is_Some_nodeAt_outline false _ _ _ Ho3) (mk_is_Some _ _ Hn))
        as [n3 Hn3].
      rewrite Hn3 in Htm. unfold hasContent in *.
      rewrite (data_nodeAt_outline false _ _ _ _ _ Ho3 Hn3 Hn) in Htm.
      destruct (slug (data n)).
      * now rewrite settle_no_timers, Hs.
      * now rewrite settle_no_timers, Hs.
      * now rewrite (settle_one_timer _ _ _ Htm).
    + intros Hlt. rewrite decide_False in Htm by lia.
      now rewrite settle_no_timers, Hs.
Qed.

(** ** Loading data without a root name *)

Lemma traverse_total {A B : Type} (f : A -> option B) (l : list A) :
  Forall (fun x => is_Some (f x)) l -> is_Some (traverse f l).
Proof.
  induction 1 as [|x l [y Hy] _ [ys Hys]]; simpl; [eauto|].
  rewrite Hy, Hys. eauto.
Qed.

Lemma hierarchy_total (d : Datum) : allObjects d = true -> is_Some (hierarchy d).
Proof.
  induction d as [|nm sl ch IH] using Datum_ind; [discriminate|].
  cbn [allObjects hierarchy]. destruct ch as [[|c cs]|]; eauto.
  intros Hall. specialize (IH _ eq_refl).
  destruct (traverse_total hierarchy (c :: cs)) as [ns Hns]; [|rewrite Hns; eauto].
  rewrite List.forallb_forall in Hall. rewrite Forall_forall in *.
  intros x Hx. apply IH; [assumption|]. now apply Hall, list_elem_of_In.
Qed.

Lemma hierarchy_withName (nm nm' : option string) (sl : Slug)
    (ch : option (list Datum)) :
  hierarchy (DObj nm' sl ch) = withName nm' <$> hierarchy (DObj nm sl ch).
Proof.
  cbn [hierarchy]. destruct ch as [[|c cs]|]; try reflexivity.
  now destruct (traverse hierarchy (c :: cs)).
Qed.

Lemma descendants_withName (nm : option string) (r : Node) :
  descendants (withName nm r) = descendants r.
Proof.
  destruct r as [dt i c h]. unfold descendants.
  replace (height (withName nm (mkNode dt i c h))) with (height (mkNode dt i c h))
    by now destruct c.
  f_equal. apply list_fmap_ext. intros _ [|k] _; reflexivity.
Qed.

Lemma numbering_withName (nm : option string) (L : list Loc) (r : Node) (i : nat) :
  (foldl (fun acc d => (alterAt (setId acc.2) d acc.1, S acc.2)) (withName nm r, i) L).1
  = withName nm
      (foldl (fun acc d => (alterAt (setId acc.2) d acc.1, S acc.2)) (r, i) L).1.
Proof.
  revert r i. induction L as [|d L IH]; intros r i; [reflexivity|].
  cbn [foldl fst snd]. rewrite <- IH. do 3 f_equal.
  destruct d, r as [dt j [c|] [h|]]; reflexivity.
Qed.

Lemma assignIds_withName (nm : option string) (r : Node) :
  assignIds (withName nm r) = withName nm (assignIds r).
Proof.
  unfold assignIds. rewrite descendants_withName. apply numbering_withName.
Qed.

Lemma expandPath_withName (nm : option string) (p : list string) (r : Node) :
  expandPath (withName nm r) p = withName nm (expandPath r p).
Proof.
  destruct p as [|t rest]; [reflexivity|].
  destruct r as [dt i [c|] [h|]]; simpl; try reflexivity.
  - now destruct (list_find (named t) h) as [[k x]|].
  - now destruct (list_find (named t) c) as [[k x]|].
  - now destruct (list_find (named t) h) as [[k x]|].
Qed.

Lemma landing_withName (config : Config) (nm : option string) (r : Node) (b : bool) :
  (applyDefaultLandingState config (withName nm r) b).1
  = withName nm (applyDefaultLandingState config r b).1.
Proof.
  unfold applyDefaultLandingState.
  destruct (String.eqb (defaultLanding config) "collapsed").
  { now destruct r as [dt i [c|] [h|]]. }
  destruct (String.eqb (defaultLanding config) "expanded").
  { now destruct r as [dt i [c|] [h|]]. }
  destruct (String.eqb (defaultLanding config) "path" &&
            Nat.ltb 0 (length (defaultPath config))); [|reflexivity].
  cbn [fst]. rewrite <- expandPath_withName. now destruct r as [dt i [c|] [h|]].
Qed.

Lemma landing_flag_withName (config : Config) (nm : option string) (r : Node)
    (b : bool) :
  (applyDefaultLandingState config (withName nm r) b).2
  = (applyDefaultLandingState config r b).2.
Proof.
  unfold applyDefaultLandingState.
  repeat match goal with |- context [if ?c then _ else _] => destruct c end;
    reflexivity.
Qed.

Lemma nodeAt_withName (nm : option string) (r : Node) (q : Loc) :
  nodeAt (withName nm r) q
  = match q with [] => Some (withName nm r) | _ :: _ => nodeAt r q end.
Proof. destruct q; [reflexivity|]. now destruct r as [dt i [c|] [h|]]. Qed.

Lemma idAt_withName (nm : option string) (r : Node) (q : Loc) :
  idAt (withName nm r) q = idAt r q.
Proof.
  unfold idAt. rewrite nodeAt_withName. destruct q; [|reflexivity].
  now destruct r.
Qed.

Lemma isOnActivePath_withName (nm : option string) (r : Node) (sel : option Loc)
    (q : Loc) :
  isOnActivePath (withName nm r) sel q = isOnActivePath r sel q.
Proof.
  unfold isOnActivePath. destruct sel as [t|]; [|reflexivity].
  induction (ancestors t) as [|a l IH]; [reflexivity|].
  cbn [existsb]. now rewrite IH, !idAt_withName.
Qed.

Lemma linkActive_withName (nm : option string) (r : Node) (sel : option Loc)
    (q : Loc) :
  linkActive (withName nm r) sel q = linkActive r sel q.
Proof.
  unfold linkActive. destruct sel as [t|]; [|reflexivity].
  assert (He : idAt (withName nm r) <$> ancestors t = idAt r <$> ancestors t).
  { apply list_fmap_ext. intros _ a _. apply idAt_withName. }
  rewrite He, idAt_withName. destruct (parent q); [|reflexivity].
  now rewrite idAt_withName.
Qed.

Lemma getNodeClass_withName (nm : option string) (r : Node) (sel : option Loc)
    (q : Loc) :
  getNodeClass (withName nm r) sel q = getNodeClass r sel q.
Proof.
  unfold getNodeClass. rewrite nodeAt_withName, isOnActivePath_withName.
  destruct q as [|k q]; [|now destruct r].
  cbn [nodeAt]. now destruct r as [dt i [c|] [h|]].
Qed.

Lemma findNodeByPath_withName (nm : option string) (r : Node) (names : list string) :
  findNodeByPath (withName nm r) names = findNodeByPath r names.
Proof. destruct names; [reflexivity|]. now destruct r as [dt i [c|] [h|]]. Qed.

Lemma hasContent_withName (nm : option string) (r : Node) :
  hasContent (withName nm r) = hasContent r.
Proof. now destruct r. Qed.

(** The state with the name of the root replaced. *)
Lemma update_withName (nm : option string) (st : State) :
  update (with_root st (withName nm (root st)))
  = with_root (update st) (withName nm (root st)).
Proof.
  unfold update, with_root, with_dom.
  cbn [root selectedNode onNodeSelect isTreeExpanded domNodes domLinks calls timers].
  rewrite descendants_withName. f_equal.
  - apply list_fmap_ext. intros _ d _. now rewrite getNodeClass_withName.
  - apply list_fmap_ext. intros _ d _. now rewrite linkActive_withName.
Qed.

Lemma applyDefaultSelection_withName (config : Config) (nm : option string)
    (st : State) :
  applyDefaultSelection config (with_root st (withName nm (root st)))
  = with_root (applyDefaultSelection config st) (withName nm (root st)).
Proof.
  unfold applyDefaultSelection. cbn [root with_root timers].
  rewrite hasContent_withName, findNodeByPath_withName.
  destruct (String.eqb (defaultLanding config) "expanded").
  { now destruct (hasContent (root st)). }
  destruct (String.eqb (defaultLanding config) "path" &&
            Nat.ltb 0 (length (defaultPath config))); [|reflexivity].
  destruct (findNodeByPath (root st) (defaultPath config)) as [t|]; [|reflexivity].
  rewrite nodeAt_withName. destruct t as [|k t].
  - cbn [nodeAt]. rewrite hasContent_withName. now destruct (hasContent (root st)).
  - destruct (nodeAt (root st) (k :: t)) as [x|]; [|reflexivity].
    now destruct (hasContent x).
Qed.

Lemma loadData_withName (config : Config) (onSelect : bool) (nm nm' : option string)
    (sl : Slug) (ch : option (list Datum)) :
  loadData config onSelect (DObj nm' sl ch)
  = (fun st => with_root st (withName nm' (root st)))
      <$> loadData config onSelect (DObj nm sl ch).
Proof.
  unfold loadData. rewrite (hierarchy_withName nm nm' sl ch).
  destruct (hierarchy (DObj nm sl ch)) as [r0|]; [|reflexivity].
  cbn [fmap option_fmap option_map]. rewrite assignIds_withName.
  pose proof (landing_withName config nm' (assignIds r0) false) as H1.
  pose proof (landing_flag_withName config nm' (assignIds r0) false) as H2.
  destruct (applyDefaultLandingState config (withName nm' (assignIds r0)) false)
    as [r2' e'].
  destruct (applyDefaultLandingState config (assignIds r0) false) as [r2 e].
  cbn [fst snd] in H1, H2. subst r2' e'.
  set (st := {| root := r2; selectedNode := None; onNodeSelect := onSelect;
                isTreeExpanded := e; domNodes := []; domLinks := [];
                calls := []; timers := [] |}).
  change {| root := withName nm' r2; selectedNode := None; onNodeSelect := onSelect;
            isTreeExpanded := e; domNodes := []; domLinks := [];
            calls := []; timers := [] |}
    with (with_root st (withName nm' (root st))).
  rewrite update_withName.
  change (withName nm' (root st)) with (withName nm' (root (update st))).
  rewrite applyDefaultSelection_withName.
  cbn [fmap option_fmap option_map].
  now rewrite (proj1 (applyDefaultSelection_frame config (update st))).
Qed.

(** C8, as the code has it.  Root data without a [name], in a tree with no
    [null] datum, loads without an exception.  The root keeps its missing
    name and is among the rendered nodes, which are the visible ones.
    Nothing is done on account of the name: the state after loading is the
    one the same data gives when the root has a name, but for that name in
    the root's data; the tree built, what is expanded, the ids, the [.node]
    and [.link] elements with their classes, the selection and the pending
    timeout are the same. *)
Theorem missing_root_name_is_not_checked
    (config : Config) (onSelect : bool) (sl : Slug) (ch : option (list Datum)) :
  allObjects (DObj None sl ch) = true ->
  exists st, loadData config onSelect (DObj None sl ch) = Some st /\
    name (data (root st)) = None /\
    [] ∈ (domNodes st).*1 /\
    (domNodes st).*1 = descendants (root st) /\
    forall nm, exists st',
      loadData config onSelect (DObj (Some nm) sl ch) = Some st' /\
      root st = withName None (root st') /\
      domNodes st = domNodes st' /\
      domLinks st = domLinks st' /\
      selectedNode st = selectedNode st' /\
      timers st = timers st' /\
      calls st = calls st' /\
      isTreeExpanded st = isTreeExpanded st' /\
      onNodeSelect st = onNodeSelect st'.
Proof.
  intros Hall. destruct (hierarchy_total _ Hall) as [r0 Hr0].
  destruct (loadData_loads config onSelect _ _ Hr0)
    as (st & Hst & Hroot & Ho & _ & _ & Hdom & _).
  exists st. split; [assumption|]. split; [|split; [|split; [assumption|]]].
  - rewrite <- (data_outline false), Ho, data_outline.
    cbn [hierarchy] in Hr0. destruct ch as [[|c cs]|]; try (now injection Hr0 as <-).
    destruct (traverse hierarchy (c :: cs)); [|discriminate]. now injection Hr0 as <-.
  - rewrite Hdom. apply elem_of_descendants. exact I.
  - intros nm.
    pose proof (loadData_withName config onSelect (Some nm) None sl ch) as Hn.
    rewrite Hst in Hn.
    destruct (loadData config onSelect (DObj (Some nm) sl ch)) as [st'|];
      [|discriminate].
    cbn [fmap option_fmap option_map] in Hn. injection Hn as ->.
    exists st'. now repeat split.
Qed.

(** C8, against the wording "empty render".  With the configuration as
    shipped, a nameless root over two leaves loads and all three nodes are
    rendered, with both links. *)
Lemma nameless_root_is_rendered_in_full :
  (fun st => ((domNodes st).*1, (domLinks st).*1))
    <$> loadData expandedConfig true namelessTree
  = Some ([[]; [0]; [1]], [[0]; [1]]) /\
  ~ emptyOrMinimalRender (loadData expandedConfig true namelessTree).
Proof.
  split; [reflexivity|].
  intros (st & [= <-] & Hlen & _). vm_compute in Hlen. lia.
Qed.

(** C4, against the wording "very first click".  The sample tree lands
    collapsed; its root has content.  The root is clicked open and clicked
    shut, the selection is cleared, and the root is clicked a third time.
    That click is not the first one, yet it selects nothing. *)
Lemma later_click_on_collapsed_root_selects_nothing :
  loadData collapsedConfig true interestsTree = Some landedCollapsed /\
  hasContent (root reopenedAndCleared) = true /\
  firstClickOnCollapsedLanding reopenedAndCleared [] = false /\
  selectedNode (handleNodeClick reopenedAndCleared []) = None /\
  calls (handleNodeClick reopenedAndCleared []) = calls reopenedAndCleared /\
  ~ clickAsSpecified reopenedAndCleared [] (root reopenedAndCleared).
Proof.
  repeat split; try reflexivity.
  intros [_ H]. vm_compute in H. specialize (H eq_refl). discriminate.
Qed.

(** ** The theorems at work on the sample trees *)

(** C1 on [Root -> Interests -> {Minerals, Bicycles}] with the path
    [Interests], [Bicycles]: once the timeout has fired, the node [Bicycles]
    is the selected node. *)
Lemma path_landing_selects_bicycles :
  defaultLanding (pathConfig ["Interests"; "Bicycles"]) = "path" /\
  defaultPath (pathConfig ["Interests"; "Bicycles"]) <> [] /\
  is_Some (hierarchy interestsTree) /\
  exists st,
    loadData (pathConfig ["Interests"; "Bicycles"]) true interestsTree = Some st /\
    selectedNode st = None /\
    selectedNode (settle st) = Some [0; 1] /\
    (name ∘ data) <$> nodeAt (root st) [0; 1] = Some (Some "Bicycles").
Proof.
  split; [reflexivity|]. split; [discriminate|]. split; [vm_compute; eauto|].
  destruct (path_landing_expands_and_selects
              (pathConfig ["Interests"; "Bicycles"]) true interestsTree _
              eq_refl ltac:(discriminate) eq_refl)
    as (st & Hst & _ & _ & Hnone & Hsel & _).
  exists st. split; [exact Hst|]. split; [exact Hnone|].
  split; [exact (Hsel _ eq_refl eq_refl)|].
  vm_compute in Hst. injection Hst as <-. reflexivity.
Defined.

(** The same tree with the path [Interests], [Kites]: [Interests] is
    expanded, its two children are rendered, and nothing is selected, before
    or after the timeout. *)
Example path_landing_stops_at_interests :
  (fun st => (selectedNode st, selectedNode (settle st), timers st,
              (domNodes st).*1, children <$> nodeAt (root st) [0; 0]))
    <$> loadData (pathConfig ["Interests"; "Kites"]) true interestsTree
  = Some (None, None, [], [[]; [0]; [0; 0]; [0; 1]], Some None).
Proof. reflexivity. Qed.

(** C2 on the expanded sample tree, toggling [Interests]. *)
Lemma toggling_interests_twice :
  exists n c,
    nodeAt (root landedExpanded) [0] = Some n /\ children n = Some c /\
    descendants (root (handleNodeClick landedExpanded [0])) = [[]; [0]] /\
    (forall q, q ∈ descendants
                 (root (handleNodeClick (handleNodeClick landedExpanded [0]) [0]))
               <-> q ∈ descendants (root landedExpanded)).
Proof.
  eexists _, _. split; [reflexivity|]. split; [reflexivity|].
  split; [reflexivity|].
  exact (proj1 (proj2 (proj2
    (toggling_twice_restores_visible_set landedExpanded [0] _ _ eq_refl eq_refl)))).
Defined.

(** C4 on the collapsed sample tree: the click on the root opens it and
    selects nothing. *)
Lemma first_click_on_collapsed_root :
  is_Some (nodeAt (root landedCollapsed) []) /\
  isCollapsed (root landedCollapsed) = true /\
  selectedNode (handleNodeClick landedCollapsed []) = None /\
  calls (handleNodeClick landedCollapsed []) = [].
Proof.
  split; [vm_compute; eauto|]. split; [reflexivity|].
  exact (proj1 (proj2
    (click_selects_unless_root_is_collapsed landedCollapsed [] _ eq_refl))
    (conj eq_refl eq_refl)).
Defined.

(** C5 on the expanded sample tree, selecting [Bicycles]: the root,
    [Interests] and [Bicycles] are on the active path and [Minerals] is not. *)
Lemma active_path_to_bicycles :
  distinctIds (root landedExpanded) /\
  is_Some (nodeAt (root landedExpanded) [0; 1]) /\
  (forall q, is_Some (nodeAt (root landedExpanded) q) ->
     (isOnActivePath (root (selectNode landedExpanded [0; 1]))
        (selectedNode (selectNode landedExpanded [0; 1])) q = true
      <-> q `prefix_of` [0; 1])).
Proof.
  assert (Hd : distinctIds (root landedExpanded)).
  { apply (bool_decide_unpack _). vm_compute. exact I. }
  split; [exact Hd|]. split; [vm_compute; eauto|].
  exact (proj1
    (active_path_is_selected_node_and_ancestors landedExpanded [0; 1] _ Hd eq_refl)).
Defined.

(** C9 on the collapsed sample tree. *)
Lemma collapsed_sample_stays_exclusive :
  exclusive (root landedCollapsed) /\
  exclusive (toggle (root landedCollapsed)) /\
  exclusive (expandAll (root landedCollapsed)).
Proof.
  assert (Hx : exclusive (root landedCollapsed)).
  { vm_compute. repeat constructor. }
  split; [exact Hx|].
  destruct (tree_operations_keep_references_exclusive _ Hx) as (_ & He & Ht & _).
  split; assumption.
Defined.

(** C10 on a node whose slug is the empty string: it has content, it is
    selected, and the callback is not called. *)
Lemma empty_slug_is_selected_without_callback :
  is_Some (nodeAt (root landedDraft) [0]) /\
  onNodeSelect landedDraft = true /\
  hasContent (mkNode {| name := Some "Draft"; slug := SlugStr EmptyString |}
                (Some 1) None None) = true /\
  selectedNode (selectNode landedDraft [0]) = Some [0] /\
  calls (selectNode landedDraft [0]) = calls landedDraft.
Proof.
  split; [vm_compute; eauto|]. split; [reflexivity|].
  exact (proj2 (proj2 (proj2
    (selectNode_selects_and_calls_back_on_truthy_slug landedDraft [0] _ eq_refl)))
    eq_refl).
Defined.

(** C8 on the nameless sample tree. *)
Lemma nameless_sample_loads :
  allObjects namelessTree = true /\
  exists st, loadData expandedConfig true namelessTree = Some st /\
    name (data (root st)) = None /\ [] ∈ (domNodes st).*1.
Proof.
  split; [reflexivity|].
  destruct (missing_root_name_is_not_checked expandedConfig true SlugNull
              (Some [leaf "Notes" (SlugStr "notes"); leaf "Links" (SlugStr "links")])
              eq_refl) as (st & Hst & Hn & Hin & _).
  exists st. repeat split; assumption.
Defined.

End TreeFacts.

(** * Part IV: properties of the content panel *)

Module PanelFacts.
Import Panel.

Section Facts.
Variable formatDate : string -> string.
Variable hostname : string -> option string.

(** ** Which elements exist is never changed *)

(** [q] has the content section in the state [p] has it in, and a title
    element if [p] has one. *)
Definition sameElements (p q : Panel) : Prop :=
  contentSection q = contentSection p /\
  (is_Some (contentTitle q) <-> is_Some (contentTitle p)).

Lemma sameElements_trans (p q r : Panel) :
  sameElements p q -> sameElements q r -> sameElements p r.
Proof. intros [H1 H2] [H3 H4]. split; [congruence|tauto]. Qed.

Lemma renderTitle_elements (p : Panel) (data : ContentRecord) (name : option string) :
  sameElements p (renderTitle p data name).
Proof.
  unfold renderTitle. destruct (contentTitle p) as [t|] eqn:Ht; [|now split].
  split; [reflexivity|]. cbn. rewrite Ht. split; eauto.
Qed.

Lemma renderMeta_elements (p : Panel) (data : ContentRecord) :
  sameElements p (renderMeta formatDate p data).
Proof. unfold renderMeta. now destruct (contentMeta p). Qed.

Lemma renderDescription_elements (p : Panel) (data : ContentRecord) :
  sameElements p (renderDescription p data).1.
Proof.
  unfold renderDescription. destruct (contentDescription p); [|now split].
  destruct (truthyString (description data)); [now split|].
  now destruct (detachFirstP _) as [[f d]|].
Qed.

Lemma renderImage_elements (p : Panel) (data : ContentRecord) :
  sameElements p (renderImage p data).
Proof. unfold renderImage. now destruct (contentImageContainer p). Qed.

Lemma renderBody_elements (p : Panel) (data : ContentRecord) :
  sameElements p (renderBody p data).
Proof. unfold renderBody. now destruct (contentBody p). Qed.

Lemma renderFooter_elements (p : Panel) (data : ContentRecord) :
  sameElements p (after (renderFooter hostname p data)).
Proof.
  unfold renderFooter. destruct (contentFooter p); [|now split].
  now destruct (resourcesHtml hostname data).
Qed.

Lemma renderContent_keeps_elements (p : Panel) (data : ContentRecord)
    (name : option string) :
  sameElements p (after (renderContent formatDate hostname p data name)).1.
Proof.
  unfold renderContent.
  pose proof (renderTitle_elements p data name) as H1.
  pose proof (renderMeta_elements (renderTitle p data name) data) as H2.
  pose proof (renderDescription_elements
                (renderMeta formatDate (renderTitle p data name) data) data) as H3.
  destruct (renderDescription _ data) as [p3 data'] eqn:Hd.
  pose proof (renderImage_elements p3 data') as H4.
  pose proof (renderBody_elements (renderImage p3 data') data') as H5.
  pose proof (renderFooter_elements (renderBody (renderImage p3 data') data') data')
    as H6.
  destruct (renderFooter _ _ data') as [p6|p6] eqn:Hf; cbn [after fst] in *.
  all: eauto 10 using sameElements_trans.
Qed.

(** ** The steps of [renderContent] are independent *)

Lemma resourcesHtml_with_content (data : ContentRecord) (c : option (list Html)) :
  resourcesHtml hostname (with_content data c) = resourcesHtml hostname data.
Proof. reflexivity. Qed.

(** Each step of [renderContent] writes its own element and nothing else,
    and only the description step hands something on to a later one: the
    body without its first paragraph.  An exception can come from the footer
    step alone. *)
Lemma renderContent_steps (p : Panel) (data : ContentRecord) (name : option string) :
  renderContent formatDate hostname p data name
  = let data' := (renderDescription p data).2 in
    let p' :=
      {| contentSection := contentSection p; treeSection := treeSection p;
         contentTitle := contentTitle (renderTitle p data name);
         contentMeta := contentMeta (renderMeta formatDate p data);
         contentDescription := contentDescription (renderDescription p data).1;
         contentImageContainer := contentImageContainer (renderImage p data);
         contentBody := contentBody (renderBody p data');
         contentFooter := contentFooter (after (renderFooter hostname p data));
         currentSlug := currentSlug p |} in
    match renderFooter hostname p data with
    | Returned _ => Returned (p', data')
    | Thrown _ => Thrown (p', data')
    end.
Proof.
  destruct p as [cs ts ct cm cd ci cb cf sl].
  unfold renderContent, renderTitle, renderMeta, renderDescription, renderImage,
    renderBody, renderFooter.
  cbn [contentTitle contentMeta contentDescription contentImageContainer
       contentBody contentFooter].
  destruct ct, cm;
    (destruct cd;
       [destruct (truthyString (description data));
          [|destruct (detachFirstP _) as [[firstP tempDiv]|]]|]);
    destruct ci, cb, cf;
    cbn [contentTitle contentMeta contentDescription contentImageContainer
         contentBody contentFooter contentSection treeSection currentSlug
         with_description with_body with_footer fst snd after];
    rewrite ?resourcesHtml_with_content;
    try destruct (resourcesHtml hostname data); reflexivity.
Qed.

Lemma renderContent_presence (p : Panel) (data : ContentRecord)
    (name : option string) :
  let q := (after (renderContent formatDate hostname p data name)).1 in
  contentSection q = contentSection p /\
  (is_Some (contentTitle p) <-> is_Some (contentTitle q)) /\
  (is_Some (contentMeta p) <-> is_Some (contentMeta q)) /\
  (is_Some (contentDescription p) <-> is_Some (contentDescription q)) /\
  (is_Some (contentImageContainer p) <-> is_Some (contentImageContainer q)) /\
  (is_Some (contentBody p) <-> is_Some (contentBody q)) /\
  (is_Some (contentFooter p) <-> is_Some (contentFooter q)).
Proof.
  cbv zeta. rewrite renderContent_steps. cbv zeta.
  assert (Hfields :
            (is_Some (contentTitle p)
             <-> is_Some (contentTitle (renderTitle p data name))) /\
            (is_Some (contentMeta p)
             <-> is_Some (contentMeta (renderMeta formatDate p data))) /\
            (is_Some (contentDescription p)
             <-> is_Some (contentDescription (renderDescription p data).1)) /\
            (is_Some (contentImageContainer p)
             <-> is_Some (contentImageContainer (renderImage p data))) /\
            (is_Some (contentBody p)
             <-> is_Some (contentBody (renderBody p (renderDescription p data).2))) /\
            (is_Some (contentFooter p)
             <-> is_Some (contentFooter (after (renderFooter hostname p data))))).
  { unfold renderTitle, renderMeta, renderDescription, renderImage, renderBody,
      renderFooter.
    split; [|split; [|split; [|split; [|split]]]].
    - destruct (contentTitle p) eqn:E; cbn; rewrite ?E; split; eauto.
    - destruct (contentMeta p) eqn:E; cbn; rewrite ?E; split; eauto.
    - destruct (contentDescription p) eqn:E; [|cbn; rewrite E; split; eauto].
      destruct (truthyString _); [cbn; split; eauto|].
      destruct (detachFirstP _) as [[? ?]|]; cbn; split; eauto.
    - destruct (contentImageContainer p) eqn:E; cbn; rewrite ?E; split; eauto.
    - destruct (contentBody p) eqn:E; cbn; rewrite ?E; split; eauto.
    - destruct (contentFooter p) eqn:E; [|cbn; rewrite E; split; eauto].
      destruct (resourcesHtml hostname data); cbn; rewrite ?E; split; eauto. }
  destruct (renderFooter hostname p data); cbn [after fst contentSection
    contentTitle contentMeta contentDescription contentImageContainer contentBody
    contentFooter] in *; (split; [reflexivity|exact Hfields]).
Qed.

(** What [renderError] followed by [show] leaves on a page whose elements
    are those of [p]. *)
Lemma error_placeholder_shown (p pf : Panel) (name : option string) :
  contentSection pf = contentSection p ->
  (is_Some (contentTitle p) <-> is_Some (contentTitle pf)) ->
  (is_Some (contentMeta p) <-> is_Some (contentMeta pf)) ->
  (is_Some (contentDescription p) <-> is_Some (contentDescription pf)) ->
  (is_Some (contentImageContainer p) <-> is_Some (contentImageContainer pf)) ->
  (is_Some (contentBody p) <-> is_Some (contentBody pf)) ->
  (is_Some (contentFooter p) <-> is_Some (contentFooter pf)) ->
  let p' := show (renderError pf name) in
  (is_Some (contentSection p) -> isVisible p' = Some true) /\
  (is_Some (contentTitle p) ->
   contentTitle p' = Some (default "Not Found" (truthyString name))) /\
  (is_Some (contentMeta p) -> contentMeta p' = Some EmptyString) /\
  (is_Some (contentDescription p) ->
   contentDescription p' = Some ("Content could not be loaded.", DisplayBlock)) /\
  (is_Some (contentImageContainer p) ->
   exists d, contentImageContainer p' = Some (Placeholder, d)) /\
  (is_Some (contentBody p) -> contentBody p' = Some []) /\
  (is_Some (contentFooter p) -> contentFooter p' = Some EmptyString).
Proof.
  intros Hs H1 H2 H3 H4 H5 H6. cbv zeta. unfold isVisible.
  cbn [show renderError contentSection contentTitle contentMeta contentDescription
       contentImageContainer contentBody contentFooter].
  rewrite Hs, H1, H2, H3, H4, H5, H6.
  split; [|split; [|split; [|split; [|split; [|split]]]]].
  - now intros [v ->].
  - now intros [v ->].
  - now intros [v ->].
  - now intros [v ->].
  - intros [[b d] ->]. eauto.
  - now intros [v ->].
  - now intros [v ->].
Qed.

(** ** Failures of [loadContent] *)

(** C3, as the code has it.  The promise of [loadContent] is always
    fulfilled.  When the fetch is rejected, the response is not ok, the
    body is not JSON or rendering throws, the error placeholder is what the
    panel shows afterwards, whatever the failed attempt had written: of the
    elements the page has, the meta line, the body and the footer are
    empty, the description is "Content could not be loaded." and displayed,
    the image container holds the placeholder drawing, and the title is the
    fallback name when that is a non-empty string and "Not Found" when it is
    missing or empty; if the page has the content section the panel is
    visible. *)
Theorem loadContent_never_rejects_and_failure_shows_placeholder
    (fetch : string -> FetchResult) (p : Panel) (slug : string)
    (name : option string) :
  (exists p', loadContent formatDate hostname fetch p slug name = Returned p') /\
  (fetch ("/api/content/" +:+ slug) = NetworkError \/
   (exists status body,
      fetch ("/api/content/" +:+ slug) = Response false status body) \/
   (exists status, fetch ("/api/content/" +:+ slug) = Response true status BadJson) \/
   (exists status data s,
      fetch ("/api/content/" +:+ slug) = Response true status (Json data) /\
      renderContent formatDate hostname p data name = Thrown s) ->
   exists p',
     loadContent formatDate hostname fetch p slug name = Returned p' /\
     (is_Some (contentSection p) -> isVisible p' = Some true) /\
     (is_Some (contentTitle p) ->
      (forall n, name = Some n -> n <> EmptyString -> contentTitle p' = Some n) /\
      (name = None \/ name = Some EmptyString ->
       contentTitle p' = Some "Not Found")) /\
     (is_Some (contentMeta p) -> contentMeta p' = Some EmptyString) /\
     (is_Some (contentDescription p) ->
      contentDescription p' = Some ("Content could not be loaded.", DisplayBlock)) /\
     (is_Some (contentImageContainer p) ->
      exists d, contentImageContainer p' = Some (Placeholder, d)) /\
     (is_Some (contentBody p) -> contentBody p' = Some []) /\
     (is_Some (contentFooter p) -> contentFooter p' = Some EmptyString)).
Proof.
  split.
  - unfold loadContent, loadContentBody.
    destruct (fetch _) as [|[|] status [|data]]; cbn [tryCatch]; eauto.
    destruct (renderContent _ _ p data name) as [[p' d']|[p' d']];
      cbn [tryCatch]; eauto.
  - intros Hfail.
    assert (Hex : exists pf,
              loadContent formatDate hostname fetch p slug name
              = Returned (show (renderError pf name)) /\
              contentSection pf = contentSection p /\
              (is_Some (contentTitle p) <-> is_Some (contentTitle pf)) /\
              (is_Some (contentMeta p) <-> is_Some (contentMeta pf)) /\
              (is_Some (contentDescription p) <-> is_Some (contentDescription pf)) /\
              (is_Some (contentImageContainer p)
               <-> is_Some (contentImageContainer pf)) /\
              (is_Some (contentBody p) <-> is_Some (contentBody pf)) /\
              (is_Some (contentFooter p) <-> is_Some (contentFooter pf))).
    { unfold loadContent, loadContentBody.
      destruct Hfail as [->|[(st & b & ->)|[(st & ->)|(st & d & [pf d'] & -> & Hr)]]].
      1-3: exists p; cbn [tryCatch]; repeat split; trivial.
      pose proof (renderContent_presence p d name) as Hk. cbv zeta in Hk.
      rewrite Hr in *. cbn [after fst tryCatch] in *. exists pf.
      split; [reflexivity|exact Hk]. }
    destruct Hex as (pf & Hl & Hs & H1 & H2 & H3 & H4 & H5 & H6).
    destruct (error_placeholder_shown p pf name Hs H1 H2 H3 H4 H5 H6)
      as (Hv & Ht & Hm & Hd & Hi & Hb & Hf).
    eexists. split; [exact Hl|]. split; [exact Hv|].
    split; [|split; [exact Hm|split; [exact Hd|split; [exact Hi|split;
      [exact Hb|exact Hf]]]]].
    intros Hp. rewrite (Ht Hp). split.
    + intros n -> Hn. cbn. destruct (String.eqb_spec n EmptyString); [contradiction|].
      reflexivity.
    + intros [->| ->]; reflexivity.
Qed.

(** ** The description *)

Lemma detachFirstP_leading_texts (tag : string) (texts kidsP rest : list Html) :
  Forall isText texts ->
  detachFirstP (Element tag (texts ++ Element "p" kidsP :: rest))
  = Some (Element "p" kidsP, Element tag (texts ++ rest)).
Proof.
  induction 1 as [|x texts Hx _ IH]; [reflexivity|].
  destruct x as [s|]; [|contradiction].
  simpl in IH |- *.
  match type of IH with
  | match ?t with _ => _ end = _ => destruct t as [[f ks']|]; [|discriminate]
  end.
  now injection IH as -> ->.
Qed.

(** C6.  Let the record have no description (the field is missing or
    empty) and let the first element of its body be a paragraph, with at
    most text before it.  On a page that has the description and the body
    element, [renderContent] shows the text of that paragraph as the
    description and shows as body the nodes of the record's body without
    that paragraph, and the record's [content] is left without it as well. *)
Theorem first_paragraph_becomes_description
    (p : Panel) (data : ContentRecord) (name : option string)
    (texts kidsP rest : list Html) (d0 : string * Display) (b0 : list Html) :
  description data = None \/ description data = Some EmptyString ->
  content data = Some (texts ++ Element "p" kidsP :: rest) ->
  Forall isText texts ->
  contentDescription p = Some d0 ->
  contentBody p = Some b0 ->
  contentDescription (after (renderContent formatDate hostname p data name)).1
    = Some (textContent (Element "p" kidsP), DisplayBlock) /\
  contentBody (after (renderContent formatDate hostname p data name)).1
    = Some (texts ++ rest) /\
  content (after (renderContent formatDate hostname p data name)).2
    = Some (texts ++ rest).
Proof.
  intros Hdesc Hcontent Htexts Hd Hb.
  assert (Hno : truthyString (description data) = None)
    by (destruct Hdesc as [-> | ->]; reflexivity).
  destruct p as [cs ts ct cm cd ci cb cf sl]. cbn in Hd, Hb. subst cd cb.
  unfold renderContent, renderDescription.
  destruct ct, cm; cbn -[detachFirstP textContent]; rewrite Hno, Hcontent;
    cbn [orEmpty];
    rewrite (detachFirstP_leading_texts "div" texts kidsP rest Htexts).
  all: unfold renderFooter; destruct ci, cf; cbn -[textContent];
    try destruct (resourcesHtml _ _); cbn -[textContent]; repeat split; reflexivity.
Qed.

(** ** Resources *)





End Facts.


(** C3, against the wording "the displayed title equals the fallback name".
    On a page with every element, a rejected fetch with the empty string as
    fallback name shows "Not Found", and so does a missing name. *)
Lemma empty_fallback_name_shows_not_found :
  contentTitle (after (loadContent monthYear plainHostname (fun _ => NetworkError)
                         blankPanel "missing" (Some EmptyString)))
  = Some "Not Found" /\
  contentTitle (after (loadContent monthYear plainHostname (fun _ => NetworkError)
                         blankPanel "missing" None))
  = Some "Not Found" /\
  ~ failureAsSpecified
      (loadContent monthYear plainHostname (fun _ => NetworkError)
         blankPanel "missing" (Some EmptyString))
      (Some EmptyString).
Proof.
  repeat split. intros (p' & [= <-] & _ & Ht). discriminate.
Qed.

(** ** The theorems at work on sample data *)

(** C3 on a rejected fetch with the fallback name [Bicycles]. *)
Lemma rejected_fetch_shows_fallback_name :
  exists p',
    loadContent monthYear plainHostname (fun _ => NetworkError)
      blankPanel "bicycles" (Some "Bicycles") = Returned p' /\
    isVisible p' = Some true /\
    contentTitle p' = Some "Bicycles".
Proof.
  destruct (proj2 (loadContent_never_rejects_and_failure_shows_placeholder
                     monthYear plainHostname (fun _ => NetworkError)
                     blankPanel "bicycles" (Some "Bicycles"))
                  (or_introl eq_refl))
    as (p' & Hl & Hv & Ht & _).
  exists p'. split; [exact Hl|]. split.
  - apply Hv. vm_compute. eauto.
  - apply (proj1 (Ht ltac:(vm_compute; eauto)) _ eq_refl). discriminate.
Defined.

(** C6 on a body that starts with the paragraph "Hello world.": the
    description is that sentence and the body shown starts with the next
    paragraph. *)
Lemma hello_world_becomes_description :
  description helloRecord = None /\
  contentDescription
    (after (renderContent monthYear plainHostname blankPanel helloRecord
              (Some "Hello"))).1
  = Some ("Hello world.", DisplayBlock) /\
  contentBody
    (after (renderContent monthYear plainHostname blankPanel helloRecord
              (Some "Hello"))).1
  = Some [Element "p" [Text "More to read."]].
Proof.
  split; [reflexivity|].
  destruct (first_paragraph_becomes_description monthYear plainHostname
              blankPanel helloRecord (Some "Hello")
              [] [Text "Hello world."] [Element "p" [Text "More to read."]]
              _ _ (or_introl eq_refl) eq_refl (Forall_nil_2 _) eq_refl eq_refl)
    as (Hd & Hb & _).
  split; [exact Hd|exact Hb].
Defined.


End PanelFacts.

(** * Part V: further properties of the tree module *)

Module TreeExtras.
Import Tree Layout TreeFacts.

(** ** The greatest visible depth *)

Lemma traverseDepth_children (d : nat) (l : list Node) (a : nat) :
  Forall (fun ch => forall e m, traverseDepth ch e m = Nat.max m (e + height ch)) l ->
  d <= a ->
  foldl (fun m child => traverseDepth child (S d) m) a l
  = Nat.max a (d + foldr (fun ch acc => Nat.max (S (height ch)) acc) 0 l).
Proof.
  intros Hall. revert a. induction Hall as [|x l Hx _ IH]; intros a Ha; simpl.
  - lia.
  - rewrite Hx, IH by lia. lia.
Qed.

Lemma traverseDepth_height (n : Node) (d m : nat) :
  traverseDepth n d m = Nat.max m (d + height n).
Proof.
  revert d m. induction n as [dt i c h IHc IHh] using Node_ind. intros d m.
  destruct c as [l|]; cbn [traverseDepth height].
  - rewrite (traverseDepth_children d l) by
      (auto; destruct (Nat.ltb_spec m d); lia).
    destruct (Nat.ltb_spec m d); lia.
  - destruct (Nat.ltb_spec m d); lia.
Qed.

Lemma height_attained (n : Node) : exists q, visibleAt n q /\ length q = height n.
Proof.
  induction n as [dt i c h IHc IHh] using Node_ind.
  destruct c as [l|]; [|exists []; now split].
  specialize (IHc l eq_refl). cbn [height].
  assert (Hmax : foldr (fun ch acc => Nat.max (S (height ch)) acc) 0 l = 0 \/
            exists k ch, l !! k = Some ch /\
              foldr (fun ch acc => Nat.max (S (height ch)) acc) 0 l = S (height ch)).
  { clear IHc. induction l as [|x l IH]; [now left|]. right. simpl.
    destruct (Nat.max_spec (S (height x))
                (foldr (fun ch acc => Nat.max (S (height ch)) acc) 0 l))
      as [[Hlt ->]|[_ ->]].
    - destruct IH as [IH|(k & ch & Hk & IH)]; [lia|]. exists (S k), ch. now split.
    - exists 0, x. now split. }
  destruct Hmax as [->|(k & ch & Hk & ->)]; [exists []; now split|].
  rewrite Forall_lookup in IHc. destruct (IHc _ _ Hk) as (q & Hv & Hl).
  exists (k :: q). simpl. rewrite Hk. split; [assumption|now f_equal].
Qed.

Lemma getMaxVisibleDepth_height (r : Node) : getMaxVisibleDepth (Some r) = height r.
Proof. unfold getMaxVisibleDepth. rewrite traverseDepth_height. lia. Qed.

Lemma getMaxVisibleDepth_le (r : Node) (b : nat) :
  getMaxVisibleDepth (Some r) <= b <-> forall q, q ∈ descendants r -> length q <= b.
Proof.
  rewrite getMaxVisibleDepth_height. split.
  - intros Hb q Hq%elem_of_descendants%visibleAt_height. lia.
  - intros Hall. destruct (height_attained r) as (q & Hv & <-).
    now apply Hall, elem_of_descendants.
Qed.

(** X1.  [getMaxVisibleDepth()] is 0 before a tree is loaded.  For a loaded
    tree it is the depth of the deepest node that [descendants()] lists: no
    visible node lies deeper and some visible node lies that deep. *)
Theorem getMaxVisibleDepth_is_greatest_visible_depth :
  getMaxVisibleDepth None = 0 /\
  forall r,
    (forall q, q ∈ descendants r -> length q <= getMaxVisibleDepth (Some r)) /\
    (exists q, q ∈ descendants r /\ length q = getMaxVisibleDepth (Some r)).
Proof.
  split; [reflexivity|]. intros r. split.
  - now apply getMaxVisibleDepth_le.
  - rewrite getMaxVisibleDepth_height. destruct (height_attained r) as (q & Hv & Hl).
    exists q. split; [now apply elem_of_descendants|assumption].
Qed.

(** ** Margins and the root label *)

Lemma getMaxVisibleDepth_deep (r : Node) (q : Loc) :
  q ∈ descendants r -> 2 <= length q -> Nat.leb (getMaxVisibleDepth (Some r)) 1 = false.
Proof.
  intros Hq Hl. apply Nat.leb_gt.
  pose proof (proj1 (getMaxVisibleDepth_le r (getMaxVisibleDepth (Some r)))
                (le_n _) q Hq). lia.
Qed.

Lemma getMaxVisibleDepth_shallow (root : option Node) :
  (forall r, root = Some r -> forall q, q ∈ descendants r -> length q <= 1) ->
  Nat.leb (getMaxVisibleDepth root) 1 = true.
Proof.
  intros H. apply Nat.leb_le. destruct root as [r|]; [|simpl; lia].
  apply getMaxVisibleDepth_le. now apply H.
Qed.

(** X2.  [getCurrentMargin()] by width.  Above the tablet breakpoint it is
    [margin]; above the mobile breakpoint and up to the tablet breakpoint it
    is [marginTablet].  At or below both breakpoints it is
    [marginMobileCollapsed] as long as nothing deeper than the children of
    the root is visible (also before any tree is loaded), and [marginMobile]
    as soon as some visible node lies deeper. *)
Theorem getCurrentMargin_by_width_and_depth
    (config : LayoutConfig) (w : nat) (root : option Node) :
  (tabletBreakpoint config < w -> getCurrentMargin config w root = margin config) /\
  (w <= tabletBreakpoint config -> mobileBreakpoint config < w ->
     getCurrentMargin config w root = marginTablet config) /\
  (w <= tabletBreakpoint config -> w <= mobileBreakpoint config ->
     ((forall r, root = Some r -> forall q, q ∈ descendants r -> length q <= 1) ->
        getCurrentMargin config w root = marginMobileCollapsed config) /\
     (forall r q, root = Some r -> q ∈ descendants r -> 2 <= length q ->
        getCurrentMargin config w root = marginMobile config)).
Proof.
  unfold getCurrentMargin, getBreakpoint. split; [|split].
  - intros H. apply Nat.ltb_lt in H. now rewrite H.
  - intros H1 H2. apply Nat.ltb_ge in H1. apply Nat.ltb_lt in H2. now rewrite H1, H2.
  - intros H1 H2. apply Nat.ltb_ge in H1, H2. rewrite H1, H2. split.
    + intros Hs. now rewrite getMaxVisibleDepth_shallow.
    + intros r q -> Hq Hl. now rewrite (getMaxVisibleDepth_deep r q).
Qed.

(** X3.  [updateRootLabelVisibility()] hides the root label exactly on a
    mobile width with a visible node deeper than the children of the root;
    whenever it hides the label, [getCurrentMargin()] is [marginMobile], and
    whenever the margin is chosen on a mobile width with the label shown, it
    is [marginMobileCollapsed]. *)
Theorem root_label_hidden_with_narrow_margin
    (config : LayoutConfig) (w : nat) (r : Node) :
  (rootLabelOpacity config w (Some r) = 0 <->
     getBreakpoint config w = Mobile /\
     exists q, q ∈ descendants r /\ 2 <= length q) /\
  (rootLabelOpacity config w (Some r) = 0 ->
     getCurrentMargin config w (Some r) = marginMobile config) /\
  (getBreakpoint config w = Mobile -> rootLabelOpacity config w (Some r) = 1 ->
     getCurrentMargin config w (Some r) = marginMobileCollapsed config).
Proof.
  unfold rootLabelOpacity, getCurrentMargin.
  assert (Hdeep : height r <= 1 \/
            exists q, q ∈ descendants r /\ 2 <= length q).
  { destruct (Nat.le_gt_cases (height r) 1) as [?|Hh]; [now left|right].
    destruct (height_attained r) as (q & Hv & Hl). exists q.
    split; [now apply elem_of_descendants|lia]. }
  rewrite getMaxVisibleDepth_height.
  destruct (getBreakpoint config w).
  1-2: split; [split; [discriminate|intros [? _]; discriminate]|];
    split; intros; discriminate.
  destruct (Nat.ltb_spec 1 (height r)) as [Hh|Hh].
  - split; [|split].
    + split; [intros _|reflexivity]. split; [reflexivity|].
      destruct Hdeep as [?|?]; [lia|assumption].
    + intros _. destruct (Nat.leb_spec (height r) 1); [lia|reflexivity].
    + intros _ [=].
  - split; [|split].
    + split; [discriminate|].
      intros (_ & q & Hq%elem_of_descendants%visibleAt_height & Hl). lia.
    + discriminate.
    + intros _ _. destruct (Nat.leb_spec (height r) 1); [reflexivity|lia].
Qed.

(** ** The other landing policies *)

Lemma descendants_without_children (n : Node) :
  children n = None -> descendants n = [[]].
Proof. destruct n as [dt i [c|] h]; [discriminate|reflexivity]. Qed.

Lemma expandAll_fresh (n : Node) : fresh n -> expandAll n = n.
Proof.
  induction n as [dt i c h IHc IHh] using Node_ind.
  destruct c as [c|]; intros Hf; inversion Hf as [|? ? ? Hc]; subst; [|reflexivity].
  simpl. do 2 f_equal. rewrite <- (list_fmap_id c) at 2.
  apply fmap_ext_Forall. exact (Forall_mp _ _ _ Hc (IHc _ eq_refl)).
Qed.

Lemma loadData_unfold (config : Config) (onSelect : bool) (input : Datum) (r0 : Node) :
  hierarchy input = Some r0 ->
  loadData config onSelect input
  = Some (applyDefaultSelection config
            (update {| root := (applyDefaultLandingState config (assignIds r0) false).1;
                       selectedNode := None; onNodeSelect := onSelect;
                       isTreeExpanded :=
                         (applyDefaultLandingState config (assignIds r0) false).2;
                       domNodes := []; domLinks := []; calls := []; timers := [] |})).
Proof.
  intros Hh. unfold loadData. rewrite Hh.
  now destruct (applyDefaultLandingState config (assignIds r0) false).
Qed.

Lemma closed_children (n : Node) : closed n -> children n = None.
Proof. now inversion 1. Qed.

Lemma closed_toggle_visibleAt (n : Node) (q : Loc) :
  closed n -> visibleAt (toggle n) q <-> is_Some (nodeAt n q) /\ length q <= 1.
Proof.
  intros Hc. inversion Hc as [|dt i h Hh]; subst.
  - destruct q as [|k q]; simpl; [split; [eauto with lia|trivial]|].
    split; [contradiction|now intros [[? ?] _]].
  - destruct q as [|k q]; cbn [toggle visibleAt nodeAt kids children _children];
      [split; [simpl; eauto with lia|trivial]|].
    destruct (h !! k) as [ch|] eqn:Hk; [|split; [contradiction|now intros [[? ?] _]]].
    rewrite closed_visibleAt by (rewrite Forall_lookup in Hh; eauto).
    split.
    + intros ->. simpl. eauto with lia.
    + intros [_ Hl]. destruct q; [reflexivity|simpl in Hl; lia].
Qed.

Lemma calls_selectNode (st : State) (d : Loc) (n : Node) :
  nodeAt (root st) d = Some n ->
  calls (selectNode st d)
  = match onNodeSelect st, truthySlug n with
    | true, Some s => calls st ++ [(s, name (data n))]
    | _, _ => calls st
    end.
Proof.
  intros Hn. unfold selectNode.
  cbn [root with_selectedNode refreshNodeClasses updateActivePath with_dom selectedNode].
  rewrite Hn. simpl. now destruct (onNodeSelect st), (truthySlug n).
Qed.

Lemma click_collapsed_root (st : State) :
  isCollapsed (root st) = true ->
  handleNodeClick st []
  = update (with_root (with_isTreeExpanded st true) (toggle (root st))).
Proof. unfold handleNodeClick. cbn [nodeAt isRoot andb]. now intros ->. Qed.

(** X4.  With the landing policy ['collapsed'], [loadData] returns with
    every node collapsed and the root alone visible and rendered, without
    links; [isCollapsed()] holds, [isTreeExpanded] is false, no timeout is
    pending and nothing is ever selected or called back by the load.  The
    hierarchy itself is that of the data. *)
Theorem collapsed_landing_shows_the_root_alone
    (config : Config) (onSelect : bool) (input : Datum) (r0 : Node) :
  defaultLanding config = "collapsed" ->
  hierarchy input = Some r0 ->
  exists st, loadData config onSelect input = Some st /\
    closed (root st) /\
    descendants (root st) = [[]] /\
    (domNodes st).*1 = [[]] /\ domLinks st = [] /\
    isCollapsed (root st) = true /\
    isTreeExpanded st = false /\
    timers st = [] /\
    selectedNode (settle st) = None /\ calls (settle st) = [] /\
    outline false (root st) = outline false r0.
Proof.
  intros Hl Hh. rewrite (loadData_unfold _ _ _ _ Hh).
  destruct (assignIds_spec r0 (hierarchy_fresh _ _ Hh)) as (Ho & Hf & _).
  assert (Hland : applyDefaultLandingState config (assignIds r0) false
                  = (collapse (assignIds r0), false)).
  { unfold applyDefaultLandingState. rewrite Hl. cbn [String.eqb Ascii.eqb Bool.eqb].
    now destruct (assignIds r0) as [dt i [c|] h]. }
  rewrite Hland. cbn [fst snd].
  assert (Hsel : forall s, applyDefaultSelection config s = s).
  { intros s. unfold applyDefaultSelection. rewrite Hl. reflexivity. }
  rewrite Hsel. eexists. split; [reflexivity|].
  pose proof (closed_collapse _ Hf) as Hc.
  pose proof (descendants_without_children _ (closed_children _ Hc)) as Hd.
  rewrite domNodes_update. unfold update. cbn [root domLinks with_dom].
  rewrite Hd. repeat split; try assumption.
  - unfold isCollapsed. now rewrite (closed_children _ Hc).
  - now rewrite outline_collapse.
Qed.

(** X5.  After the ['collapsed'] landing, the first click on the root
    reveals exactly one level: the visible nodes, which are the rendered
    ones, are the root and its children; nothing is selected and no callback
    is made, even when the root has content; [isTreeExpanded] is now true. *)
Theorem first_click_after_collapsed_landing_reveals_one_level
    (config : Config) (onSelect : bool) (input : Datum) (r0 : Node) (st : State) :
  defaultLanding config = "collapsed" ->
  hierarchy input = Some r0 ->
  loadData config onSelect input = Some st ->
  (forall q, q ∈ descendants (root (handleNodeClick st [])) <->
     is_Some (nodeAt r0 q) /\ length q <= 1) /\
  (domNodes (handleNodeClick st [])).*1 = descendants (root (handleNodeClick st [])) /\
  selectedNode (handleNodeClick st []) = None /\
  calls (handleNodeClick st []) = [] /\
  isTreeExpanded (handleNodeClick st []) = true.
Proof.
  intros Hl Hh Hst. rewrite (loadData_unfold _ _ _ _ Hh) in Hst.
  destruct (assignIds_spec r0 (hierarchy_fresh _ _ Hh)) as (Ho & Hf & _).
  assert (Hland : applyDefaultLandingState config (assignIds r0) false
                  = (collapse (assignIds r0), false)).
  { unfold applyDefaultLandingState. rewrite Hl. cbn [String.eqb Ascii.eqb Bool.eqb].
    now destruct (assignIds r0) as [dt i [c|] h]. }
  rewrite Hland in Hst. cbn [fst snd] in Hst.
  assert (Hsel : forall s, applyDefaultSelection config s = s).
  { intros s. unfold applyDefaultSelection. rewrite Hl. reflexivity. }
  rewrite Hsel in Hst. injection Hst as <-.
  pose proof (closed_collapse _ Hf) as Hc.
  rewrite click_collapsed_root
    by (cbn [update with_dom root]; unfold isCollapsed;
        now rewrite (closed_children _ Hc)).
  rewrite domNodes_update. cbn [root with_root with_isTreeExpanded update with_dom
    selectedNode calls isTreeExpanded alterAt].
  split; [|now repeat split].
  intros q. rewrite elem_of_descendants, closed_toggle_visibleAt by assumption.
  rewrite (is_Some_nodeAt_outline false r0 (collapse (assignIds r0)) q)
    by now rewrite outline_collapse.
  reflexivity.
Qed.

(** X6.  With the landing policy ['expanded'], [loadData] returns with
    nothing hidden: the visible nodes, which are the rendered ones, are all
    the nodes of the hierarchy of the data.  Nothing is selected before the
    timeout; once it has fired the root is selected if it has content and
    nothing is selected if it has none, and the callback has been called
    once, with the root's slug and name, exactly when a callback is
    installed and that slug is a non-empty string. *)
Theorem expanded_landing_shows_everything_and_selects_root
    (config : Config) (onSelect : bool) (input : Datum) (r0 : Node) :
  defaultLanding config = "expanded" ->
  hierarchy input = Some r0 ->
  exists st, loadData config onSelect input = Some st /\
    fresh (root st) /\
    (forall q, q ∈ descendants (root st) <-> is_Some (nodeAt r0 q)) /\
    (domNodes st).*1 = descendants (root st) /\
    isTreeExpanded st = true /\
    selectedNode st = None /\
    selectedNode (settle st) = (if hasContent r0 then Some [] else None) /\
    (forall s, onSelect = true -> slug (data r0) = SlugStr s -> s <> EmptyString ->
       calls (settle st) = [(s, name (data r0))]) /\
    (onSelect = false \/ slug (data r0) = SlugUndefined \/ slug (data r0) = SlugNull \/
     slug (data r0) = SlugStr EmptyString -> calls (settle st) = []).
Proof.
  intros Hl Hh. rewrite (loadData_unfold _ _ _ _ Hh).
  destruct (assignIds_spec r0 (hierarchy_fresh _ _ Hh)) as (Ho & Hf & _).
  assert (Hland : applyDefaultLandingState config (assignIds r0) false
                  = (assignIds r0, true)).
  { unfold applyDefaultLandingState. rewrite Hl. cbn [String.eqb Ascii.eqb Bool.eqb].
    now rewrite expandAll_fresh. }
  rewrite Hland. cbn [fst snd].
  assert (Hdata : data (assignIds r0) = data r0).
  { now rewrite <- (data_outline false), Ho, data_outline. }
  set (st0 := update _).
  assert (Hroot : root st0 = assignIds r0) by reflexivity.
  assert (Hsel : applyDefaultSelection config st0 =
                 if hasContent r0
                 then with_timers st0 [(duration config + 50, [])] else st0).
  { unfold applyDefaultSelection. rewrite Hl. cbn [String.eqb Ascii.eqb Bool.eqb].
    rewrite Hroot. unfold hasContent. now rewrite Hdata. }
  rewrite Hsel.
  assert (Hvis : forall q, q ∈ descendants (assignIds r0) <-> is_Some (nodeAt r0 q)).
  { intros q. rewrite elem_of_descendants, fresh_visibleAt by assumption.
    now apply (is_Some_nodeAt_outline false). }
  assert (Hdom : (domNodes st0).*1 = descendants (assignIds r0))
    by apply domNodes_update.
  assert (Htruthy : truthySlug (assignIds r0) = truthySlug r0)
    by (unfold truthySlug; now rewrite Hdata).
  destruct (hasContent r0) eqn:Hc; eexists; (split; [reflexivity|]).
  - assert (Hcalls : calls (settle (with_timers st0 [(duration config + 50, [])]))
                     = match onSelect, truthySlug r0 with
                       | true, Some s => [(s, name (data r0))]
                       | _, _ => []
                       end).
    { unfold settle. cbn [timers with_timers foldl snd].
      rewrite (calls_selectNode _ [] (assignIds r0)) by reflexivity.
      cbn [onNodeSelect with_timers]. rewrite Htruthy, Hdata.
      change (onNodeSelect st0) with onSelect. change (calls st0) with (@nil (string * option string)).
      now destruct onSelect, (truthySlug r0). }
    split; [assumption|]. split; [exact Hvis|]. split; [exact Hdom|].
    split; [reflexivity|]. split; [reflexivity|].
    split; [apply (settle_one_timer _ (duration config + 50)); reflexivity|].
    rewrite Hcalls. unfold truthySlug. split.
    + intros s -> -> Hne. destruct (String.eqb_spec s EmptyString); [contradiction|].
      reflexivity.
    + intros [->|[->|[->| ->]]]; try reflexivity; now destruct onSelect.
  - split; [assumption|]. split; [exact Hvis|]. split; [exact Hdom|].
    split; [reflexivity|]. split; [reflexivity|]. split; [reflexivity|].
    unfold hasContent in Hc. split.
    + intros s _ Hs. rewrite Hs in Hc. discriminate.
    + intros _. reflexivity.
Qed.

(** X7.  With any other policy, and with ['path'] and an empty path, the
    tree is left as [d3.hierarchy] built it: every node is visible and
    rendered, [isTreeExpanded] stays false, no timeout is pending and nothing
    is selected. *)
Theorem unknown_landing_leaves_the_tree_as_built
    (config : Config) (onSelect : bool) (input : Datum) (r0 : Node) :
  defaultLanding config <> "collapsed" ->
  defaultLanding config <> "expanded" ->
  defaultLanding config <> "path" \/ defaultPath config = [] ->
  hierarchy input = Some r0 ->
  exists st, loadData config onSelect input = Some st /\
    fresh (root st) /\
    (forall q, q ∈ descendants (root st) <-> is_Some (nodeAt r0 q)) /\
    (domNodes st).*1 = descendants (root st) /\
    isTreeExpanded st = false /\
    timers st = [] /\
    selectedNode (settle st) = None.
Proof.
  intros Hc He Hp Hh. rewrite (loadData_unfold _ _ _ _ Hh).
  destruct (assignIds_spec r0 (hierarchy_fresh _ _ Hh)) as (Ho & Hf & _).
  apply String.eqb_neq in Hc, He.
  assert (Hpath : String.eqb (defaultLanding config) "path"
                  && Nat.ltb 0 (length (defaultPath config)) = false).
  { destruct Hp as [Hp%String.eqb_neq| ->]; [now rewrite Hp|apply andb_false_r]. }
  assert (Hland : applyDefaultLandingState config (assignIds r0) false
                  = (assignIds r0, false)).
  { unfold applyDefaultLandingState. now rewrite Hc, He, Hpath. }
  rewrite Hland. cbn [fst snd].
  assert (Hsel : forall s, applyDefaultSelection config s = s).
  { intros s. unfold applyDefaultSelection. now rewrite He, Hpath. }
  rewrite Hsel. eexists. split; [reflexivity|].
  rewrite domNodes_update. cbn [root update with_dom isTreeExpanded timers].
  repeat split; try assumption.
  - intros Hq. apply (is_Some_nodeAt_outline false r0 (assignIds r0) q Ho).
    now apply fresh_visibleAt, elem_of_descendants.
  - intros Hq. apply elem_of_descendants, fresh_visibleAt; [assumption|].
    now apply (is_Some_nodeAt_outline false r0 (assignIds r0) q Ho).
Qed.

(** ** Expanding and collapsing as a whole *)

Lemma expandAll_outline (n : Node) : exclusive n -> expandAll n = outline true n.
Proof.
  induction n as [dt i c h IHc IHh] using Node_ind.
  intros Hx. inversion Hx as [| ? ? ? Hc | ? ? ? Hh]; subst; simpl; try reflexivity.
  all: do 2 f_equal; apply fmap_ext_Forall.
  - exact (Forall_mp _ _ _ Hc (IHc _ eq_refl)).
  - exact (Forall_mp _ _ _ Hh (IHh _ eq_refl)).
Qed.

Lemma fresh_outline (keep : bool) (n : Node) : fresh (outline keep n).
Proof.
  induction n as [dt i c h IHc IHh] using Node_ind.
  destruct c as [c|]; [|destruct h as [h|]]; simpl; constructor.
  - apply Forall_fmap. exact (IHc _ eq_refl).
  - apply Forall_fmap. exact (IHh _ eq_refl).
Qed.

(** X8.  On a tree in which no node has both references set, [expandAll]
    leaves nothing hidden: every node of the hierarchy is then listed by
    [descendants()], each with the data and the id it had, and a second
    [expandAll] changes nothing. *)
Theorem expandAll_shows_the_whole_hierarchy (n : Node) :
  exclusive n ->
  fresh (expandAll n) /\
  (forall q, q ∈ descendants (expandAll n) <-> is_Some (nodeAt n q)) /\
  (forall q, data <$> nodeAt (expandAll n) q = data <$> nodeAt n q /\
             idAt (expandAll n) q = idAt n q) /\
  expandAll (expandAll n) = expandAll n.
Proof.
  intros Hx. rewrite (expandAll_outline n Hx).
  pose proof (fresh_outline true n) as Hf. split; [assumption|]. split; [|split].
  - intros q. rewrite elem_of_descendants, fresh_visibleAt by assumption.
    rewrite nodeAt_outline. apply fmap_is_Some.
  - intros q. split; [|apply idAt_outline].
    rewrite nodeAt_outline. destruct (nodeAt n q) as [x|]; [|reflexivity].
    simpl. now rewrite data_outline.
  - now apply expandAll_fresh.
Qed.

(** X9.  On a tree as [d3.hierarchy] builds it, [collapse] hides everything
    below the node at every level, and [expandAll] then gives the tree back
    as it was. *)
Theorem collapse_hides_all_and_expandAll_restores (n : Node) :
  fresh n ->
  closed (collapse n) /\
  descendants (collapse n) = [[]] /\
  expandAll (collapse n) = n.
Proof.
  intros Hf. pose proof (closed_collapse _ Hf) as Hc. split; [assumption|]. split.
  - now apply descendants_without_children, closed_children.
  - rewrite expandAll_outline by now apply exclusive_collapse, fresh_exclusive.
    rewrite outline_collapse, <- expandAll_outline by now apply fresh_exclusive.
    now apply expandAll_fresh.
Qed.

(** ** The rendered elements follow the state *)















(** ** Clicks on the whole state *)



Lemma alter_fixed {A : Type} (f : A -> A) (k : nat) (l : list A) :
  (forall x, l !! k = Some x -> f x = x) -> alter f k l = l.
Proof.
  intros Hf. apply list_eq. intros j. destruct (decide (j = k)) as [->|Hne].
  - rewrite list_lookup_alter_eq. destruct (l !! k) as [x|] eqn:Hk; [|reflexivity].
    simpl. f_equal. now apply Hf.
  - now rewrite list_lookup_alter_ne by congruence.
Qed.

Lemma alterAt_fixed (f : Node -> Node) (d : Loc) (r : Node) :
  (forall n, nodeAt r d = Some n -> f n = n) -> alterAt f d r = r.
Proof.
  revert r. induction d as [|k d IH]; intros r Hf; [now apply Hf|].
  destruct r as [dt i [c|] [h|]]; cbn [alterAt]; try reflexivity.
  all: do 2 f_equal; cbn [nodeAt kids children _children] in Hf.
  all: apply alter_fixed; intros x Hx; apply IH; intros n; specialize (Hf n).
  all: now rewrite Hx in Hf.
Qed.

Lemma root_click (st : State) (d : Loc) :
  root (handleNodeClick st d) = alterAt toggle d (root st).
Proof.
  unfold handleNodeClick. destruct (nodeAt (root st) d) as [n|] eqn:Hn.
  - destruct (isRoot d && isCollapsed (root st)); [reflexivity|].
    assert (Hr : root (if hasContent n then selectNode st d else st) = root st)
      by (destruct (hasContent n); [apply root_selectNode|reflexivity]).
    destruct (kids n) as [c|] eqn:Hk.
    + cbn [update with_dom with_root root]. now rewrite Hr.
    + rewrite Hr. symmetry. apply alterAt_fixed. intros n' Hn'.
      apply toggle_without_kids. congruence.
  - symmetry. apply alterAt_fixed. congruence.
Qed.

Lemma root_settle (st : State) : root (settle st) = root st.
Proof.
  unfold settle. change (root st) with (root (with_timers st [])).
  generalize (with_timers st []). induction (timers st) as [|t l IH]; intros s;
    [reflexivity|].
  simpl. now rewrite IH, root_selectNode.
Qed.

Lemma outline_step (st : State) (e : Event) :
  outline true (root (step st e)) = outline true (root st).
Proof.
  destruct e as [d|d| |]; cbn [step].
  - rewrite root_click. apply outline_alterAt, outline_toggle.
  - now rewrite root_selectNode.
  - reflexivity.
  - now rewrite root_settle.
Qed.

Lemma exclusive_step (st : State) (e : Event) :
  exclusive (root st) -> exclusive (root (step st e)).
Proof.
  destruct e as [d|d| |]; cbn [step].
  - apply handleNodeClick_keeps_invariants.
  - now rewrite root_selectNode.
  - trivial.
  - now rewrite root_settle.
Qed.


Lemma events_never_edit_the_hierarchy_aux (st : State) (events : list Event) :
  outline true (root (run st events)) = outline true (root st) /\
  forall q, data <$> nodeAt (root (run st events)) q = data <$> nodeAt (root st) q /\
            idAt (root (run st events)) q = idAt (root st) q.
Proof.
  assert (Ho : outline true (root (run st events)) = outline true (root st)).
  { unfold run. revert st. induction events as [|e l IH]; intros st; [reflexivity|].
    simpl. now rewrite IH, outline_step. }
  split; [assumption|]. intros q. split.
  - assert (He : outline true <$> nodeAt (root (run st events)) q
                 = outline true <$> nodeAt (root st) q)
      by now rewrite <- !nodeAt_outline, Ho.
    destruct (nodeAt (root (run st events)) q) as [x|],
             (nodeAt (root st) q) as [y|]; try discriminate; [|reflexivity].
    simpl in *. injection He as He.
    now rewrite <- (data_outline true x), He, data_outline.
  - now rewrite <- (idAt_outline (root (run st events))), Ho, idAt_outline.
Qed.

(** X11.  Nothing that happens after loading edits the hierarchy: whatever
    the clicks, selections and timeouts, the tree has the same nodes in the
    same places, with the same data and ids; only what is expanded
    changes. *)
Theorem events_never_edit_the_hierarchy (st : State) (events : list Event) :
  (forall q, is_Some (nodeAt (root (run st events)) q) <-> is_Some (nodeAt (root st) q)) /\
  (forall q, data <$> nodeAt (root (run st events)) q = data <$> nodeAt (root st) q) /\
  (forall q, idAt (root (run st events)) q = idAt (root st) q) /\
  (forall q, length <$> (nodeAt (root (run st events)) q ≫= kids)
             = length <$> (nodeAt (root st) q ≫= kids)).
Proof.
  destruct (events_never_edit_the_hierarchy_aux st events) as [Ho Hq].
  split; [|split; [|split]].
  - intros q. now apply (is_Some_nodeAt_outline true).
  - intros q. apply Hq.
  - intros q. apply Hq.
  - intros q.
    assert (He : outline true <$> nodeAt (root (run st events)) q
                 = outline true <$> nodeAt (root st) q)
      by now rewrite <- !nodeAt_outline, Ho.
    destruct (nodeAt (root (run st events)) q) as [x|],
             (nodeAt (root st) q) as [y|]; try discriminate; [|reflexivity].
    simpl in *. injection He as He.
    assert (Hk : kids (outline true x) = kids (outline true y)) by now rewrite He.
    rewrite !kids_outline in Hk.
    destruct (kids x) as [cx|], (kids y) as [cy|]; try discriminate; [|reflexivity].
    simpl in *. injection Hk as Hk. f_equal.
    now rewrite <- (length_fmap (outline true) cx), Hk, length_fmap.
Qed.

Lemma elem_of_existsb (x : string) (l : list string) :
  x ∈ l <-> existsb (String.eqb x) l = true.
Proof.
  rewrite existsb_exists. split.
  - intros H. exists x. split; [now apply list_elem_of_In|apply String.eqb_refl].
  - intros (y & Hy & ->%String.eqb_eq). now apply list_elem_of_In.
Qed.

Lemma classed_root_classes (r : Node) (sel : option Loc) (d : Loc) :
  (fun e : Loc * list string =>
     if bool_decide ("node" ∈ e.2) && bool_decide ("node--root" ∈ e.2)
     then (e.1, classed "node--collapsed" (isCollapsed r) e.2)
     else e) (d, getNodeClass r sel d)
  = (d, getNodeClass r sel d).
Proof.
  unfold getNodeClass. destruct (nodeAt r d) as [n|]; [|reflexivity].
  destruct d as [|k d]; cbn [isRoot].
  - destruct (truthy (children n)), (isCollapsed r), (truthy (_children n)),
      (isOnActivePath r sel []); reflexivity.
  - destruct (isLeaf n), (truthy (_children n)), (isOnActivePath r sel (k :: d));
      reflexivity.
Qed.

(** X13.  [updateCollapsedState()], which [update] calls last, changes
    nothing then: [getNodeClass] has already given the root element
    [node--collapsed] exactly when [isCollapsed()] holds, and no other
    element has the class [node--root]. *)
Theorem updateCollapsedState_changes_nothing_after_update (st : State) :
  updateCollapsedState (update st) = update st /\
  (forall e, e ∈ domNodes (update st) ->
     ("node--root" ∈ e.2 <-> e.1 = []) /\
     ("node--collapsed" ∈ e.2 <-> e.1 = [] /\ isCollapsed (root st) = true)).
Proof.
  split.
  - unfold updateCollapsedState, update.
    cbn [root selectedNode domNodes domLinks with_dom].
    rewrite <- list_fmap_compose.
    f_equal. apply list_fmap_ext. intros j d _. apply classed_root_classes.
  - intros e He. unfold update in He. cbn [domNodes with_dom] in He.
    apply list_elem_of_fmap in He as (d & -> & Hd%elem_of_descendants).
    cbn [fst snd]. unfold getNodeClass.
    assert (Hn : is_Some (nodeAt (root st) d)).
    { clear -Hd. revert Hd. generalize (root st). induction d as [|k d IH];
        intros r Hv; [now eexists|].
      simpl in *. destruct r as [dt i [c|] h]; cbn [kids children] in *;
        [|contradiction].
      destruct (c !! k) as [ch|]; [now apply IH|contradiction]. }
    destruct Hn as [n ->]. destruct d as [|k d]; cbn [isRoot].
    + destruct (truthy (children n)), (isCollapsed (root st)), (truthy (_children n)),
        (isOnActivePath (root st) (selectedNode st) []);
        rewrite !elem_of_existsb; vm_compute; intuition discriminate.
    + destruct (isLeaf n), (truthy (_children n)),
        (isOnActivePath (root st) (selectedNode st) (k :: d));
        rewrite !elem_of_existsb; vm_compute; intuition discriminate.
Qed.

(** ** Looking up and opening a path *)

Lemma findNodeByPath_outline (keep : bool) (n m : Node) (names : list string) :
  outline keep n = outline keep m ->
  findNodeByPath n names = findNodeByPath m names.
Proof.
  intros He. rewrite !findNodeByPath_matched.
  now rewrite <- (matchedPrefix_outline keep names n), He, matchedPrefix_outline.
Qed.

(** X14.  What [findNodeByPath] finds does not depend on what is expanded:
    it gives the same node before and after [collapse], [expandAll],
    [expandPath] and a [toggle] of any node. *)
Theorem findNodeByPath_ignores_expansion_state (n : Node) (names : list string) :
  exclusive n ->
  findNodeByPath (collapse n) names = findNodeByPath n names /\
  findNodeByPath (expandAll n) names = findNodeByPath n names /\
  (forall p, findNodeByPath (expandPath n p) names = findNodeByPath n names) /\
  (forall d, findNodeByPath (alterAt toggle d n) names = findNodeByPath n names).
Proof.
  intros Hx. split; [|split; [|split]].
  - apply (findNodeByPath_outline true), outline_collapse.
  - now apply (findNodeByPath_outline true), outline_expandAll.
  - intros p. now apply (findNodeByPath_outline true), outline_expandPath.
  - intros d. apply (findNodeByPath_outline true), outline_alterAt, outline_toggle.
Qed.

(** X15.  The node [findNodeByPath] returns lies as deep as the path is
    long, and the nodes on the way to it bear the names of the path in
    order; each of them is the first among its siblings with that name. *)
Theorem findNodeByPath_follows_the_names (n : Node) (names : list string) (q : Loc) :
  findNodeByPath n names = Some q ->
  length q = length names /\
  forall j nm, names !! j = Some nm ->
    exists k x, q !! j = Some k /\
      nodeAt n (take (S j) q) = Some x /\ name (data x) = Some nm /\
      forall k' y, k' < k -> nodeAt n (take j q ++ [k']) = Some y ->
        name (data y) <> Some nm.
Proof.
  revert n q. induction names as [|nm0 rest IH]; intros n q; simpl.
  - intros [= <-]. split; [reflexivity|]. intros j nm. now rewrite lookup_nil.
  - destruct (kids n) as [c|] eqn:Hk; [|discriminate].
    destruct (list_find (named nm0) c) as [[k0 ch]|] eqn:Hf; [|discriminate].
    destruct (findNodeByPath ch rest) as [q'|] eqn:Hq; [|discriminate].
    intros [= <-]. destruct (IH _ _ Hq) as [Hlen Hall].
    apply list_find_Some in Hf as (Hk0 & Hnamed & Hfirst).
    split; [simpl; now f_equal|]. intros [|j] nm Hnm; simpl in Hnm.
    + injection Hnm as <-. exists k0, ch. cbn [take nodeAt app]. rewrite Hk, Hk0.
      split; [reflexivity|]. split; [reflexivity|]. split; [exact Hnamed|].
      intros k' y Hlt. destruct (c !! k') as [y'|] eqn:Hy; [|discriminate].
      intros [= <-]. exact (Hfirst _ _ Hy Hlt).
    + destruct (Hall _ _ Hnm) as (k & x & Hqk & Hx & Hname & Hleast).
      exists k, x. split; [exact Hqk|].
      change (take (S (S j)) (k0 :: q')) with (k0 :: take (S j) q').
      cbn [nodeAt]. rewrite Hk, Hk0. split; [exact Hx|]. split; [exact Hname|].
      intros k' y Hlt. cbn [take app nodeAt]. rewrite Hk, Hk0. now apply Hleast.
Qed.

(** X16.  On a tree in which no node has both references set, [expandPath]
    only reveals: every node that was visible stays visible.  The node that
    [findNodeByPath] finds for the same names is visible afterwards, and is
    itself left as it was: its own children are not revealed. *)
Theorem expandPath_reveals_the_found_node (n : Node) (names : list string) :
  exclusive n ->
  (forall q, visibleAt n q -> visibleAt (expandPath n names) q) /\
  (forall q, findNodeByPath n names = Some q ->
     visibleAt (expandPath n names) q /\
     nodeAt (expandPath n names) q = nodeAt n q).
Proof.
  revert n. induction names as [|nm rest IH]; intros n Hx.
  { split; [trivial|]. intros q [= <-]. now split. }
  assert (Hstep : forall dt i c h,
            Forall exclusive c ->
            (forall q, visibleAt (mkNode dt i (Some c) h) q ->
               visibleAt (match list_find (named nm) c with
                          | Some (k, _) =>
                            mkNode dt i (Some (alter (fun ch => expandPath ch rest) k c)) h
                          | None => mkNode dt i (Some c) h
                          end) q)).
  { intros dt i c h Hc q Hv.
    destruct (list_find (named nm) c) as [[k x]|]; [|exact Hv].
    destruct q as [|j q]; [exact I|]. cbn [visibleAt children] in *.
    destruct (decide (j = k)) as [->|Hne].
    - rewrite list_lookup_alter_eq. destruct (c !! k) as [ch|] eqn:Hk; [|contradiction].
      cbn [fmap option_fmap option_map]. rewrite Forall_lookup in Hc.
      now apply (proj1 (IH ch (Hc _ _ Hk))).
    - now rewrite list_lookup_alter_ne by congruence. }
  assert (Hfound : forall dt i c h q,
            Forall exclusive c ->
            match list_find (named nm) c with
            | Some (k, child) => cons k <$> findNodeByPath child rest
            | None => None
            end = Some q ->
            let n' := match list_find (named nm) c with
                      | Some (k, _) =>
                        mkNode dt i (Some (alter (fun ch => expandPath ch rest) k c)) h
                      | None => mkNode dt i (Some c) h
                      end in
            visibleAt n' q /\
            match q with
            | [] => True
            | k :: q' =>
              match kids n' with
              | Some l => match l !! k with Some x => nodeAt x q' | None => None end
              | None => None
              end = match c !! k with Some x => nodeAt x q' | None => None end
            end).
  { intros dt i c h q Hc. destruct (list_find (named nm) c) as [[k ch]|] eqn:Hf;
      [|discriminate].
    destruct (findNodeByPath ch rest) as [q'|] eqn:Hq; [|discriminate].
    intros [= <-]. apply list_find_Some in Hf as (Hk & _ & _).
    rewrite Forall_lookup in Hc.
    destruct (IH ch (Hc _ _ Hk)) as [_ Hch]. destruct (Hch _ Hq) as [Hv Hsame].
    cbn [visibleAt kids children]. rewrite list_lookup_alter_eq, Hk. now split. }
  inversion Hx as [dt i | dt i c Hc | dt i h Hh]; subst.
  - split; [trivial|]. intros q. simpl. discriminate.
  - split; [exact (Hstep dt i c None Hc)|].
    intros q Hq. cbn [findNodeByPath kids children] in Hq.
    destruct (Hfound dt i c None q Hc Hq) as [Hv Hsame].
    cbn [expandPath reveal]. split; [exact Hv|].
    destruct q as [|k q']; [|exact Hsame].
    destruct (list_find (named nm) c) as [[k ch]|]; [|discriminate].
    now destruct (findNodeByPath ch rest).
  - split; [intros [|j q]; [trivial|contradiction]|].
    intros q Hq. cbn [findNodeByPath kids children _children] in Hq.
    destruct (Hfound dt i h None q Hh Hq) as [Hv Hsame].
    cbn [expandPath reveal]. split; [exact Hv|].
    destruct q as [|k q']; [|exact Hsame].
    destruct (list_find (named nm) h) as [[k ch]|]; [|discriminate].
    now destruct (findNodeByPath ch rest).
Qed.

(** ** Ids and the visible nodes *)

(** X25.  [loadData] numbers the nodes in the order of
    [root.descendants()], breadth first: under every landing policy the
    node that comes [j]-th in the hierarchy of the data, the root being the
    0-th, has the id [j]; and the ids stay with their nodes through every
    later event. *)
Theorem loadData_numbers_the_nodes_breadth_first
    (config : Config) (onSelect : bool) (input : Datum) (r0 : Node) (st : State) :
  hierarchy input = Some r0 ->
  loadData config onSelect input = Some st ->
  forall j q, descendants r0 !! j = Some q ->
    idAt (root st) q = Some j /\
    forall events, idAt (root (run st events)) q = Some j.
Proof.
  intros Hh Hl j q Hq. rewrite (loadData_unfold _ _ _ _ Hh) in Hl.
  injection Hl as <-.
  pose proof (hierarchy_fresh _ _ Hh) as Hfresh.
  destruct (assignIds_spec r0 Hfresh) as (_ & Hf & _).
  destruct (landing_outline config true (assignIds r0) false Hf) as [Ho _].
  destruct (numbering (descendants r0) r0 0 (NoDup_descendants r0)) as (_ & Hnum & _).
  { intros q' Hq'. now apply fresh_visibleAt, elem_of_descendants. }
  set (st := applyDefaultSelection config _).
  assert (Hid : idAt (root st) q = Some j).
  { unfold st. rewrite (proj1 (applyDefaultSelection_frame config _)).
    cbn [update with_dom root].
    rewrite <- idAt_outline, Ho, idAt_outline. exact (Hnum j q Hq). }
  split; [exact Hid|]. intros events.
  destruct (events_never_edit_the_hierarchy_aux st events) as [_ He].
  now rewrite (proj2 (He q)).
Qed.

Lemma visibleAt_nodeAt (r : Node) (q : Loc) : visibleAt r q -> is_Some (nodeAt r q).
Proof.
  revert r. induction q as [|k q IH]; intros r Hv; [now eexists|].
  simpl in *. destruct r as [dt i [c|] h]; cbn [kids children] in *; [|contradiction].
  destruct (c !! k) as [ch|]; [now apply IH|contradiction].
Qed.

(** X26.  What [descendants()] lists, and so what is rendered, is part of
    the hierarchy: the root comes first, no node is listed twice, every
    listed node is a node of the tree, and there are never more visible
    nodes than nodes. *)
Theorem visible_nodes_are_nodes_of_the_hierarchy (r : Node) :
  descendants r !! 0 = Some [] /\
  NoDup (descendants r) /\
  (forall q, q ∈ descendants r -> is_Some (nodeAt r q)) /\
  length (descendants r) <= length (positions r).
Proof.
  assert (Hsub : forall q, q ∈ descendants r -> q ∈ positions r).
  { intros q Hq. now apply elem_of_positions, visibleAt_nodeAt, elem_of_descendants. }
  split; [|split; [apply NoDup_descendants|split]].
  - unfold descendants. now destruct r as [dt i [c|] h].
  - intros q Hq. now apply elem_of_positions, Hsub.
  - apply submseteq_length, NoDup_submseteq; [apply NoDup_descendants|exact Hsub].
Qed.

(** X27.  [isCollapsed()] holds exactly when the root is the only visible
    node, that is when [getMaxVisibleDepth()] is 0; a root whose [children]
    is an empty array counts as collapsed. *)
Theorem isCollapsed_when_the_root_is_alone (r : Node) :
  (isCollapsed r = true <-> descendants r = [[]]) /\
  (isCollapsed r = true <-> getMaxVisibleDepth (Some r) = 0).
Proof.
  rewrite getMaxVisibleDepth_height. unfold isCollapsed.
  destruct r as [dt i [[|x c]|] h]; cbn [children length Nat.eqb height foldr].
  - split; split; reflexivity.
  - assert (Hv : [0] ∈ descendants (mkNode dt i (Some (x :: c)) h))
      by now apply elem_of_descendants.
    split; split; try discriminate; [|lia].
    intros He. rewrite He in Hv. apply list_elem_of_singleton in Hv. discriminate.
  - split; split; reflexivity.
Qed.

(** ** The theorems at work on the sample tree *)

(** X4 on the sample tree. *)
Lemma collapsed_landing_of_the_sample :
  defaultLanding collapsedConfig = "collapsed" /\
  is_Some (hierarchy interestsTree) /\
  exists st,
    loadData collapsedConfig true interestsTree = Some st /\
    descendants (root st) = [[]] /\
    domLinks st = [] /\
    selectedNode (settle st) = None.
Proof.
  split; [reflexivity|]. split; [vm_compute; eauto|].
  destruct (collapsed_landing_shows_the_root_alone
              collapsedConfig true interestsTree _ eq_refl eq_refl)
    as (st & Hst & _ & Hd & _ & Hl & _ & _ & _ & Hs & _).
  exists st. split; [exact Hst|]. split; [exact Hd|]. split; [exact Hl|exact Hs].
Defined.

(** X5 on the sample tree: the root has content and is not selected. *)
Lemma first_click_on_the_collapsed_sample :
  defaultLanding collapsedConfig = "collapsed" /\
  loadData collapsedConfig true interestsTree = Some landedCollapsed /\
  hasContent (root landedCollapsed) = true /\
  selectedNode (handleNodeClick landedCollapsed []) = None /\
  calls (handleNodeClick landedCollapsed []) = [] /\
  isTreeExpanded (handleNodeClick landedCollapsed []) = true.
Proof.
  split; [reflexivity|]. split; [reflexivity|]. split; [reflexivity|].
  exact (proj2 (proj2
    (first_click_after_collapsed_landing_reveals_one_level
       collapsedConfig true interestsTree _ landedCollapsed
       eq_refl eq_refl eq_refl))).
Defined.

(** X6 on the sample tree: the root is selected and its content asked for. *)
Lemma expanded_landing_of_the_sample :
  defaultLanding expandedConfig = "expanded" /\
  is_Some (hierarchy interestsTree) /\
  exists st,
    loadData expandedConfig true interestsTree = Some st /\
    selectedNode st = None /\
    selectedNode (settle st) = Some [] /\
    calls (settle st) = [("about", Some "Root")].
Proof.
  split; [reflexivity|]. split; [vm_compute; eauto|].
  destruct (expanded_landing_shows_everything_and_selects_root
              expandedConfig true interestsTree _ eq_refl eq_refl)
    as (st & Hst & _ & _ & _ & _ & Hnone & Hsel & Hcalls & _).
  exists st. split; [exact Hst|]. split; [exact Hnone|]. split; [exact Hsel|].
  exact (Hcalls "about" eq_refl eq_refl ltac:(discriminate)).
Defined.

(** X7 on the sample tree with the policy ['path'] and an empty path. *)
Lemma empty_path_landing_of_the_sample :
  defaultLanding (pathConfig []) <> "collapsed" /\
  defaultLanding (pathConfig []) <> "expanded" /\
  defaultPath (pathConfig []) = [] /\
  exists st,
    loadData (pathConfig []) true interestsTree = Some st /\
    isTreeExpanded st = false /\
    timers st = [] /\
    selectedNode (settle st) = None.
Proof.
  split; [discriminate|]. split; [discriminate|]. split; [reflexivity|].
  destruct (unknown_landing_leaves_the_tree_as_built
              (pathConfig []) true interestsTree _
              ltac:(discriminate) ltac:(discriminate) (or_intror eq_refl) eq_refl)
    as (st & Hst & _ & _ & _ & He & Ht & Hs).
  exists st. split; [exact Hst|]. split; [exact He|]. split; [exact Ht|exact Hs].
Defined.

Lemma exclusive_landedCollapsed : exclusive (root landedCollapsed).
Proof. vm_compute. repeat constructor. Defined.

Lemma exclusive_landedExpanded : exclusive (root landedExpanded).
Proof. vm_compute. repeat constructor. Defined.

(** X8 on the sample tree landed collapsed. *)
Lemma expandAll_on_the_collapsed_sample :
  exclusive (root landedCollapsed) /\
  fresh (expandAll (root landedCollapsed)) /\
  descendants (expandAll (root landedCollapsed)) = [[]; [0]; [0; 0]; [0; 1]] /\
  expandAll (expandAll (root landedCollapsed)) = expandAll (root landedCollapsed).
Proof.
  split; [exact exclusive_landedCollapsed|].
  destruct (expandAll_shows_the_whole_hierarchy _ exclusive_landedCollapsed)
    as (Hf & _ & _ & Hi).
  split; [exact Hf|]. split; [reflexivity|exact Hi].
Defined.

(** X9 on the sample tree landed expanded. *)
Lemma collapse_and_expandAll_on_the_sample :
  fresh (root landedExpanded) /\
  descendants (collapse (root landedExpanded)) = [[]] /\
  expandAll (collapse (root landedExpanded)) = root landedExpanded.
Proof.
  assert (Hf : fresh (root landedExpanded)) by (vm_compute; repeat constructor).
  split; [exact Hf|].
  exact (proj2 (collapse_hides_all_and_expandAll_restores _ Hf)).
Defined.



(** X14 on the sample tree landed collapsed. *)
Lemma bicycles_are_found_whatever_is_expanded :
  exclusive (root landedCollapsed) /\
  findNodeByPath (root landedCollapsed) ["Interests"; "Bicycles"] = Some [0; 1] /\
  findNodeByPath (expandAll (root landedCollapsed)) ["Interests"; "Bicycles"]
  = Some [0; 1] /\
  findNodeByPath (alterAt toggle [0] (root landedCollapsed)) ["Interests"; "Bicycles"]
  = Some [0; 1].
Proof.
  split; [exact exclusive_landedCollapsed|]. split; [reflexivity|].
  destruct (findNodeByPath_ignores_expansion_state (root landedCollapsed)
              ["Interests"; "Bicycles"] exclusive_landedCollapsed)
    as (_ & He & _ & Ht).
  split; [exact He|exact (Ht [0])].
Defined.

(** X15 on the sample tree. *)
Lemma path_to_bicycles_follows_the_names :
  findNodeByPath (root landedCollapsed) ["Interests"; "Bicycles"] = Some [0; 1] /\
  exists k x,
    [0; 1] !! 1 = Some k /\
    nodeAt (root landedCollapsed) [0; 1] = Some x /\
    name (data x) = Some "Bicycles".
Proof.
  split; [reflexivity|].
  destruct (proj2 (findNodeByPath_follows_the_names (root landedCollapsed)
                     ["Interests"; "Bicycles"] [0; 1] eq_refl)
                  1 "Bicycles" eq_refl)
    as (k & x & Hk & Hx & Hn & _).
  exists k, x. split; [exact Hk|]. split; [exact Hx|exact Hn].
Defined.

(** X16 on the sample tree landed collapsed. *)
Lemma expandPath_reveals_bicycles :
  exclusive (root landedCollapsed) /\
  findNodeByPath (root landedCollapsed) ["Interests"; "Bicycles"] = Some [0; 1] /\
  visibleAt (expandPath (root landedCollapsed) ["Interests"; "Bicycles"]) [0; 1] /\
  ~ visibleAt (root landedCollapsed) [0; 1].
Proof.
  split; [exact exclusive_landedCollapsed|]. split; [reflexivity|].
  split; [|intros H; exact H].
  exact (proj1 (proj2 (expandPath_reveals_the_found_node (root landedCollapsed)
                         ["Interests"; "Bicycles"] exclusive_landedCollapsed)
                      [0; 1] eq_refl)).
Defined.

(** X25 on the sample tree: [Bicycles] is the fourth node, breadth first. *)
Lemma bicycles_have_id_three :
  is_Some (hierarchy interestsTree) /\
  loadData expandedConfig true interestsTree = Some landedExpanded /\
  idAt (root landedExpanded) [0; 1] = Some 3 /\
  idAt (root (run landedExpanded [Click [0]; Click []])) [0; 1] = Some 3.
Proof.
  split; [vm_compute; eauto|]. split; [reflexivity|].
  destruct (loadData_numbers_the_nodes_breadth_first
              expandedConfig true interestsTree _ landedExpanded eq_refl eq_refl
              3 [0; 1] eq_refl) as [Hid Hev].
  split; [exact Hid|exact (Hev _)].
Defined.

End TreeExtras.

(** * Part VI: further properties of the content panel and the page *)

Module PanelExtras.
Import Panel Static PanelFacts.

Section Facts.
Variable formatDate : string -> string.
Variable hostname : string -> option string.

(** ** When rendering throws *)

Lemma traverse_None {A B : Type} (f : A -> option B) (l : list A) :
  traverse f l = None <-> exists x, x ∈ l /\ f x = None.
Proof.
  induction l as [|x l IH]; simpl.
  - split; [discriminate|]. intros (x & Hx & _). inversion Hx.
  - destruct (f x) as [y|] eqn:Hy.
    + destruct (traverse f l) as [ys|].
      * split; [discriminate|]. intros (z & Hz & Hfz).
        apply elem_of_cons in Hz as [->|Hz]; [congruence|].
        enough (@None (list B) = None -> False) by tauto.
        intros _. destruct IH as [_ IH]. discriminate IH. eauto.
      * split; [|reflexivity]. intros _. destruct IH as [IH _].
        destruct (IH eq_refl) as (z & Hz & Hfz). exists z. split; [now right|assumption].
    + split; [|reflexivity]. intros _. exists x. split; [left|assumption].
Qed.

Lemma resourceItem_None (res : string) :
  resourceItem hostname res = None <->
  String.prefix "http" res = true /\ hostname res = None.
Proof.
  unfold resourceItem. destruct (String.prefix "http" res).
  - destruct (hostname res); split; (discriminate || tauto || intros [_ [=]] || eauto).
  - split; [discriminate|]. now intros [[=] _].
Qed.

Lemma renderFooter_Thrown (p : Panel) (data : ContentRecord) :
  (exists s, renderFooter hostname p data = Thrown s) <->
  is_Some (contentFooter p) /\
  exists rs res, resources data = Some rs /\ res ∈ rs /\
    String.prefix "http" res = true /\ hostname res = None.
Proof.
  unfold renderFooter, resourcesHtml. destruct (contentFooter p) as [f0|].
  - destruct (resources data) as [[|r rs]|].
    + split; [intros [? [=]]|]. intros (_ & rs & res & [= <-] & Hin & _). inversion Hin.
    + destruct (traverse (resourceItem hostname) (r :: rs)) as [items|] eqn:Ht.
      * split; [intros [? [=]]|]. intros (_ & rs' & res & [= <-] & Hin & Hp & Hh).
        assert (Hn : traverse (resourceItem hostname) (r :: rs) = None).
        { apply traverse_None. exists res. split; [assumption|].
          now apply resourceItem_None. }
        congruence.
      * split; [|eauto]. intros _. split; [eauto|].
        apply traverse_None in Ht as (res & Hin & Hres%resourceItem_None).
        exists (r :: rs), res. tauto.
    + split; [intros [? [=]]|]. now intros (_ & rs & res & [=] & _).
  - split; [intros [? [=]]|]. now intros [[? [=]] _].
Qed.

(** X17.  [renderContent] throws in one case only: the page has the footer
    element and some item of [resources] starts with [http] and is no URL.
    The footer then keeps what it showed before, while the title and the
    body are already those of the new record. *)
Theorem renderContent_throws_on_an_unparsable_link
    (p : Panel) (data : ContentRecord) (name : option string) :
  ((exists s, renderContent formatDate hostname p data name = Thrown s) <->
   is_Some (contentFooter p) /\
   exists rs res, resources data = Some rs /\ res ∈ rs /\
     String.prefix "http" res = true /\ hostname res = None) /\
  (forall s, renderContent formatDate hostname p data name = Thrown s ->
     contentFooter s.1 = contentFooter p /\
     (is_Some (contentTitle p) ->
      contentTitle s.1 = Some (match truthyString (title data) with
                               | Some t => t
                               | None => asText name
                               end)) /\
     (is_Some (contentBody p) -> contentBody s.1 = Some (orEmpty (content s.2)))).
Proof.
  rewrite renderContent_steps. cbv zeta. split.
  - rewrite <- renderFooter_Thrown.
    destruct (renderFooter hostname p data); split; eauto; intros [? [=]].
  - intros s. destruct (renderFooter hostname p data) as [q|q] eqn:Hf; [discriminate|].
    intros [= <-]. cbn [fst snd contentFooter contentTitle contentBody after].
    split; [|split].
    + unfold renderFooter in Hf. destruct (contentFooter p) eqn:Hcf; [|discriminate].
      destruct (resourcesHtml hostname data); [discriminate|]. now injection Hf as <-.
    + intros [t Ht]. unfold renderTitle. now rewrite Ht.
    + intros [b Hb]. unfold renderBody. now rewrite Hb.
Qed.

(** X18.  [renderError] writes the placeholder drawing into the image
    container without touching its [display]: after a record without image,
    which hid the container, the drawing is there but stays hidden; after a
    record with an image it is shown. *)
Theorem error_placeholder_keeps_the_display_of_the_last_record
    (p : Panel) (data : ContentRecord) (name name' : option string)
    (box : ImageBox * Display) :
  contentImageContainer p = Some box ->
  contentImageContainer (renderError p name') = Some (Placeholder, box.2) /\
  contentImageContainer
    (renderError (after (renderContent formatDate hostname p data name)).1 name')
  = Some (Placeholder,
          match image data with
          | None => DisplayNone
          | Some src =>
            if String.eqb src EmptyString || String.eqb src "null"
            then DisplayNone else DisplayFlex
          end).
Proof.
  intros Hbox. split.
  - unfold renderError. cbn [contentImageContainer]. rewrite Hbox. now destruct box.
  - rewrite renderContent_steps. cbv zeta.
    assert (Himg : contentImageContainer (renderImage p data)
                   = Some (match truthyString (image data) with
                           | Some src =>
                             if String.eqb src "null" then (NoImage, DisplayNone)
                             else (Img src (interpolate (title data)), DisplayFlex)
                           | None => (NoImage, DisplayNone)
                           end)).
    { unfold renderImage. now rewrite Hbox. }
    unfold renderError.
    destruct (renderFooter hostname p data);
      cbn [after fst contentImageContainer]; rewrite Himg; unfold truthyString;
      (destruct (image data) as [src|]; [|reflexivity]);
      destruct (String.eqb src EmptyString); cbn [orb]; try reflexivity;
      now destruct (String.eqb src "null").
Qed.

(** ** Nothing of the previous record remains *)

Lemma presence_cases {A : Type} (x y : option A) :
  (is_Some x <-> is_Some y) ->
  (exists a b, x = Some a /\ y = Some b) \/ (x = None /\ y = None).
Proof.
  destruct x as [a|], y as [b|]; intros [H1 H2]; eauto.
  - destruct (H1 ltac:(eauto)) as [? [=]].
  - destruct (H2 ltac:(eauto)) as [? [=]].
Qed.

Lemma renderContent_by_presence
    (p q : Panel) (data : ContentRecord) (name : option string)
    (p' : Panel) (data' : ContentRecord) :
  (is_Some (contentTitle p) <-> is_Some (contentTitle q)) ->
  (is_Some (contentMeta p) <-> is_Some (contentMeta q)) ->
  (is_Some (contentDescription p) <-> is_Some (contentDescription q)) ->
  (is_Some (contentImageContainer p) <-> is_Some (contentImageContainer q)) ->
  (is_Some (contentBody p) <-> is_Some (contentBody q)) ->
  (is_Some (contentFooter p) <-> is_Some (contentFooter q)) ->
  renderContent formatDate hostname p data name = Returned (p', data') ->
  exists q',
    renderContent formatDate hostname q data name = Returned (q', data') /\
    contentTitle q' = contentTitle p' /\
    contentMeta q' = contentMeta p' /\
    contentDescription q' = contentDescription p' /\
    contentImageContainer q' = contentImageContainer p' /\
    contentBody q' = contentBody p' /\
    contentFooter q' = contentFooter p'.
Proof.
  intros Ht Hm Hd Hi Hb Hf. rewrite !renderContent_steps. cbv zeta.
  assert (Hdesc : renderDescription q data
                  = ((renderDescription q data).1, (renderDescription p data).2) /\
                  contentDescription (renderDescription q data).1
                  = contentDescription (renderDescription p data).1).
  { unfold renderDescription.
    destruct (presence_cases _ _ Hd) as [(a & b & -> & ->)|[Hp Hq]];
      [|rewrite Hp, Hq; split; [reflexivity|cbn [fst]; congruence]].
    destruct (truthyString _); [now split|].
    now destruct (detachFirstP _) as [[firstP tempDiv]|]. }
  destruct Hdesc as [Hd2 Hd1]. rewrite Hd2. cbn [fst snd]. clear Hd2.
  assert (Hfoot : match renderFooter hostname p data with
                  | Returned _ =>
                    exists f, renderFooter hostname q data = Returned f /\
                      contentFooter f
                      = contentFooter (after (renderFooter hostname p data))
                  | Thrown _ => True
                  end).
  { unfold renderFooter.
    destruct (presence_cases _ _ Hf) as [(a & b & -> & ->)|[Hp Hq]];
      [|rewrite Hp, Hq; cbn [after]; eexists; split; [reflexivity|congruence]].
    destruct (resourcesHtml hostname data); eauto. }
  destruct (renderFooter hostname p data) as [f0|f0]; [|discriminate].
  destruct Hfoot as (f & -> & Hf'). intros [= <- <-]. eexists. split; [reflexivity|].
  cbn [contentTitle contentMeta contentDescription contentImageContainer
       contentBody contentFooter after] in *.
  split; [|split; [|split; [|split; [|split]]]].
  - unfold renderTitle.
    destruct (presence_cases _ _ Ht) as [(a & b & -> & ->)|[Hp Hq]];
      [reflexivity|rewrite Hp, Hq; congruence].
  - unfold renderMeta.
    destruct (presence_cases _ _ Hm) as [(a & b & -> & ->)|[Hp Hq]];
      [reflexivity|rewrite Hp, Hq; congruence].
  - exact Hd1.
  - unfold renderImage.
    destruct (presence_cases _ _ Hi) as [(a & b & -> & ->)|[Hp Hq]];
      [reflexivity|rewrite Hp, Hq; congruence].
  - unfold renderBody.
    destruct (presence_cases _ _ Hb) as [(a & b & -> & ->)|[Hp Hq]];
      [reflexivity|rewrite Hp, Hq; congruence].
  - exact Hf'.
Qed.

(** X19.  A render that returns overwrites all six elements: on two pages
    that have the same elements, whatever these showed before, the same
    record and fallback name give the same title, meta line, description,
    image, body and footer, and leave the record in the same state. *)
Theorem renderContent_overwrites_what_was_shown
    (p q : Panel) (data : ContentRecord) (name : option string)
    (p' : Panel) (data' : ContentRecord) :
  (is_Some (contentTitle p) <-> is_Some (contentTitle q)) ->
  (is_Some (contentMeta p) <-> is_Some (contentMeta q)) ->
  (is_Some (contentDescription p) <-> is_Some (contentDescription q)) ->
  (is_Some (contentImageContainer p) <-> is_Some (contentImageContainer q)) ->
  (is_Some (contentBody p) <-> is_Some (contentBody q)) ->
  (is_Some (contentFooter p) <-> is_Some (contentFooter q)) ->
  renderContent formatDate hostname p data name = Returned (p', data') ->
  exists q',
    renderContent formatDate hostname q data name = Returned (q', data') /\
    contentTitle q' = contentTitle p' /\
    contentMeta q' = contentMeta p' /\
    contentDescription q' = contentDescription p' /\
    contentImageContainer q' = contentImageContainer p' /\
    contentBody q' = contentBody p' /\
    contentFooter q' = contentFooter p'.
Proof. apply renderContent_by_presence. Qed.

(** ** The statically bundled records *)

Lemma renderFooter_returns (p : Panel) (data : ContentRecord) :
  (forall rs res, resources data = Some rs -> res ∈ rs ->
     String.prefix "http" res = true -> is_Some (hostname res)) ->
  exists f, renderFooter hostname p data = Returned f.
Proof.
  intros Hok. destruct (renderFooter hostname p data) as [f|f] eqn:Hf; [eauto|].
  assert (Hex : exists s, renderFooter hostname p data = Thrown s) by eauto.
  apply renderFooter_Thrown in Hex as (_ & rs & res & Hr & Hin & Hp & Hh).
  destruct (Hok rs res Hr Hin Hp) as [h Hh']. congruence.
Qed.

Lemma static_load_takes_first_paragraph
    (store : gmap string ContentRecord) (p : Panel) (slug : string)
    (name : option string) (data : ContentRecord) (k rest : list Html) :
  store !! slug = Some data ->
  (forall rs res, resources data = Some rs -> res ∈ rs ->
     String.prefix "http" res = true -> is_Some (hostname res)) ->
  truthyString (description data) = None ->
  content data = Some (Element "p" k :: rest) ->
  is_Some (contentDescription p) ->
  is_Some (contentBody p) ->
  exists p1,
    loadContentStatic formatDate hostname (Some store) p slug name
    = Returned (p1, Some (<[slug := with_content data (Some rest)]> store)) /\
    contentDescription p1 = Some (textContent (Element "p" k), DisplayBlock) /\
    contentBody p1 = Some rest /\
    (is_Some (contentDescription p1) /\ is_Some (contentBody p1)).
Proof.
  intros Hs Hok Hno Hc [d0 Hd] [b0 Hb]. unfold loadContentStatic. rewrite Hs.
  rewrite renderContent_steps. cbv zeta.
  destruct (renderFooter_returns p data Hok) as [f ->].
  assert (Hdesc : renderDescription p data
                  = (with_description p (textContent (Element "p" k)) DisplayBlock,
                     with_content data (Some rest))).
  { unfold renderDescription. rewrite Hd, Hno, Hc. cbn [orEmpty].
    pose proof (detachFirstP_leading_texts "div" [] k rest (Forall_nil_2 _)) as Hdet.
    cbn [app] in Hdet. now rewrite Hdet. }
  rewrite Hdesc. cbn [fst snd]. eexists. split; [reflexivity|].
  cbn [contentDescription contentBody with_currentSlug show with_description].
  unfold renderBody. rewrite Hb.
  cbn [contentBody with_body content with_content orEmpty]. eauto.
Qed.

(** X20.  The statically bundled records are rendered in place, so what the
    description step takes out of a record stays out.  For a record without
    description whose body starts with two paragraphs, the first
    [loadContentStatic] shows the first paragraph as description and the
    rest as body, and a second one for the same slug shows the second
    paragraph as description and the body without either; the stored record
    has then lost both. *)
Theorem static_reload_takes_the_next_paragraph
    (store : gmap string ContentRecord) (p : Panel) (slug : string)
    (name : option string) (data : ContentRecord) (k1 k2 rest : list Html) :
  store !! slug = Some data ->
  (forall rs res, resources data = Some rs -> res ∈ rs ->
     String.prefix "http" res = true -> is_Some (hostname res)) ->
  truthyString (description data) = None ->
  content data = Some (Element "p" k1 :: Element "p" k2 :: rest) ->
  is_Some (contentDescription p) ->
  is_Some (contentBody p) ->
  exists p1 store1 p2 store2,
    loadContentStatic formatDate hostname (Some store) p slug name
    = Returned (p1, Some store1) /\
    contentDescription p1 = Some (textContent (Element "p" k1), DisplayBlock) /\
    contentBody p1 = Some (Element "p" k2 :: rest) /\
    loadContentStatic formatDate hostname (Some store1) p1 slug name
    = Returned (p2, Some store2) /\
    contentDescription p2 = Some (textContent (Element "p" k2), DisplayBlock) /\
    contentBody p2 = Some rest /\
    content <$> store2 !! slug = Some (Some rest).
Proof.
  intros Hs Hok Hno Hc Hd Hb.
  destruct (static_load_takes_first_paragraph store p slug name data k1
              (Element "p" k2 :: rest) Hs Hok Hno Hc Hd Hb)
    as (p1 & H1 & Hd1 & Hb1 & Hd1' & Hb1').
  destruct (static_load_takes_first_paragraph
              (<[slug := with_content data (Some (Element "p" k2 :: rest))]> store)
              p1 slug name (with_content data (Some (Element "p" k2 :: rest)))
              k2 rest (lookup_insert_eq _ _ _) Hok Hno eq_refl Hd1' Hb1')
    as (p2 & H2 & Hd2 & Hb2 & _).
  exists p1. eexists. exists p2. eexists.
  split; [exact H1|]. split; [exact Hd1|]. split; [exact Hb1|].
  split; [exact H2|]. split; [exact Hd2|]. split; [exact Hb2|].
  now rewrite lookup_insert_eq.
Qed.

(** X21.  [loadContentStatic] has no handler of its own, and its lookup
    [window.__CONTENT_DATA__[slug]] sees what the store inherits.  Let the
    store, if there is one, have no entry [__proto__].  Without a store, or
    with a store that has no record for the slug when the slug is not a
    name of [Object.prototype], it shows the error placeholder, makes
    the panel visible and leaves the store and [currentSlug] alone.  For a
    slug without record that is a name of [Object.prototype] ([constructor],
    [toString], ...) the lookup is truthy: the content path runs on a value
    without fields, so the title is the fallback name, the body is empty,
    the panel is visible and [currentSlug] is the slug.  With a record, the
    call returns exactly when [renderContent] does, and then the panel is
    visible and [currentSlug] is the slug; when [renderContent] throws, the
    exception leaves [loadContentStatic], the panel is not made visible and
    [currentSlug] is not set. *)
Theorem loadContentStatic_has_no_handler
    (store : option (gmap string ContentRecord)) (p : Panel) (slug : string)
    (name : option string) :
  (store = None \/
   (exists records, store = Some records /\ records !! "__proto__" = None /\
      records !! slug = None /\ slug ∉ objectPrototypeNames) ->
   loadContentStatic formatDate hostname store p slug name
   = Returned (show (renderError p name), store) /\
   (is_Some (contentSection p) -> isVisible (show (renderError p name)) = Some true) /\
   currentSlug (show (renderError p name)) = currentSlug p) /\
  (forall records, store = Some records -> records !! "__proto__" = None ->
   records !! slug = None -> slug ∈ objectPrototypeNames ->
   exists p', loadContentStatic formatDate hostname store p slug name
              = Returned (p', store) /\
     (is_Some (contentSection p) -> isVisible p' = Some true) /\
     currentSlug p' = Some slug /\
     (is_Some (contentTitle p) -> contentTitle p' = Some (asText name)) /\
     (is_Some (contentBody p) -> contentBody p' = Some [])) /\
  (forall data, store ≫= (.!! slug) = Some data ->
   (forall s, renderContent formatDate hostname p data name = Thrown s ->
      exists st, loadContentStatic formatDate hostname store p slug name
                 = Thrown (s.1, st) /\
        isVisible s.1 = isVisible p /\ currentSlug s.1 = currentSlug p) /\
   (forall s, renderContent formatDate hostname p data name = Returned s ->
      exists p' st, loadContentStatic formatDate hostname store p slug name
                    = Returned (p', st) /\
        (is_Some (contentSection p) -> isVisible p' = Some true) /\
        currentSlug p' = Some slug /\ contentTitle p' = contentTitle s.1)).
Proof.
  split; [|split].
  - intros Hnone. split; [|split].
    + unfold loadContentStatic.
      destruct Hnone as [->|(records & -> & _ & -> & Hout)]; [reflexivity|].
      now rewrite bool_decide_eq_false_2.
    + intros [v Hv]. unfold isVisible. cbn. now rewrite Hv.
    + reflexivity.
  - intros records -> _ Hnone Hin. unfold loadContentStatic.
    rewrite Hnone, bool_decide_eq_true_2 by assumption.
    rewrite renderContent_steps. cbv zeta.
    assert (Hf : exists f, renderFooter hostname p inheritedValue = Returned f).
    { unfold renderFooter. destruct (contentFooter p); eauto. }
    destruct Hf as [f ->]. eexists. split; [reflexivity|].
    cbn [with_currentSlug show contentSection currentSlug contentTitle contentBody].
    split; [|split; [reflexivity|split]].
    + intros [v Hv]. unfold isVisible. cbn. now rewrite Hv.
    + intros [t Ht]. unfold renderTitle. now rewrite Ht.
    + intros [b0 Hb]. unfold renderBody, renderDescription. rewrite Hb.
      now destruct (contentDescription p).
  - intros data Hdata. destruct store as [m|]; [|discriminate]. cbn in Hdata.
    unfold loadContentStatic. rewrite Hdata.
    pose proof (renderContent_steps formatDate hostname p data name) as Hsteps. cbv zeta in Hsteps.
    split; intros [s1 s2] Hr; rewrite Hr.
    + eexists. split; [reflexivity|]. rewrite Hr in Hsteps.
      destruct (renderFooter hostname p data); [discriminate|].
      now injection Hsteps as -> _.
    + do 2 eexists. split; [reflexivity|]. rewrite Hr in Hsteps.
      destruct (renderFooter hostname p data); [|discriminate].
      injection Hsteps as -> _. split; [|now split].
      intros [v Hv]. unfold isVisible. cbn. now rewrite Hv.
Qed.

(** ** The page script of the static site *)

Lemma loadContent_visible (fetch : string -> FetchResult) (p : Panel)
    (slug : string) (name : option string) :
  is_Some (contentSection p) ->
  isVisible (after (loadContent formatDate hostname fetch p slug name)) = Some true.
Proof.
  intros [v Hv]. unfold loadContent, loadContentBody, isVisible.
  destruct (fetch _) as [|[|] status [|data]]; cbn [tryCatch after];
    try (cbn; now rewrite Hv).
  pose proof (renderContent_keeps_elements formatDate hostname p data name) as [Hs _].
  destruct (renderContent _ _ p data name) as [[p' d']|[p' d']];
    cbn [tryCatch after fst] in *; cbn; now rewrite Hs, Hv.
Qed.

(** X22.  [loadStaticContent] of the static page script, which fetches one
    JSON file per record, never rejects, and shows what [loadContent] shows
    when the file holds what the server would answer: the same title, meta
    line, description, image, body and footer, with the panel visible.  The
    one difference is that [currentSlug] is left as it was. *)
Theorem loadStaticContent_shows_what_loadContent_shows
    (fetchFile fetchApi : string -> FetchResult) (p : Panel) (slug : string)
    (name : option string) :
  fetchFile ("./data/content/" +:+ slug +:+ ".json")
  = fetchApi ("/api/content/" +:+ slug) ->
  exists p' q',
    loadStaticContent formatDate hostname fetchFile p slug name = Returned p' /\
    loadContent formatDate hostname fetchApi p slug name = Returned q' /\
    contentSection p' = contentSection q' /\ treeSection p' = treeSection q' /\
    contentTitle p' = contentTitle q' /\ contentMeta p' = contentMeta q' /\
    contentDescription p' = contentDescription q' /\
    contentImageContainer p' = contentImageContainer q' /\
    contentBody p' = contentBody q' /\ contentFooter p' = contentFooter q' /\
    currentSlug p' = currentSlug p /\
    (is_Some (contentSection p) -> isVisible p' = Some true).
Proof.
  intros Hfetch.
  pose proof (loadContent_visible fetchApi p slug name) as Hvis.
  pose proof (renderContent_steps formatDate hostname p) as Hsteps.
  revert Hvis. unfold loadStaticContent, loadContent, loadContentBody,
    renderContentDirect, renderErrorDirect. rewrite Hfetch.
  destruct (fetchApi _) as [|[|] status [|data]]; cbn [tryCatch after].
  1-2, 4-5: intros Hvis; do 2 eexists; do 11 (split; [reflexivity|]); exact Hvis.
  specialize (Hsteps data name). cbv zeta in Hsteps.
  destruct (renderContent _ _ p data name) as [[p' d']|[p' d']];
    cbn [tryCatch after]; intros Hvis; do 2 eexists;
    do 10 (split; [reflexivity|]); (split; [|exact Hvis]).
  all: destruct (renderFooter hostname p data); try discriminate;
    now injection Hsteps as -> _.
Qed.

(** ** Responses that arrive late *)

Lemma renderContent_returns (p : Panel) (data : ContentRecord) (name : option string) :
  (forall rs res, resources data = Some rs -> res ∈ rs ->
     String.prefix "http" res = true -> is_Some (hostname res)) ->
  exists s, renderContent formatDate hostname p data name = Returned s.
Proof.
  intros Hok. rewrite renderContent_steps. cbv zeta.
  destruct (renderFooter_returns p data Hok) as [f ->]. eauto.
Qed.

Lemma loadContent_presence (fetch : string -> FetchResult) (p : Panel)
    (slug : string) (name : option string) :
  let q := after (loadContent formatDate hostname fetch p slug name) in
  (is_Some (contentTitle p) <-> is_Some (contentTitle q)) /\
  (is_Some (contentMeta p) <-> is_Some (contentMeta q)) /\
  (is_Some (contentDescription p) <-> is_Some (contentDescription q)) /\
  (is_Some (contentImageContainer p) <-> is_Some (contentImageContainer q)) /\
  (is_Some (contentBody p) <-> is_Some (contentBody q)) /\
  (is_Some (contentFooter p) <-> is_Some (contentFooter q)).
Proof.
  cbv zeta. unfold loadContent, loadContentBody.
  pose proof (renderContent_steps formatDate hostname p) as Hsteps.
  assert (Herr : forall r : Panel,
            (is_Some (contentTitle p) <-> is_Some (contentTitle r)) ->
            (is_Some (contentMeta p) <-> is_Some (contentMeta r)) ->
            (is_Some (contentDescription p) <-> is_Some (contentDescription r)) ->
            (is_Some (contentImageContainer p) <-> is_Some (contentImageContainer r)) ->
            (is_Some (contentBody p) <-> is_Some (contentBody r)) ->
            (is_Some (contentFooter p) <-> is_Some (contentFooter r)) ->
            let q := show (renderError r name) in
            (is_Some (contentTitle p) <-> is_Some (contentTitle q)) /\
            (is_Some (contentMeta p) <-> is_Some (contentMeta q)) /\
            (is_Some (contentDescription p) <-> is_Some (contentDescription q)) /\
            (is_Some (contentImageContainer p) <-> is_Some (contentImageContainer q)) /\
            (is_Some (contentBody p) <-> is_Some (contentBody q)) /\
            (is_Some (contentFooter p) <-> is_Some (contentFooter q))).
  { intros r H1 H2 H3 H4 H5 H6.
    cbn [show renderError contentTitle contentMeta contentDescription
         contentImageContainer contentBody contentFooter].
    rewrite H1, H2, H3, H4, H5, H6.
    split; [|split; [|split; [|split; [|split]]]].
    - destruct (contentTitle r); split; eauto; intros [? [=]].
    - destruct (contentMeta r); split; eauto; intros [? [=]].
    - destruct (contentDescription r); split; eauto; intros [? [=]].
    - destruct (contentImageContainer r) as [[? ?]|]; split; eauto; intros [? [=]].
    - destruct (contentBody r); split; eauto; intros [? [=]].
    - destruct (contentFooter r); split; eauto; intros [? [=]]. }
  assert (Hrender : forall data,
            let r := {| contentSection := contentSection p;
                        treeSection := treeSection p;
                        contentTitle := contentTitle (renderTitle p data name);
                        contentMeta := contentMeta (renderMeta formatDate p data);
                        contentDescription :=
                          contentDescription (renderDescription p data).1;
                        contentImageContainer :=
                          contentImageContainer (renderImage p data);
                        contentBody :=
                          contentBody (renderBody p (renderDescription p data).2);
                        contentFooter :=
                          contentFooter (after (renderFooter hostname p data));
                        currentSlug := currentSlug p |} in
            (is_Some (contentTitle p) <-> is_Some (contentTitle r)) /\
            (is_Some (contentMeta p) <-> is_Some (contentMeta r)) /\
            (is_Some (contentDescription p) <-> is_Some (contentDescription r)) /\
            (is_Some (contentImageContainer p) <-> is_Some (contentImageContainer r)) /\
            (is_Some (contentBody p) <-> is_Some (contentBody r)) /\
            (is_Some (contentFooter p) <-> is_Some (contentFooter r))).
  { intros data.
    cbn [contentTitle contentMeta contentDescription contentImageContainer
         contentBody contentFooter].
    unfold renderTitle, renderMeta, renderDescription, renderImage, renderBody,
      renderFooter.
    split; [|split; [|split; [|split; [|split]]]].
    - destruct (contentTitle p) eqn:E; cbn; rewrite ?E; split; eauto.
    - destruct (contentMeta p) eqn:E; cbn; rewrite ?E; split; eauto.
    - destruct (contentDescription p) eqn:E; [|cbn; rewrite E; split; eauto].
      destruct (truthyString _); [cbn; split; eauto|].
      destruct (detachFirstP _) as [[? ?]|]; cbn; split; eauto.
    - destruct (contentImageContainer p) eqn:E; cbn; rewrite ?E; split; eauto.
    - destruct (contentBody p) eqn:E; cbn; rewrite ?E; split; eauto.
    - destruct (contentFooter p) eqn:E; [|cbn; rewrite E; split; eauto].
      destruct (resourcesHtml hostname data); cbn; rewrite ?E; split; eauto. }
  destruct (fetch _) as [|[|] status [|data]]; cbn [tryCatch after];
    try (apply Herr; reflexivity).
  rewrite Hsteps. cbv zeta. specialize (Hrender data). cbv zeta in Hrender.
  destruct (renderFooter hostname p data) eqn:Hf; cbn [tryCatch after].
  - exact Hrender.
  - destruct Hrender as (H1 & H2 & H3 & H4 & H5 & H6). now apply Herr.
Qed.

(** X28.  [loadContent] has no guard against responses that arrive out of
    order: the response that is handled last fills the panel.  Let the
    record for slug [a] render.  When its response is handled after the one
    of a call for another slug [b] has been shown, whichever call was made
    first, the title, meta line, description, image, body and footer are
    exactly those of [a] loaded alone, and [currentSlug] is [a]. *)
Theorem the_response_that_arrives_last_fills_the_panel
    (fetch : string -> FetchResult) (p : Panel) (a b : string)
    (nameA nameB : option string) (status : nat) (data : ContentRecord) :
  fetch ("/api/content/" +:+ a) = Response true status (Json data) ->
  (forall rs res, resources data = Some rs -> res ∈ rs ->
     String.prefix "http" res = true -> is_Some (hostname res)) ->
  let alone := after (loadContent formatDate hostname fetch p a nameA) in
  let late :=
    after (loadContent formatDate hostname fetch
             (after (loadContent formatDate hostname fetch p b nameB)) a nameA) in
  currentSlug late = Some a /\
  contentTitle late = contentTitle alone /\
  contentMeta late = contentMeta alone /\
  contentDescription late = contentDescription alone /\
  contentImageContainer late = contentImageContainer alone /\
  contentBody late = contentBody alone /\
  contentFooter late = contentFooter alone.
Proof.
  intros Hfetch Hok. cbv zeta.
  destruct (loadContent_presence fetch p b nameB) as (H1 & H2 & H3 & H4 & H5 & H6).
  set (q := after (loadContent formatDate hostname fetch p b nameB)) in *.
  destruct (renderContent_returns p data nameA Hok) as [[p' d'] Hp].
  destruct (renderContent_by_presence p q data nameA p' d' H1 H2 H3 H4 H5 H6 Hp)
    as (q' & Hq & Et & Em & Ed & Ei & Eb & Ef).
  unfold loadContent, loadContentBody. rewrite Hfetch, Hp, Hq.
  cbn [tryCatch after]. now repeat split.
Qed.

End Facts.

(** ** The theorems at work on sample data *)

(** X18 on the record without image. *)
Lemma error_after_hello_hides_the_placeholder :
  contentImageContainer blankPanel = Some (NoImage, DisplayUnset) /\
  image helloRecord = None /\
  contentImageContainer (renderError blankPanel None) = Some (Placeholder, DisplayUnset) /\
  contentImageContainer
    (renderError
       (after (renderContent monthYear plainHostname blankPanel helloRecord
                 (Some "Hello"))).1 None)
  = Some (Placeholder, DisplayNone).
Proof.
  split; [reflexivity|]. split; [reflexivity|].
  exact (error_placeholder_keeps_the_display_of_the_last_record
           monthYear plainHostname blankPanel helloRecord (Some "Hello") None
           _ eq_refl).
Defined.

(** X19 on the sample record, rendered on a blank page and on a page that
    shows the error placeholder. *)
Lemma hello_overwrites_the_error_placeholder :
  exists p' data' q',
    renderContent monthYear plainHostname blankPanel helloRecord (Some "Hello")
    = Returned (p', data') /\
    renderContent monthYear plainHostname (renderError blankPanel None)
      helloRecord (Some "Hello") = Returned (q', data') /\
    contentTitle q' = contentTitle p' /\
    contentDescription q' = contentDescription p' /\
    contentBody q' = contentBody p' /\
    contentFooter q' = contentFooter p'.
Proof.
  destruct (renderContent_overwrites_what_was_shown monthYear plainHostname
              blankPanel (renderError blankPanel None) helloRecord (Some "Hello")
              _ _
              ltac:(vm_compute; split; eauto) ltac:(vm_compute; split; eauto)
              ltac:(vm_compute; split; eauto) ltac:(vm_compute; split; eauto)
              ltac:(vm_compute; split; eauto) ltac:(vm_compute; split; eauto)
              eq_refl)
    as (q' & Hq & Ht & _ & Hd & _ & Hb & Hf).
  eexists _, _, q'. split; [reflexivity|]. split; [exact Hq|].
  split; [exact Ht|]. split; [exact Hd|]. split; [exact Hb|exact Hf].
Defined.

(** X20 on a store that holds the sample record. *)
Lemma hello_shows_another_description_when_reloaded :
  exists p1 store1 p2 store2,
    loadContentStatic monthYear plainHostname (Some {[ "hello" := helloRecord ]})
      blankPanel "hello" (Some "Hello") = Returned (p1, Some store1) /\
    contentDescription p1 = Some ("Hello world.", DisplayBlock) /\
    loadContentStatic monthYear plainHostname (Some store1) p1 "hello" (Some "Hello")
    = Returned (p2, Some store2) /\
    contentDescription p2 = Some ("More to read.", DisplayBlock) /\
    contentBody p2 = Some [].
Proof.
  destruct (static_reload_takes_the_next_paragraph monthYear plainHostname
              {[ "hello" := helloRecord ]} blankPanel "hello" (Some "Hello")
              helloRecord [Text "Hello world."] [Text "More to read."] [])
    as (p1 & store1 & p2 & store2 & H1 & Hd1 & _ & H2 & Hd2 & Hb2 & _).
  - apply lookup_singleton_eq.
  - intros rs res [= <-] Hin Hp.
    apply elem_of_cons in Hin as [->|Hin]; [vm_compute; eauto|].
    apply list_elem_of_singleton in Hin as ->. discriminate.
  - reflexivity.
  - reflexivity.
  - vm_compute; eauto.
  - vm_compute; eauto.
  - exists p1, store1, p2, store2.
    split; [exact H1|]. split; [exact Hd1|]. split; [exact H2|].
    split; [exact Hd2|exact Hb2].
Defined.

(** X21 on a store that holds the sample record only: the slug
    [constructor] has no record and still takes the content path. *)
Lemma constructor_slug_takes_the_content_path :
  ({[ "hello" := helloRecord ]} : gmap string ContentRecord) !! "constructor" = None /\
  exists p',
    loadContentStatic monthYear plainHostname (Some {[ "hello" := helloRecord ]})
      blankPanel "constructor" (Some "Constructor")
    = Returned (p', Some {[ "hello" := helloRecord ]}) /\
    isVisible p' = Some true /\
    currentSlug p' = Some "constructor" /\
    contentTitle p' = Some "Constructor" /\
    contentBody p' = Some [].
Proof.
  assert (Hnone : ({[ "hello" := helloRecord ]} : gmap string ContentRecord)
                    !! "constructor" = None)
    by now apply lookup_singleton_ne.
  split; [exact Hnone|].
  destruct (proj1 (proj2 (loadContentStatic_has_no_handler monthYear plainHostname
                            (Some {[ "hello" := helloRecord ]}) blankPanel
                            "constructor" (Some "Constructor")))
                  _ eq_refl ltac:(now apply lookup_singleton_ne) Hnone
                  ltac:(unfold objectPrototypeNames; left))
    as (p' & Hl & Hv & Hs & Ht & Hb).
  exists p'. split; [exact Hl|]. split; [apply Hv; vm_compute; eauto|].
  split; [exact Hs|]. split; [apply Ht|apply Hb]; vm_compute; eauto.
Defined.

(** X22 when the static file is missing as the server record is. *)
Lemma missing_static_file_shows_the_placeholder :
  exists p' q',
    loadStaticContent monthYear plainHostname (fun _ => NetworkError)
      blankPanel "bicycles" (Some "Bicycles") = Returned p' /\
    loadContent monthYear plainHostname (fun _ => NetworkError)
      blankPanel "bicycles" (Some "Bicycles") = Returned q' /\
    contentTitle p' = contentTitle q' /\
    isVisible p' = Some true.
Proof.
  destruct (loadStaticContent_shows_what_loadContent_shows monthYear plainHostname
              (fun _ => NetworkError) (fun _ => NetworkError)
              blankPanel "bicycles" (Some "Bicycles") eq_refl)
    as (p' & q' & Hp & Hq & _ & _ & Ht & _ & _ & _ & _ & _ & _ & Hv).
  exists p', q'. split; [exact Hp|]. split; [exact Hq|]. split; [exact Ht|].
  apply Hv. vm_compute. eauto.
Defined.

(** X28 with two records on the server: the response for [hello] is handled
    after the one for [other]. *)
Lemma late_hello_replaces_the_other_record :
  let server := fun url : string =>
    if String.eqb url "/api/content/hello" then Response true 200 (Json helloRecord)
    else Response true 200
           (Json (with_content helloRecord (Some [Element "p" [Text "Other."]]))) in
  contentDescription
    (after (loadContent monthYear plainHostname server blankPanel "other" (Some "Other")))
  = Some ("Other.", DisplayBlock) /\
  contentDescription
    (after (loadContent monthYear plainHostname server
              (after (loadContent monthYear plainHostname server blankPanel
                        "other" (Some "Other")))
              "hello" (Some "Hello")))
  = Some ("Hello world.", DisplayBlock).
Proof.
  intros server. split; [reflexivity|].
  destruct (the_response_that_arrives_last_fills_the_panel
              monthYear plainHostname server blankPanel "hello" "other"
              (Some "Hello") (Some "Other") 200 helloRecord eq_refl)
    as (_ & _ & _ & Hd & _).
  - intros rs res [= <-] Hin Hp.
    apply elem_of_cons in Hin as [->|Hin]; [vm_compute; eauto|].
    apply list_elem_of_singleton in Hin as ->. discriminate.
  - exact Hd.
Defined.

End PanelExtras.

(** * Part VII: the two modules on one page *)

Module AppExtras.
Import Tree Panel App TreeFacts TreeExtras PanelFacts PanelExtras.

Section Facts.
Variable formatDate : string -> string.
Variable hostname : string -> option string.
Variable fetch : string -> FetchResult.

Lemma click_selects (st : State) (d : Loc) (n : Node) :
  nodeAt (root st) d = Some n ->
  isRoot d && isCollapsed (root st) = false ->
  hasContent n = true ->
  selectedNode (handleNodeClick st d) = Some d /\
  calls (handleNodeClick st d) = calls (selectNode st d).
Proof.
  intros Hn Hr Hc. unfold handleNodeClick. rewrite Hn, Hr, Hc.
  destruct (kids n); [|split; [apply selectedNode_selectNode|reflexivity]].
  cbn [update with_dom with_root selectedNode calls].
  split; [apply selectedNode_selectNode|reflexivity].
Qed.

Lemma loadContent_sections (p : Panel) (slug : string) (name : option string) :
  (is_Some (contentSection p) ->
   contentSection (after (loadContent formatDate hostname fetch p slug name))
   = Some true) /\
  (is_Some (treeSection p) ->
   is_Some (treeSection (after (loadContent formatDate hostname fetch p slug name)))).
Proof.
  unfold loadContent, loadContentBody.
  pose proof (renderContent_steps formatDate hostname p) as Hsteps.
  destruct (fetch _) as [|[|] status [|data]]; cbn [tryCatch after].
  3: specialize (Hsteps data name); cbv zeta in Hsteps; rewrite Hsteps;
     destruct (renderFooter hostname p data); cbn [tryCatch after].
  all: split; intros [v Hv];
    cbn [show with_currentSlug renderError contentSection treeSection];
    rewrite Hv; eauto.
Qed.

Lemma deliver_one_call (before t : State) (p : Panel) (s : string)
    (nm : option string) :
  calls t = calls before ++ [(s, nm)] ->
  deliver formatDate hostname fetch before t p
  = after (loadContent formatDate hostname fetch p s nm).
Proof. unfold deliver. intros ->. now rewrite drop_app_length. Qed.

Lemma deliver_no_call (before t : State) (p : Panel) :
  calls t = calls before -> deliver formatDate hostname fetch before t p = p.
Proof. unfold deliver. intros ->. now rewrite drop_all. Qed.

Lemma clearSelection_clears (st : State) :
  selectedNode (clearSelection st) = None /\
  root (clearSelection st) = root st /\
  (forall e, e ∈ domNodes (clearSelection st) -> "node--active" ∉ e.2) /\
  (forall e, e ∈ domLinks (clearSelection st) -> e.2 = false).
Proof.
  unfold clearSelection.
  cbn [selectedNode root domNodes domLinks with_dom with_selectedNode
       refreshNodeClasses].
  split; [reflexivity|]. split; [reflexivity|]. split.
  - intros e (e0 & -> & _)%list_elem_of_fmap. cbn [snd].
    now intros [_ [=]]%active_class.
  - now intros e (e0 & -> & _)%list_elem_of_fmap.
Qed.

(** X23.  Let the page have the content section and the tree a selection
    callback.  A click on a node whose slug is a non-empty string, unless it
    is the click on the root while the root shows no children (which only
    expands), selects the node and opens the panel with what [loadContent]
    shows for that slug and name.  Escape then hides the panel and clears
    the selection: no node is selected, no element keeps [node--active] or
    [link--active], [currentSlug] is null, and the tree is expanded as
    before.  With the tree section on the page, a click outside both
    sections does the same, and a click inside either changes nothing. *)
Theorem click_opens_the_panel_and_Escape_closes_it
    (pg : Page) (d : Loc) (n : Node) (s : string) :
  onNodeSelect (tree pg) = true ->
  nodeAt (root (tree pg)) d = Some n ->
  slug (data n) = SlugStr s -> s <> EmptyString ->
  isRoot d && isCollapsed (root (tree pg)) = false ->
  is_Some (contentSection (panel pg)) ->
  let pg1 := nodeClick formatDate hostname fetch pg d in
  let pg2 := keydown pg1 "Escape" in
  selectedNode (tree pg1) = Some d /\
  panel pg1
  = after (loadContent formatDate hostname fetch (panel pg) s (name (data n))) /\
  isVisible (panel pg1) = Some true /\
  selectedNode (tree pg2) = None /\
  isVisible (panel pg2) = Some false /\
  currentSlug (panel pg2) = None /\
  root (tree pg2) = root (tree pg1) /\
  (forall e, e ∈ domNodes (tree pg2) -> "node--active" ∉ e.2) /\
  (forall e, e ∈ domLinks (tree pg2) -> e.2 = false) /\
  (is_Some (treeSection (panel pg)) ->
   documentClick pg1 false false = Returned pg2 /\
   forall inContent inTree, inContent || inTree = true ->
     documentClick pg1 inContent inTree = Returned pg1).
Proof.
  intros Hon Hn Hs Hne Hr Hcs pg1 pg2.
  assert (Hc : hasContent n = true) by (unfold hasContent; now rewrite Hs).
  destruct (click_selects (tree pg) d n Hn Hr Hc) as [Hsel Hcalls].
  assert (Htr : truthySlug n = Some s).
  { unfold truthySlug. rewrite Hs.
    destruct (String.eqb_spec s EmptyString); [contradiction|reflexivity]. }
  rewrite (calls_selectNode _ d n Hn), Hon, Htr in Hcalls.
  assert (Hpanel : panel pg1
            = after (loadContent formatDate hostname fetch (panel pg) s (name (data n))))
    by exact (deliver_one_call _ _ _ _ _ Hcalls).
  destruct (loadContent_sections (panel pg) s (name (data n))) as [Hvis Htree].
  specialize (Hvis Hcs). rewrite <- Hpanel in Hvis, Htree.
  assert (Hkey : pg2 = close pg1).
  { unfold pg2, keydown, isVisible. now rewrite Hvis. }
  destruct (clearSelection_clears (tree pg1)) as (C1 & C2 & C3 & C4).
  split; [exact Hsel|]. split; [exact Hpanel|]. split; [exact Hvis|].
  rewrite Hkey. cbn [close tree panel].
  split; [exact C1|].
  split; [unfold isVisible, hide; cbn [contentSection]; now rewrite Hvis|].
  split; [reflexivity|]. split; [exact C2|]. split; [exact C3|]. split; [exact C4|].
  intros Hts. destruct (Htree Hts) as [t Ht].
  unfold documentClick, isVisible. rewrite Hvis, Ht. split; [reflexivity|].
  intros [|] [|]; (discriminate || reflexivity).
Qed.

(** X24.  A selection that opened no panel cannot be dismissed.  Let the
    panel be not visible and let the clicked node have content (a slug that
    is neither null nor undefined) but cause no callback: its slug is the
    empty string, or no callback is installed.  A click on it, unless it is
    the click on the root while the root shows no children, selects the
    node and leaves the panel as it is; after that neither a key nor a click
    anywhere on the document clears the selection. *)
Theorem selection_without_panel_is_not_dismissed
    (pg : Page) (d : Loc) (n : Node) :
  nodeAt (root (tree pg)) d = Some n ->
  hasContent n = true ->
  onNodeSelect (tree pg) = false \/ slug (data n) = SlugStr EmptyString ->
  isRoot d && isCollapsed (root (tree pg)) = false ->
  isVisible (panel pg) <> Some true ->
  let pg1 := nodeClick formatDate hostname fetch pg d in
  selectedNode (tree pg1) = Some d /\
  panel pg1 = panel pg /\
  (forall key, keydown pg1 key = pg1) /\
  (forall inContent inTree, documentClick pg1 inContent inTree = Returned pg1).
Proof.
  intros Hn Hc Hno Hr Hvis pg1.
  destruct (click_selects (tree pg) d n Hn Hr Hc) as [Hsel Hcalls].
  assert (Hsame : calls (selectNode (tree pg) d) = calls (tree pg)).
  { rewrite (calls_selectNode _ d n Hn).
    destruct Hno as [-> | Hs]; [reflexivity|].
    unfold truthySlug. rewrite Hs. now destruct (onNodeSelect (tree pg)). }
  rewrite Hsame in Hcalls.
  assert (Hpanel : panel pg1 = panel pg) by exact (deliver_no_call _ _ _ Hcalls).
  split; [exact Hsel|]. split; [exact Hpanel|].
  unfold keydown, documentClick. rewrite Hpanel.
  destruct (isVisible (panel pg)) as [[|]|]; [contradiction| |]; split; intros;
    try reflexivity; now destruct (String.eqb _ _).
Qed.

End Facts.

(** ** The theorems at work on the sample page *)

(** The sample tree landed expanded beside a blank panel. *)
Lemma sample_page_opens_and_closes :
  let pg := {| tree := landedExpanded; panel := blankPanel |} in
  let pg1 := nodeClick monthYear plainHostname (fun _ => NetworkError) pg [0; 1] in
  (slug ∘ data) <$> nodeAt (root (tree pg)) [0; 1] = Some (SlugStr "bicycles") /\
  selectedNode (tree pg1) = Some [0; 1] /\
  isVisible (panel pg1) = Some true /\
  selectedNode (tree (keydown pg1 "Escape")) = None /\
  isVisible (panel (keydown pg1 "Escape")) = Some false.
Proof.
  intros pg pg1. split; [reflexivity|].
  destruct (click_opens_the_panel_and_Escape_closes_it
              monthYear plainHostname (fun _ => NetworkError) pg [0; 1] _ "bicycles"
              eq_refl eq_refl eq_refl ltac:(discriminate) eq_refl
              ltac:(vm_compute; eauto))
    as (Hs & _ & Hv & Hn & Hh & _).
  split; [exact Hs|]. split; [exact Hv|]. split; [exact Hn|exact Hh].
Defined.

(** The draft tree, whose leaf has the empty string as slug, beside a blank
    panel. *)
Lemma draft_selection_survives_escape :
  let pg := {| tree := landedDraft; panel := blankPanel |} in
  let pg1 := nodeClick monthYear plainHostname (fun _ => NetworkError) pg [0] in
  (slug ∘ data) <$> nodeAt (root (tree pg)) [0] = Some (SlugStr EmptyString) /\
  isVisible (panel pg) <> Some true /\
  selectedNode (tree pg1) = Some [0] /\
  selectedNode (tree (keydown pg1 "Escape")) = Some [0] /\
  documentClick pg1 false false = Returned pg1.
Proof.
  intros pg pg1. split; [reflexivity|]. split; [discriminate|].
  destruct (selection_without_panel_is_not_dismissed
              monthYear plainHostname (fun _ => NetworkError) pg [0] _
              eq_refl eq_refl (or_intror eq_refl) eq_refl ltac:(discriminate))
    as (Hs & _ & Hk & Hc).
  split; [exact Hs|]. split; [|exact (Hc false false)].
  exact (eq_trans (f_equal (fun x => selectedNode (tree x)) (Hk "Escape")) Hs).
Defined.

End AppExtras.
